(** * Colour extraction and coloured-pencil matching

    A shallow embedding of [color_analyzer.py] (class [ColorAnalyzer]) and
    [color_matcher.py] (class [ColorMatcher]), with the accessors of
    [pencil_database.py] (class [PencilDatabase]) that the matcher calls.

    Numbers.  Python integers are [Z].  The float64 values the code computes
    (LAB coordinates, colour differences, percentages, spreads, standard
    deviations) are read over the real numbers [R], i.e. in exact arithmetic:
    [x ** 2.4] and [x ** (1/3)] have no binary64 counterpart in Rocq, so the
    colour mathematics can only be stated over [R].  The one function whose
    result is claimed to satisfy an exact equation, [_analyze_regional_coverage],
    is written once over an abstract arithmetic and instantiated both over [R]
    and over binary64 ([PrimFloat]), where every operation it uses
    (int-to-float conversion, [/], [*], [<]) is correctly rounded as in numpy.

    Exceptions.  Code under [try]/[except] is written in the error monad
    [result]; [Raise e] stands for a raised exception [e]. *)

From Stdlib Require Floats.
From Stdlib Require Import ZArith List String Bool Reals Lra Lia Sorted Permutation.
Import ListNotations.

Local Open Scope string_scope.
Local Open Scope list_scope.
Local Open Scope Z_scope.
Local Open Scope R_scope.

(** ** Numeric helpers *)

(** Boolean readings of the float comparisons [<] and [<=]. *)
Definition Rltb (x y : R) : bool := if Rlt_dec x y then true else false.
Definition Rleb (x y : R) : bool := if Rle_dec x y then true else false.

(** An (R, G, B) tuple of Python integers. *)
Definition RGB : Type := (Z * Z * Z)%type.

(** ** Python lists *)

(** [l[:n]]: the first [n] items for [n >= 0]; all but the last [-n] for [n < 0]. *)
Definition slice_to {A : Type} (n : Z) (l : list A) : list A :=
  if (n <? 0)%Z
  then firstn (Z.to_nat (Z.of_nat (List.length l) + n)) l
  else firstn (Z.to_nat n) l.

(** [list.sort(key=...)] is a stable sort that compares keys with [<] only.
    [insert_sorted] puts [x] in front of the first item that is not below it, so
    that an item never overtakes one of equal key that stood after it. *)
Fixpoint insert_sorted {A : Type} (lt : A -> A -> bool) (x : A) (l : list A) : list A :=
  match l with
  | [] => [x]
  | y :: t => if lt y x then y :: insert_sorted lt x t else x :: y :: t
  end.

Definition stable_sort {A : Type} (lt : A -> A -> bool) (l : list A) : list A :=
  fold_right (insert_sorted lt) [] l.

(** [l.sort(key=k)] and [l.sort(key=k, reverse=True)]; both keep the original
    order of items with equal keys. *)
Definition sort_by_key {A : Type} (key : A -> R) (l : list A) : list A :=
  stable_sort (fun a b => Rltb (key a) (key b)) l.

Definition sort_by_key_reverse {A : Type} (key : A -> R) (l : list A) : list A :=
  stable_sort (fun a b => Rltb (key b) (key a)) l.

(** ** ColorAnalyzer: colour-space mathematics *)

(** [np.where(rgb > 0.04045, ((rgb + 0.055) / 1.055) ** 2.4, rgb / 12.92)], per channel. *)
Definition gamma_correct (v : R) : R :=
  if Rlt_dec 0.04045 v then Rpower ((v + 0.055) / 1.055) 2.4 else v / 12.92.

(** [np.where(xyz > 0.008856, xyz ** (1/3), 7.787 * xyz + 16/116)], per coordinate. *)
Definition lab_f (t : R) : R :=
  if Rlt_dec 0.008856 t then Rpower t (1 / 3) else 7.787 * t + 16 / 116.

(** [np.dot(xyz_matrix, rgb)] followed by the division by the D65 white point. *)
Definition linear_to_xyz (lin : R * R * R) : R * R * R :=
  let '(r, g, b) := lin in
  ((0.4124564 * r + 0.3575761 * g + 0.1804375 * b) / 0.95047,
   (0.2126729 * r + 0.7151522 * g + 0.0721750 * b) / 1.00000,
   (0.0193339 * r + 0.1191920 * g + 0.9503041 * b) / 1.08883).

Definition rgb_to_lab (rgb : RGB) : R * R * R :=
  let '(r, g, b) := rgb in
  (* rgb = np.array(rgb) / 255.0, then the gamma correction *)
  let lin := (gamma_correct (IZR r / 255),
              gamma_correct (IZR g / 255),
              gamma_correct (IZR b / 255)) in
  let '(x, y, z) := linear_to_xyz lin in
  let fx := lab_f x in
  let fy := lab_f y in
  let fz := lab_f z in
  (116 * fy - 16, 500 * (fx - fy), 200 * (fy - fz)).

(** [calculate_color_difference]: Delta E (CIE76).  For tuples of integers
    nothing in the [try] body raises, so the RGB-space fallback of the
    [except] clause is never taken and is not part of the model. *)
Definition calculate_color_difference (color1_rgb color2_rgb : RGB) : R :=
  let '(l1, a1, b1) := rgb_to_lab color1_rgb in
  let '(l2, a2, b2) := rgb_to_lab color2_rgb in
  sqrt ((l1 - l2) ^ 2 + (a1 - a2) ^ 2 + (b1 - b2) ^ 2).

(** ** PencilDatabase *)

(** A row of one brand's table: [{"name": ..., "code": ..., "rgb": ...}]. *)
Module Row.
Record t : Type := mk { name : string; code : string; rgb : RGB }.
End Row.

(** A row after [df['brand'] = ...]. *)
Module Pencil.
Record t : Type := mk { name : string; code : string; rgb : RGB; brand : string }.
End Pencil.

Record PencilDatabase : Type := {
  prismacolor_pencils : list Row.t;
  faber_castell_pencils : list Row.t;
  caran_dache_pencils : list Row.t;
  derwent_pencils : list Row.t;
  staedtler_pencils : list Row.t;
  koh_i_noor_pencils : list Row.t
}.

(** [df = table.copy(); df['brand'] = b]. *)
Definition with_brand (b : string) (table : list Row.t) : list Pencil.t :=
  map (fun r => Pencil.mk (Row.name r) (Row.code r) (Row.rgb r) b) table.

Definition get_prismacolor_pencils (db : PencilDatabase) : list Pencil.t :=
  with_brand "Prismacolor" (prismacolor_pencils db).

Definition get_faber_castell_pencils (db : PencilDatabase) : list Pencil.t :=
  with_brand "Faber Castell" (faber_castell_pencils db).

(** [pd.concat(all_dfs, ignore_index=True)] over the six branded tables. *)
Definition get_all_pencils (db : PencilDatabase) : list Pencil.t :=
  with_brand "Prismacolor" (prismacolor_pencils db)
  ++ with_brand "Faber Castell" (faber_castell_pencils db)
  ++ with_brand "Caran d'Ache" (caran_dache_pencils db)
  ++ with_brand "Derwent" (derwent_pencils db)
  ++ with_brand "Staedtler" (staedtler_pencils db)
  ++ with_brand "Koh-I-Noor" (koh_i_noor_pencils db).

(** ** ColorMatcher *)

(** The dictionary [match_info]. *)
Module Match.
Record t : Type := mk {
    brand : string;
    name : string;
    code : string;
    pencil_rgb : RGB;
    target_rgb : RGB;
    color_difference : R
  }.
End Match.

(** The dictionary built for one pencil and its difference to the target. *)
Definition match_info (target_rgb : RGB) (pencil : Pencil.t) : Match.t :=
  Match.mk (Pencil.brand pencil) (Pencil.name pencil) (Pencil.code pencil)
           (Pencil.rgb pencil) target_rgb
           (calculate_color_difference target_rgb (Pencil.rgb pencil)).

(** The body of the [for] loop of [find_matches]: one pencil, appended to
    [matches] when its difference is within the threshold. *)
Definition find_matches_step (target_rgb : RGB) (max_difference : R)
    (matches : list Match.t) (pencil : Pencil.t) : list Match.t :=
  let color_diff := calculate_color_difference target_rgb (Pencil.rgb pencil) in
  if Rleb color_diff max_difference
  then matches ++ [match_info target_rgb pencil]
  else matches.

Definition find_matches (db : PencilDatabase) (target_rgb : RGB)
    (max_matches : Z) (max_difference : R) : list Match.t :=
  let all_pencils := get_all_pencils db in
  let matches := fold_left (find_matches_step target_rgb max_difference) all_pencils [] in
  (* matches.sort(key=lambda x: x['color_difference']) *)
  let matches := sort_by_key Match.color_difference matches in
  let prismacolor_matches :=
    slice_to max_matches (filter (fun m => Match.brand m =? "Prismacolor")%string matches) in
  let faber_castell_matches :=
    slice_to max_matches (filter (fun m => Match.brand m =? "Faber Castell")%string matches) in
  prismacolor_matches ++ faber_castell_matches.

(** [min_difference] starts at [float('inf')]. *)
Inductive ext_real : Type :=
| Finite (r : R)
| PosInf.

(** [x < m] for a finite [x]: always true against [inf]. *)
Definition lt_ext (x : R) (m : ext_real) : bool :=
  match m with
  | Finite r => Rltb x r
  | PosInf => true
  end.

(** Truth value of the argument [brand]: [None] and the empty string are false. *)
Definition brand_given (brand : option string) : bool :=
  match brand with
  | Some b => negb (b =? "")%string
  | None => false
  end.

(** The table [find_best_match] scans for a given [brand] argument. *)
Definition best_match_pencils (db : PencilDatabase) (brand : option string) : list Pencil.t :=
  match brand with
  | Some b =>
      if brand_given brand then
        if (b =? "Prismacolor")%string then get_prismacolor_pencils db
        else if (b =? "Faber Castell")%string then get_faber_castell_pencils db
        else get_all_pencils db
      else get_all_pencils db
  | None => get_all_pencils db
  end.

(** The body of the [for] loop of [find_best_match] on the pair
    [(best_match, min_difference)]. *)
Definition find_best_match_step (target_rgb : RGB)
    (st : option Match.t * ext_real) (pencil : Pencil.t) : option Match.t * ext_real :=
  let '(best_match, min_difference) := st in
  let color_diff := calculate_color_difference target_rgb (Pencil.rgb pencil) in
  if lt_ext color_diff min_difference
  then (Some (match_info target_rgb pencil), Finite color_diff)
  else (best_match, min_difference).

Definition find_best_match (db : PencilDatabase) (target_rgb : RGB)
    (brand : option string) : option Match.t :=
  let pencils := best_match_pencils db brand in
  fst (fold_left (find_best_match_step target_rgb) pencils (None, PosInf)).

(** ** Exceptions *)

(** The exceptions the code distinguishes; all of them derive from [Exception]. *)
Inductive exn : Type :=
| ValueError
| AttributeError
| ImportError
| ZeroDivisionError
| OtherException (msg : string).

Inductive result (A : Type) : Type :=
| Ok (a : A)
| Raise (e : exn).
Arguments Ok {A} a.
Arguments Raise {A} e.

Definition bind {A B : Type} (m : result A) (k : A -> result B) : result B :=
  match m with
  | Ok a => k a
  | Raise e => Raise e
  end.

Notation "x <- m ;; k" := (bind m (fun x => k))
  (at level 61, m at next level, right associativity).

(** ** numpy on lists of integers *)

(** [range(n)] as integers. *)
Definition range (n : Z) : list Z := map Z.of_nat (seq 0 (Z.to_nat n)).

(** [enumerate(l)]. *)
Definition enumerate {A : Type} (l : list A) : list (Z * A) :=
  combine (range (Z.of_nat (List.length l))) l.

(** [np.max] and [np.min] raise [ValueError] on an empty array. *)
Definition np_max (l : list Z) : result Z :=
  match l with
  | [] => Raise ValueError
  | v :: t => Ok (fold_left Z.max t v)
  end.

Definition np_min (l : list Z) : result Z :=
  match l with
  | [] => Raise ValueError
  | v :: t => Ok (fold_left Z.min t v)
  end.

(** Sum of a float array. *)
Definition Rsum (l : list R) : R := fold_left Rplus l 0.

(** [np.mean] of an integer array. *)
Definition np_mean (l : list Z) : R := Rsum (map IZR l) / INR (List.length l).

(** [np.std]: [sqrt(mean(abs(x - x.mean()) ** 2))], read over the reals.  It
    is only reached on a non-empty array ([_classify_distribution] returns or
    raises before).  The float64 value numpy returns can differ from it in
    the last places; [_classify_distribution_binary64] takes that value as it
    comes. *)
Definition np_std (l : list Z) : R :=
  let m := np_mean l in
  sqrt (Rsum (map (fun v => Rabs (IZR v - m) ^ 2) l) / INR (List.length l)).

(** [np.sum(mask)]: the number of [True] entries. *)
Definition np_sum_mask (mask : list bool) : Z :=
  Z.of_nat (List.length (filter (fun b => b) mask)).

(** ** ColorAnalyzer: spatial analysis *)

(** [_classify_distribution], read over the reals.  Dividing by a zero
    [height] or [width] gives [inf]/[nan] in numpy and is not modelled here; an
    image that holds a pixel has both positive.  The float64 reading, zero
    sizes included, is [_classify_distribution_binary64]. *)
Definition _classify_distribution (y_coords x_coords : list Z) (height width : Z)
    : result string :=
  if (List.length y_coords =? 0)%nat then Ok "none"
  else
    y_max <- np_max y_coords ;;
    y_min <- np_min y_coords ;;
    let y_spread := IZR (y_max - y_min) / IZR height in
    x_max <- np_max x_coords ;;
    x_min <- np_min x_coords ;;
    let x_spread := IZR (x_max - x_min) / IZR width in
    let y_std := np_std y_coords / IZR height in
    let x_std := np_std x_coords / IZR width in
    Ok (if Rltb 0.7 y_spread && Rltb 0.7 x_spread then "widespread"
        else if Rltb y_std 0.15 && Rltb x_std 0.15 then "concentrated"
        else if Rltb y_spread 0.3 || Rltb x_spread 0.3 then "localized"
        else "scattered").

(** The arithmetic [_analyze_regional_coverage] uses: conversion of an
    integer to a float, float division and multiplication, and the
    comparisons [<] and [>=]. *)
Record Arith (F : Type) : Type := {
  of_int : Z -> F;
  fdiv : F -> F -> F;
  fmul : F -> F -> F;
  flt : F -> F -> bool;
  fge : F -> F -> bool
}.
Arguments of_int {F} _ _.
Arguments fdiv {F} _ _ _.
Arguments fmul {F} _ _ _.
Arguments flt {F} _ _ _.
Arguments fge {F} _ _ _.

(** Exact arithmetic. *)
Definition exact : Arith R :=
  {| of_int := IZR; fdiv := Rdiv; fmul := Rmult;
     flt := Rltb; fge := fun x y => Rleb y x |}.

(** binary64: numpy converts an int64 below 2^53 exactly, and [/], [*], [<],
    [>=] are the IEEE 754 operations. *)
Definition float_of_int (z : Z) : PrimFloat.float :=
  if (z <? 0)%Z
  then PrimFloat.opp (PrimFloat.of_uint63 (Uint63.of_Z (- z)))
  else PrimFloat.of_uint63 (Uint63.of_Z z).

Definition binary64 : Arith PrimFloat.float :=
  {| of_int := float_of_int; fdiv := PrimFloat.div; fmul := PrimFloat.mul;
     flt := PrimFloat.ltb; fge := fun x y => PrimFloat.leb y x |}.

(** The float literals [0.7], [0.15] and [0.3]: the doubles nearest to 7/10,
    15/100 and 3/10, which is what the correctly rounded division returns. *)
Definition float_0_7 : PrimFloat.float := PrimFloat.div (float_of_int 7) (float_of_int 10).
Definition float_0_15 : PrimFloat.float := PrimFloat.div (float_of_int 15) (float_of_int 100).
Definition float_0_3 : PrimFloat.float := PrimFloat.div (float_of_int 3) (float_of_int 10).

(** [_classify_distribution] on the float64 values the interpreter computes.
    The coordinates are int64, so [np.max], [np.min] and their difference are
    exact; the difference and the standard deviation are divided by the size
    in binary64, where a zero size gives [inf] or [nan], and the comparisons
    with the literals 0.7, 0.15 and 0.3 are the IEEE 754 ones.  [np.std] is
    numpy's: [np_std_float64] is the float it returns for an array. *)
Definition _classify_distribution_binary64 (np_std_float64 : list Z -> PrimFloat.float)
    (y_coords x_coords : list Z) (height width : Z) : result string :=
  if (List.length y_coords =? 0)%nat then Ok "none"
  else
    y_max <- np_max y_coords ;;
    y_min <- np_min y_coords ;;
    let y_spread := PrimFloat.div (float_of_int (y_max - y_min)) (float_of_int height) in
    x_max <- np_max x_coords ;;
    x_min <- np_min x_coords ;;
    let x_spread := PrimFloat.div (float_of_int (x_max - x_min)) (float_of_int width) in
    let y_std := PrimFloat.div (np_std_float64 y_coords) (float_of_int height) in
    let x_std := PrimFloat.div (np_std_float64 x_coords) (float_of_int width) in
    Ok (if PrimFloat.ltb float_0_7 y_spread
           && PrimFloat.ltb float_0_7 x_spread then "widespread"
        else if PrimFloat.ltb y_std float_0_15
                && PrimFloat.ltb x_std float_0_15 then "concentrated"
        else if PrimFloat.ltb y_spread float_0_3
                || PrimFloat.ltb x_spread float_0_3 then "localized"
        else "scattered").

(** A binary64 standard deviation to stand for [np.std] in examples: the
    mean, the mean of the squared deviations and its root, each sum taken
    from left to right. *)
Definition std_left_to_right (l : list Z) : PrimFloat.float :=
  let n := float_of_int (Z.of_nat (List.length l)) in
  let sum := fold_left PrimFloat.add (map float_of_int l) (float_of_int 0) in
  let mean := PrimFloat.div sum n in
  let squares :=
    map (fun v => let d := PrimFloat.sub (float_of_int v) mean in PrimFloat.mul d d) l in
  PrimFloat.sqrt (PrimFloat.div (fold_left PrimFloat.add squares (float_of_int 0)) n).

(** The dictionary [coverage]. *)
Module Coverage.
Record t (F : Type) : Type := mk {
    top : F; middle : F; bottom : F;
    left : F; center : F; right : F
  }.
  Arguments mk {F} _ _ _ _ _ _.
  Arguments top {F} _.
  Arguments middle {F} _.
  Arguments bottom {F} _.
  Arguments left {F} _.
  Arguments center {F} _.
  Arguments right {F} _.
End Coverage.

Section RegionalCoverage.
  Context {F : Type} (ar : Arith F).

  (** The three masks of one axis for a coordinate array [coords] and the
      axis length [size]: [c < size / 3], [(c >= size / 3) & (c < 2 * size / 3)],
      [c >= 2 * size / 3]. *)
Definition low_mask (coords : list Z) (size : Z) : list bool :=
    map (fun c => flt ar (of_int ar c) (fdiv ar (of_int ar size) (of_int ar 3))) coords.

Definition mid_mask (coords : list Z) (size : Z) : list bool :=
    map (fun c => fge ar (of_int ar c) (fdiv ar (of_int ar size) (of_int ar 3))
                  && flt ar (of_int ar c) (fdiv ar (of_int ar (2 * size)) (of_int ar 3)))
        coords.

Definition high_mask (coords : list Z) (size : Z) : list bool :=
    map (fun c => fge ar (of_int ar c) (fdiv ar (of_int ar (2 * size)) (of_int ar 3))) coords.

  (** [np.sum(mask) / total_pixels * 100]. *)
Definition mask_percentage (mask : list bool) (total_pixels : Z) : F :=
    fmul ar (fdiv ar (of_int ar (np_sum_mask mask)) (of_int ar total_pixels)) (of_int ar 100).

Definition analyze_regional_coverage (y_coords x_coords : list Z) (height width : Z)
      : Coverage.t F :=
    let coverage :=
      Coverage.mk (of_int ar 0) (of_int ar 0) (of_int ar 0)
                  (of_int ar 0) (of_int ar 0) (of_int ar 0) in
    if (List.length y_coords =? 0)%nat then coverage
    else
      let total_pixels := Z.of_nat (List.length y_coords) in
      Coverage.mk
        (mask_percentage (low_mask y_coords height) total_pixels)
        (mask_percentage (mid_mask y_coords height) total_pixels)
        (mask_percentage (high_mask y_coords height) total_pixels)
        (mask_percentage (low_mask x_coords width) total_pixels)
        (mask_percentage (mid_mask x_coords width) total_pixels)
        (mask_percentage (high_mask x_coords width) total_pixels).
End RegionalCoverage.

(** [_analyze_regional_coverage] in exact arithmetic and in binary64. *)
Definition _analyze_regional_coverage := analyze_regional_coverage exact.
Definition _analyze_regional_coverage_binary64 := analyze_regional_coverage binary64.

(** [_find_primary_areas]. *)
Definition _find_primary_areas (coverage : Coverage.t R) : list string :=
  let primary := [] in
  let primary := if Rltb 20 (Coverage.top coverage) then primary ++ ["top"] else primary in
  let primary := if Rltb 20 (Coverage.middle coverage) then primary ++ ["middle"] else primary in
  let primary := if Rltb 20 (Coverage.bottom coverage) then primary ++ ["bottom"] else primary in
  let primary :=
    if (List.length primary =? 0)%nat then
      let primary := if Rltb 20 (Coverage.left coverage) then primary ++ ["left"] else primary in
      let primary := if Rltb 20 (Coverage.center coverage) then primary ++ ["center"] else primary in
      let primary := if Rltb 20 (Coverage.right coverage) then primary ++ ["right"] else primary in
      primary
    else primary in
  match primary with
  | [] => ["scattered"]
  | _ => primary
  end.

(** The dictionary [area_descriptions]. *)
Definition area_descriptions (area : string) : option string :=
  if (area =? "top")%string then Some "Upper portion"
  else if (area =? "middle")%string then Some "Middle section"
  else if (area =? "bottom")%string then Some "Lower portion"
  else if (area =? "left")%string then Some "Left side"
  else if (area =? "center")%string then Some "Center area"
  else if (area =? "right")%string then Some "Right side"
  else None.

(** [s in l] and [l1 == l2] on lists of strings. *)
Definition str_in (s : string) (l : list string) : bool :=
  existsb (fun t => (t =? s)%string) l.

Fixpoint str_list_eqb (l1 l2 : list string) : bool :=
  match l1, l2 with
  | [], [] => true
  | a :: t1, b :: t2 => (a =? b)%string && str_list_eqb t1 t2
  | _, _ => false
  end.

(** [_describe_regions]. *)
Definition _describe_regions (coverage : Coverage.t R) (primary_areas : list string)
    : list string :=
  if (List.length primary_areas =? 0)%nat || str_list_eqb primary_areas ["scattered"]
  then ["Throughout the image"]
  else
    let regions :=
      fold_left (fun regions area =>
                   match area_descriptions area with
                   | Some d => regions ++ [d]
                   | None => regions
                   end) primary_areas [] in
    let regions :=
      if str_in "top" primary_areas && str_in "bottom" primary_areas then
        if negb (str_in "Top and bottom edges" regions) then ["Top and bottom edges"]
        else regions
      else if str_in "left" primary_areas && str_in "right" primary_areas then
        if negb (str_in "Left and right sides" regions) then ["Left and right sides"]
        else regions
      else regions in
    match regions with
    | [] => ["Various areas"]
    | _ => regions
    end.

(** The array [np.array(image)] of an RGB image: its shape [(height, width, 3)]
    and its pixels in row-major order ([img_array.reshape(-1, 3)]). *)
Record ImgArray : Type := {
  shape_height : Z;
  shape_width : Z;
  pixel_rows : list RGB
}.

(** The dictionary [location_info]. *)
Record LocationInfo : Type := {
  regions : list string;
  distribution : string;
  primary_areas : list string;
  coverage : Coverage.t R
}.

(** Rows of an array: [rows] chunks of [width] consecutive items. *)
Fixpoint chunks {A : Type} (rows width : nat) (l : list A) : list (list A) :=
  match rows with
  | O => []
  | S r => firstn width l :: chunks r width (skipn width l)
  end.

(** [labels.reshape(height, width)] raises [ValueError] when the sizes differ. *)
Definition reshape (labels : list Z) (height width : Z) : result (list (list Z)) :=
  if (Z.of_nat (List.length labels) =? height * width)%Z
  then Ok (chunks (Z.to_nat height) (Z.to_nat width) labels)
  else Raise ValueError.

(** [np.any] of a two-dimensional mask. *)
Definition np_any (mask : list (list bool)) : bool :=
  existsb (existsb (fun b => b)) mask.

(** [np.where] of a two-dimensional mask: row and column indices of the
    [True] entries, in row-major order. *)
Definition np_where (mask : list (list bool)) : list Z * list Z :=
  let hits :=
    flat_map (fun yr : Z * list bool =>
                map (fun xb : Z * bool => (fst yr, fst xb))
                    (filter (fun xb : Z * bool => snd xb) (enumerate (snd yr))))
             (enumerate mask) in
  (map fst hits, map snd hits).

Definition zero_coverage : Coverage.t R := Coverage.mk 0 0 0 0 0 0.

(** The [try] body of [_analyze_color_location]. *)
Definition analyze_color_location_body (img_array : ImgArray) (labels : list Z)
    (cluster_id : Z) (color : RGB) : result LocationInfo :=
  let height := shape_height img_array in
  let width := shape_width img_array in
  label_image <- reshape labels height width ;;
  let cluster_mask := map (map (fun l => (l =? cluster_id)%Z)) label_image in
  if negb (np_any cluster_mask) then
    Ok {| regions := ["Not found"]; distribution := "scattered";
          primary_areas := []; coverage := zero_coverage |}
  else
    let '(y_coords, x_coords) := np_where cluster_mask in
    distribution <- _classify_distribution y_coords x_coords height width ;;
    let coverage := _analyze_regional_coverage y_coords x_coords height width in
    let primary_areas := _find_primary_areas coverage in
    let regions := _describe_regions coverage primary_areas in
    Ok {| regions := regions; distribution := distribution;
          primary_areas := primary_areas; coverage := coverage |}.

(** [_analyze_color_location]: the [except Exception] clause returns the
    "Analysis unavailable" record. *)
Definition _analyze_color_location (img_array : ImgArray) (labels : list Z)
    (cluster_id : Z) (color : RGB) : LocationInfo :=
  match analyze_color_location_body img_array labels cluster_id color with
  | Ok info => info
  | Raise _ =>
      {| regions := ["Analysis unavailable"]; distribution := "unknown";
         primary_areas := []; coverage := zero_coverage |}
  end.

(** ** ColorAnalyzer: extraction of the dominant colours *)

(** [int(x)] and [astype(int)]: truncation toward zero. *)
Definition int_of_float (x : R) : Z :=
  if Rle_dec 0 x then Int_part x else (- Int_part (- x))%Z.

(** The fitted [KMeans] object, as far as the code reads it. *)
Record KMeans : Type := {
  cluster_centers_ : list (R * R * R);
  labels_ : list Z;
  predict : list RGB -> result (list Z)
}.

(** One entry of [color_info]. *)
Module ExtractedColor.
Record t : Type := mk {
    rgb : RGB;
    hex : string;
    percentage : R;
    hsv : R * R * R;
    brightness : R;
    location_info : LocationInfo
  }.
End ExtractedColor.

(** [np.mean(pixels, axis=1)] of one pixel, and [np.mean(color)]. *)
Definition mean_channel (c : RGB) : R :=
  let '(r, g, b) := c in IZR (r + g + b) / 3.

(** [np.sum(filtered_labels == i)]. *)
Definition count_label (labels : list Z) (i : Z) : Z :=
  np_sum_mask (map (fun l => (l =? i)%Z) labels).

(** Pillow, numpy's image conversion, scikit-learn, [colorsys] and
    [str.format] are libraries outside the repository: their operations are
    the fields of [Libraries], each one free to raise where the library can. *)
Record Libraries : Type := {
  PILImage : Type;
  image_mode : PILImage -> string;
  image_convert : PILImage -> string -> result PILImage;
  image_size : PILImage -> Z * Z;
  (* image.resize(new_size, Image.Resampling.LANCZOS) *)
  resize_lanczos : PILImage -> Z * Z -> result PILImage;
  (* from PIL.Image import Resampling; image.resize(new_size, Resampling.LANCZOS) *)
  resize_lanczos_imported : PILImage -> Z * Z -> result PILImage;
  (* image.resize(new_size) *)
  resize_default : PILImage -> Z * Z -> result PILImage;
  np_array : PILImage -> result ImgArray;
  (* KMeans(n_clusters=k, random_state=42, n_init='auto').fit(X) *)
  KMeans_fit : Z -> list RGB -> result KMeans;
  format_hex : RGB -> string;
  colorsys_rgb_to_hsv : R -> R -> R -> R * R * R
}.

Section Extraction.
Context (lib : Libraries).

(** [if image.mode != 'RGB': image = image.convert('RGB')]. *)
Definition to_rgb (image : PILImage lib) : result (PILImage lib) :=
  if negb (image_mode lib image =? "RGB")%string
  then image_convert lib image "RGB" else Ok image.

(** The nested [try]/[except] around the three ways to resize. *)
Definition resize_image (image : PILImage lib) (new_size : Z * Z)
    : result (PILImage lib) :=
  match resize_lanczos lib image new_size with
  | Raise AttributeError =>
      match resize_lanczos_imported lib image new_size with
      | Raise AttributeError | Raise ImportError => resize_default lib image new_size
      | r => r
      end
  | r => r
  end.

(** [if max(original_size) > max_size: ...]: the longer side is brought down
    to [max_size].  [max_size / max(original_size)] divides Python integers
    and raises on a zero divisor.  The ratio and the products are read over
    the reals: in binary64 a product can fall just below the integer it
    reaches here (a side of 562 with [max_size] 300 gives 299, not 300), so
    nothing is stated about the new size; it only goes to Pillow's resize. *)
Definition downscale (image : PILImage lib) (max_size : Z) : result (PILImage lib) :=
  let original_size := image_size lib image in
  let longest := Z.max (fst original_size) (snd original_size) in
  if (max_size <? longest)%Z then
    if (longest =? 0)%Z then Raise ZeroDivisionError
    else
      let ratio := IZR max_size / IZR longest in
      let new_size := (int_of_float (IZR (fst original_size) * ratio),
                       int_of_float (IZR (snd original_size) * ratio)) in
      resize_image image new_size
  else Ok image.

(** The pixels the clustering is fitted on: those of mean brightness
    strictly between 20 and 235, or all pixels when fewer than [num_colors]
    are left. *)
Definition cluster_input (pixels : list RGB) (num_colors : Z) : list RGB :=
  let filtered_pixels :=
    filter (fun p => Rltb 20 (mean_channel p) && Rltb (mean_channel p) 235) pixels in
  if (Z.of_nat (List.length filtered_pixels) <? num_colors)%Z
  then pixels else filtered_pixels.

(** [kmeans.cluster_centers_.astype(int)]. *)
Definition center_colors (kmeans : KMeans) : list RGB :=
  map (fun c : R * R * R =>
         let '(c0, c1, c2) := c in (int_of_float c0, int_of_float c1, int_of_float c2))
      (cluster_centers_ kmeans).

(** The body of the loop over [enumerate(colors)]. *)
Definition color_entry (img_array : ImgArray) (all_labels filtered_labels : list Z)
    (total_pixels : Z) (ic : Z * RGB) : ExtractedColor.t :=
  let '(i, color) := ic in
  let '(c0, c1, c2) := color in
  let count := count_label filtered_labels i in
  let percentage := IZR count / IZR total_pixels * 100 in
  let hex_color := format_hex lib color in
  let hsv := colorsys_rgb_to_hsv lib (IZR c0 / 255) (IZR c1 / 255) (IZR c2 / 255) in
  let location_info := _analyze_color_location img_array all_labels i color in
  ExtractedColor.mk color hex_color percentage hsv (mean_channel color) location_info.

(** The list [color_info] after the loop and the final sort. *)
Definition color_info_of (img_array : ImgArray) (kmeans : KMeans) (all_labels : list Z)
    : list ExtractedColor.t :=
  let filtered_labels := labels_ kmeans in
  let total_pixels := Z.of_nat (List.length filtered_labels) in
  let color_info :=
    map (color_entry img_array all_labels filtered_labels total_pixels)
        (enumerate (center_colors kmeans)) in
  (* color_info.sort(key=lambda x: x['percentage'], reverse=True) *)
  sort_by_key_reverse ExtractedColor.percentage color_info.

(** The [try] body of [extract_dominant_colors]. *)
Definition extract_body (image : PILImage lib) (num_colors max_size : Z)
    : result (list ExtractedColor.t) :=
  image <- to_rgb image ;;
  image <- downscale image max_size ;;
  img_array <- np_array lib image ;;
  let pixels := pixel_rows img_array in
  kmeans <- KMeans_fit lib num_colors (cluster_input pixels num_colors) ;;
  all_labels <- predict kmeans pixels ;;
  Ok (color_info_of img_array kmeans all_labels).

(** [extract_dominant_colors]: [except Exception] prints and returns [[]]. *)
Definition extract_dominant_colors (image : PILImage lib) (num_colors max_size : Z)
    : list ExtractedColor.t :=
  match extract_body image num_colors max_size with
  | Ok color_info => color_info
  | Raise _ => []
  end.

(** A step of the [try] body raises [e]: the conversion to RGB, the resize,
    the conversion to an array, the fit, or the prediction of the labels of
    all pixels, each reached after the steps before it returned. *)
Inductive step_raises (image : PILImage lib) (num_colors max_size : Z) (e : exn) : Prop :=
| convert_raises :
    to_rgb image = Raise e -> step_raises image num_colors max_size e
| resize_raises (rgb_image : PILImage lib) :
    to_rgb image = Ok rgb_image ->
    downscale rgb_image max_size = Raise e -> step_raises image num_colors max_size e
| array_raises (rgb_image small_image : PILImage lib) :
    to_rgb image = Ok rgb_image ->
    downscale rgb_image max_size = Ok small_image ->
    np_array lib small_image = Raise e -> step_raises image num_colors max_size e
| fit_raises (rgb_image small_image : PILImage lib) (img_array : ImgArray) :
    to_rgb image = Ok rgb_image ->
    downscale rgb_image max_size = Ok small_image ->
    np_array lib small_image = Ok img_array ->
    KMeans_fit lib num_colors (cluster_input (pixel_rows img_array) num_colors) = Raise e ->
    step_raises image num_colors max_size e
| predict_raises (rgb_image small_image : PILImage lib) (img_array : ImgArray)
    (kmeans : KMeans) :
    to_rgb image = Ok rgb_image ->
    downscale rgb_image max_size = Ok small_image ->
    np_array lib small_image = Ok img_array ->
    KMeans_fit lib num_colors (cluster_input (pixel_rows img_array) num_colors) = Ok kmeans ->
    predict kmeans (pixel_rows img_array) = Raise e ->
    step_raises image num_colors max_size e.

(** What scikit-learn guarantees of a fit that returns: at least one
    cluster was asked for, there are at least as many samples as clusters,
    one centre per cluster, and one label per sample. *)
Definition KMeans_contract : Prop :=
  forall (k : Z) (X : list RGB) (kmeans : KMeans),
    KMeans_fit lib k X = Ok kmeans ->
    (1 <= k <= Z.of_nat (List.length X))%Z
    /\ Z.of_nat (List.length (cluster_centers_ kmeans)) = k
    /\ List.length (labels_ kmeans) = List.length X.
End Extraction.

(** A stand-in for the libraries: an image is its own array and is already
    RGB, and the fit is the degenerate one scikit-learn returns on identical
    samples: every centre at the first sample, every label 0. *)
Definition degenerate_fit (k : Z) (X : list RGB) : result KMeans :=
  if ((1 <=? k) && (k <=? Z.of_nat (List.length X)))%Z then
    let '(r, g, b) := hd (0, 0, 0)%Z X in
    Ok {| cluster_centers_ := repeat (IZR r, IZR g, IZR b) (Z.to_nat k);
          labels_ := repeat 0%Z (List.length X);
          predict := fun P => Ok (repeat 0%Z (List.length P)) |}
  else Raise ValueError.

Definition array_libraries : Libraries :=
  {| PILImage := ImgArray;
     image_mode := fun _ => "RGB";
     image_convert := fun image _ => Ok image;
     image_size := fun image => (shape_width image, shape_height image);
     resize_lanczos := fun image _ => Ok image;
     resize_lanczos_imported := fun image _ => Ok image;
     resize_default := fun image _ => Ok image;
     np_array := fun image => Ok image;
     KMeans_fit := degenerate_fit;
     format_hex := fun _ => "#000000";
     colorsys_rgb_to_hsv := fun _ _ _ => (0, 0, 0) |}.

(** ** Vocabulary of the statements *)

(** Number of entries of a match list that carry the brand [b]. *)
Definition count_brand (b : string) (l : list Match.t) : nat :=
  List.length (filter (fun m => Match.brand m =? b)%string l).

(** The sorted list [matches] of [find_matches], cut down to one brand and capped. *)
Definition brand_matches (db : PencilDatabase) (target_rgb : RGB)
    (max_matches : Z) (max_difference : R) (b : string) : list Match.t :=
  slice_to max_matches
    (filter (fun m => Match.brand m =? b)%string
       (sort_by_key Match.color_difference
          (fold_left (find_matches_step target_rgb max_difference) (get_all_pencils db) []))).

(** The match dictionary of a table row under the brand [b]. *)
Definition row_match (target_rgb : RGB) (b : string) (r : Row.t) : Match.t :=
  match_info target_rgb (Pencil.mk (Row.name r) (Row.code r) (Row.rgb r) b).

(** A small catalogue: two Prismacolor rows and one Faber Castell row. *)
Definition dark_db : PencilDatabase :=
  {| prismacolor_pencils := [Row.mk "Black" "PC935" (0, 0, 0)%Z;
                             Row.mk "Near Black" "PC000" (10, 10, 10)%Z];
     faber_castell_pencils := [Row.mk "Black" "FC199" (0, 0, 0)%Z];
     caran_dache_pencils := [];
     derwent_pencils := [];
     staedtler_pencils := [];
     koh_i_noor_pencils := [] |}.

(** A catalogue with no Faber Castell row: one Prismacolor and one Derwent row. *)
Definition no_faber_db : PencilDatabase :=
  {| prismacolor_pencils := [Row.mk "Black" "PC935" (0, 0, 0)%Z];
     faber_castell_pencils := [];
     caran_dache_pencils := [];
     derwent_pencils := [Row.mk "Ivory Black" "67" (0, 0, 0)%Z];
     staedtler_pencils := [];
     koh_i_noor_pencils := [] |}.

(** The largest and the smallest item of an array. *)
Definition is_max (m : Z) (l : list Z) : Prop :=
  In m l /\ forall v, In v l -> (v <= m)%Z.
Definition is_min (m : Z) (l : list Z) : Prop :=
  In m l /\ forall v, In v l -> (m <= v)%Z.

(** [s] is the normalized spread of [coords] along an axis of length [size]:
    largest minus smallest coordinate, over the axis length. *)
Definition spread_is (coords : list Z) (size : Z) (s : R) : Prop :=
  exists hi lo, is_max hi coords /\ is_min lo coords /\ s = IZR (hi - lo) / IZR size.

(** A solid red image of four rows and four columns. *)
Definition solid_red_4x4 : ImgArray :=
  {| shape_height := 4; shape_width := 4; pixel_rows := repeat (255, 0, 0)%Z 16 |}.

(** Ascending and descending order of consecutive entries. *)
Definition ascending (l : list R) : Prop := Sorted Rle l.
Definition descending (l : list R) : Prop := Sorted Rge l.

(** The two records [_analyze_color_location] answers with when the cluster
    is absent, and when its [try] body raises. *)
Definition not_found_info : LocationInfo :=
  {| regions := ["Not found"]; distribution := "scattered";
     primary_areas := []; coverage := zero_coverage |}.

Definition unavailable_info : LocationInfo :=
  {| regions := ["Analysis unavailable"]; distribution := "unknown";
     primary_areas := []; coverage := zero_coverage |}.

(** scikit-learn's guarantee that every label of a fit is the index of a cluster. *)
Definition KMeans_labels_contract (lib : Libraries) : Prop :=
  forall (k : Z) (X : list RGB) (kmeans : KMeans),
    KMeans_fit lib k X = Ok kmeans ->
    Forall (fun l => (0 <= l < k)%Z) (labels_ kmeans).

(** ** ColorMatcher: the remaining methods *)

(** [calculate_match_quality]. *)
Definition calculate_match_quality (color_difference : R) : string :=
  if Rltb color_difference 3 then "Excellent match"
  else if Rltb color_difference 6 then "Very good match"
  else if Rltb color_difference 12 then "Good match"
  else if Rltb color_difference 25 then "Acceptable match"
  else "Poor match".

(** A Python [dict] with its insertion order: [d[k] = v] replaces the value
    of a key that is present and appends a new key at the end; [d[k]] raises
    [KeyError] for a missing key ([None] here). *)
Fixpoint dict_set {K V : Type} (eqb : K -> K -> bool) (d : list (K * V)) (k : K) (v : V)
    : list (K * V) :=
  match d with
  | [] => [(k, v)]
  | (k', v') :: t => if eqb k' k then (k', v) :: t else (k', v') :: dict_set eqb t k v
  end.

Fixpoint dict_get {K V : Type} (eqb : K -> K -> bool) (d : list (K * V)) (k : K) : option V :=
  match d with
  | [] => None
  | (k', v') :: t => if eqb k' k then Some v' else dict_get eqb t k
  end.

(** [get_color_palette_matches]: the dictionary from the index of a palette
    colour to its matches ([max_difference] keeps its default, 50). *)
Definition get_color_palette_matches (db : PencilDatabase) (color_palette : list RGB)
    (max_matches_per_color : Z) : list (Z * list Match.t) :=
  fold_left (fun palette_matches (ic : Z * RGB) =>
               let matches := find_matches db (snd ic) max_matches_per_color 50 in
               dict_set Z.eqb palette_matches (fst ic) matches)
            (enumerate color_palette) [].

(** ** PaletteExporter: quality text *)

(** [_get_quality_text]; [DatabaseManager.save_pencil_matches] computes its
    [quality] with the same chain of tests. *)
Definition _get_quality_text (color_difference : R) : string :=
  if Rltb color_difference 3 then "Excellent"
  else if Rltb color_difference 6 then "Very Good"
  else if Rltb color_difference 12 then "Good"
  else if Rltb color_difference 25 then "Acceptable"
  else "Poor".

(** The tier a quality label stands for, 0 the best; 5 for any other text. *)
Definition quality_tier (label : string) : nat :=
  if (label =? "Excellent match")%string || (label =? "Excellent")%string then 0
  else if (label =? "Very good match")%string || (label =? "Very Good")%string then 1
  else if (label =? "Good match")%string || (label =? "Good")%string then 2
  else if (label =? "Acceptable match")%string || (label =? "Acceptable")%string then 3
  else if (label =? "Poor match")%string || (label =? "Poor")%string then 4
  else 5.

(** [p] is the first item of [l1 ++ p :: l2] with the least key. *)
Definition first_least {A : Type} (key : A -> R) (l1 : list A) (p : A) (l2 : list A) : Prop :=
  (forall q, In q l1 -> key p < key q) /\ (forall q, In q l2 -> key p <= key q).

(** ** De-duplicated match lists *)

(** The loop shared by [PaletteExporter.create_pencil_shopping_list] and
    [display_pencil_matches]: a match enters the dictionary under its key
    when the key is new or when it is strictly closer than the match stored
    under that key. *)
Definition unique_step (key : Match.t -> string)
    (unique : list (string * Match.t)) (m : Match.t) : list (string * Match.t) :=
  match dict_get String.eqb unique (key m) with
  | None => dict_set String.eqb unique (key m) m
  | Some stored =>
      if Rltb (Match.color_difference m) (Match.color_difference stored)
      then dict_set String.eqb unique (key m) m
      else unique
  end.

(** [sorted(unique.values(), key=lambda x: x['color_difference'])]. *)
Definition sorted_unique (key : Match.t -> string) (matches : list Match.t) : list Match.t :=
  sort_by_key Match.color_difference (map snd (fold_left (unique_step key) matches [])).

(** [create_pencil_shopping_list]: the key is [f"{brand}_{code}"]. *)
Definition shopping_key (m : Match.t) : string :=
  (Match.brand m ++ "_" ++ Match.code m)%string.

Definition sorted_pencils (pencil_matches : list Match.t) : list Match.t :=
  sorted_unique shopping_key pencil_matches.

(** The pencils the text format lists: the first ten of each of the two
    brands it has a section for. *)
Definition shopping_list_text_pencils (pencil_matches : list Match.t)
    : list Match.t * list Match.t :=
  let sorted_pencils := sorted_pencils pencil_matches in
  let prismacolor := filter (fun p => Match.brand p =? "Prismacolor")%string sorted_pencils in
  let faber_castell := filter (fun p => Match.brand p =? "Faber Castell")%string sorted_pencils in
  (slice_to 10 prismacolor, slice_to 10 faber_castell).

(** [display_pencil_matches]: the key is [f"{brand}_{name}_{code}"], and the
    first ten of the sorted matches are shown. *)
Definition display_key (m : Match.t) : string :=
  (Match.brand m ++ "_" ++ Match.name m ++ "_" ++ Match.code m)%string.

Definition displayed_matches (matches : list Match.t) : list Match.t :=
  slice_to 10 (sorted_unique display_key matches).
(** ** PaletteExporter: the palette image *)

(** The fields set by [PaletteExporter.__init__]. *)
Definition swatch_width : Z := 100.
Definition swatch_height : Z := 100.
Definition text_height : Z := 40.

(** [a // b] on integers. *)
Definition floordiv (a b : Z) : result Z :=
  if (b =? 0)%Z then Raise ZeroDivisionError else Ok (a / b)%Z.

(** [a % b] on integers. *)
Definition pymod (a b : Z) : result Z :=
  if (b =? 0)%Z then Raise ZeroDivisionError else Ok (a mod b)%Z.

(** The calls on [draw], in the order they are made. *)
Inductive DrawCall : Type :=
| Rectangle (xy0 xy1 : Z * Z) (fill : RGB)
| Text (xy : Z * Z) (text : string).

(** What [create_palette_image] asks of Pillow: an image of a size
    ([Image.new('RGB', size, 'white')]) and the calls on its [draw]. *)
Record Drawing : Type := {
  image_size_new : Z * Z;
  draw_calls : list DrawCall
}.

(** Pillow's part and the string formatting.  [render_png] stands for
    creating the image, loading the font (the [try] chain around
    [ImageFont.truetype] takes nothing from the colours), executing the calls
    in order and
    [img.save(img_bytes, format='PNG')]: the bytes returned, or the exception
    that one of these steps raises.  [format_percentage] is
    [f"{percentage:.1f}%"]. *)
Record Pillow : Type := {
  PNG : Type;
  render_png : Drawing -> result PNG;
  format_percentage : R -> string
}.

(** The calls of one round of either loop, for the swatch at [(x, y)]. *)
Definition swatch_calls (pil : Pillow) (x y : Z) (color : ExtractedColor.t) : list DrawCall :=
  let text_y := (y + swatch_height + 5)%Z in
  [Rectangle (x, y) ((x + swatch_width)%Z, (y + swatch_height)%Z) (ExtractedColor.rgb color);
   Text ((x + 5)%Z, text_y) (ExtractedColor.hex color);
   Text ((x + 5)%Z, (text_y + 15)%Z)
        (format_percentage pil (ExtractedColor.percentage color))].

(** One round of the loop of the grid layout. *)
Definition grid_swatch (pil : Pillow) (cols : Z) (i : Z) (color : ExtractedColor.t)
    : result (list DrawCall) :=
  row <- floordiv i cols ;;
  col <- pymod i cols ;;
  let x := (col * swatch_width)%Z in
  let y := (row * (swatch_height + text_height))%Z in
  Ok (swatch_calls pil x y color).

(** A [for] loop whose body may raise: the first exception ends it. *)
Fixpoint for_each {A B : Type} (body : A -> result B) (l : list A) : result (list B) :=
  match l with
  | [] => Ok []
  | a :: t => b <- body a ;; bs <- for_each body t ;; Ok (b :: bs)
  end.

(** [create_palette_image].  The calls on [draw] are collected in the order
    of the loop and handed to Pillow with the size of the image. *)
Definition create_palette_image (pil : Pillow) (colors : list ExtractedColor.t)
    (layout : string) : result (PNG pil) :=
  let num_colors := Z.of_nat (List.length colors) in
  if (layout =? "horizontal")%string then
    let total_width := (num_colors * swatch_width)%Z in
    let total_height := (swatch_height + text_height)%Z in
    let calls :=
      map (fun ic : Z * ExtractedColor.t =>
             let x := (fst ic * swatch_width)%Z in
             swatch_calls pil x 0 (snd ic))
          (enumerate colors) in
    render_png pil {| image_size_new := (total_width, total_height);
                      draw_calls := List.concat calls |}
  else
    let cols := Z.min 4 num_colors in
    rows <- floordiv (num_colors + cols - 1) cols ;;
    let total_width := (cols * swatch_width)%Z in
    let total_height := (rows * (swatch_height + text_height))%Z in
    calls <- for_each (fun ic : Z * ExtractedColor.t => grid_swatch pil cols (fst ic) (snd ic))
               (enumerate colors) ;;
    render_png pil {| image_size_new := (total_width, total_height);
                      draw_calls := List.concat calls |}.

(** The rectangles and the texts among the calls, in order. *)
Definition rectangles_of (calls : list DrawCall) : list ((Z * Z) * (Z * Z) * RGB) :=
  flat_map (fun c => match c with
                     | Rectangle xy0 xy1 fill => [(xy0, xy1, fill)]
                     | Text _ _ => []
                     end) calls.

Definition texts_of (calls : list DrawCall) : list ((Z * Z) * string) :=
  flat_map (fun c => match c with
                     | Rectangle _ _ _ => []
                     | Text xy text => [(xy, text)]
                     end) calls.

(** The two labels of a colour under its swatch: the hex code 5 pixels below
    the swatch and the percentage 15 pixels further down, both 5 pixels
    right of its left edge. *)
Definition labels_under (pil : Pillow) (r : (Z * Z) * (Z * Z) * RGB) (color : ExtractedColor.t)
    : list ((Z * Z) * string) :=
  let '((x0, _), (_, y1), _) := r in
  [((x0 + 5, y1 + 5)%Z, ExtractedColor.hex color);
   ((x0 + 5, y1 + 20)%Z, format_percentage pil (ExtractedColor.percentage color))].

(** The corners of a swatch are within the bounds of an image of the given
    size, and so is the band of its labels below it. *)
Definition swatch_in_image (size : Z * Z) (r : (Z * Z) * (Z * Z) * RGB) : Prop :=
  let '((x0, y0), (x1, y1), _) := r in
  (0 <= x0 /\ x1 = x0 + swatch_width /\ x1 <= fst size
   /\ 0 <= y0 /\ y1 = y0 + swatch_height /\ y1 + text_height <= snd size)%Z.

(** The cells of two swatches do not intersect: their top-left corners are
    a swatch width apart, or the height of a swatch and its labels apart. *)
Definition swatches_apart (r1 r2 : (Z * Z) * (Z * Z) * RGB) : Prop :=
  let '((x1, y1), _, _) := r1 in
  let '((x2, y2), _, _) := r2 in
  (x1 + swatch_width <= x2 \/ x2 + swatch_width <= x1
   \/ y1 + swatch_height + text_height <= y2 \/ y2 + swatch_height + text_height <= y1)%Z.

(** ** PencilDatabase: purchase links *)

(** [_get_purchase_urls]: country, then brand key, then retailer and URL,
    each dictionary in the order it is written. *)
Definition _get_purchase_urls : list (string * list (string * list (string * string))) :=
  [("UK",
     [("prismacolor",
       [("Amazon UK",
         "https://www.amazon.co.uk/s?k=prismacolor+colored+pencils");
        ("Hobbycraft",
         "https://www.hobbycraft.co.uk/search?q=prismacolor+pencils");
        ("The Works",
         "https://www.theworks.co.uk/search?q=prismacolor");
        ("Currys PC World",
         "https://www.currys.co.uk/search?q=prismacolor")]);
      ("faber_castell",
       [("Amazon UK",
         "https://www.amazon.co.uk/s?k=faber+castell+polychromos");
        ("Jackson's Art",
         "https://www.jacksonsart.com/en-gb/faber-castell-polychromos-pencils");
        ("Hobbycraft",
         "https://www.hobbycraft.co.uk/search?q=faber+castell+polychromos");
        ("WHSmith",
         "https://www.whsmith.co.uk/search?q=faber+castell")])]);
   ("US",
     [("prismacolor",
       [("Amazon US",
         "https://www.amazon.com/s?k=prismacolor+colored+pencils");
        ("Blick Art Materials",
         "https://www.dickblick.com/products/prismacolor-premier-colored-pencils/");
        ("Michaels",
         "https://www.michaels.com/search?q=prismacolor%20colored%20pencils");
        ("Jerry's Artarama",
         "https://www.jerrysartarama.com/prismacolor-colored-pencils")]);
      ("faber_castell",
       [("Amazon US",
         "https://www.amazon.com/s?k=faber+castell+polychromos+colored+pencils");
        ("Blick Art Materials",
         "https://www.dickblick.com/products/faber-castell-polychromos-artists-colored-pencils/");
        ("Michaels",
         "https://www.michaels.com/search?q=faber%20castell%20colored%20pencils");
        ("Jerry's Artarama",
         "https://www.jerrysartarama.com/faber-castell-polychromos-colored-pencils")])]);
   ("Canada",
     [("prismacolor",
       [("Amazon Canada",
         "https://www.amazon.ca/s?k=prismacolor+colored+pencils");
        ("Curry's Art Store",
         "https://www.currys.com/catalogsearch/result/?q=prismacolor");
        ("Michaels Canada",
         "https://michaels.com/search?q=prismacolor");
        ("DeSerres",
         "https://www.deserres.ca/en/search/?q=prismacolor")]);
      ("faber_castell",
       [("Amazon Canada",
         "https://www.amazon.ca/s?k=faber+castell+polychromos");
        ("Curry's Art Store",
         "https://www.currys.com/catalogsearch/result/?q=faber+castell");
        ("Michaels Canada",
         "https://michaels.com/search?q=faber+castell");
        ("DeSerres",
         "https://www.deserres.ca/en/search/?q=faber+castell")])]);
   ("Australia",
     [("prismacolor",
       [("Amazon Australia",
         "https://www.amazon.com.au/s?k=prismacolor+colored+pencils");
        ("Officeworks",
         "https://www.officeworks.com.au/shop/search?q=prismacolor&searchTerm=prismacolor");
        ("Art Materials Australia",
         "https://www.artmaterialsaustralia.com.au/search?q=prismacolor");
        ("Riot Art & Craft",
         "https://www.riotart.com.au/search?q=prismacolor")]);
      ("faber_castell",
       [("Amazon Australia",
         "https://www.amazon.com.au/s?k=faber+castell+polychromos");
        ("Officeworks",
         "https://www.officeworks.com.au/shop/search?q=faber+castell&searchTerm=faber+castell");
        ("Art Materials Australia",
         "https://www.artmaterialsaustralia.com.au/search?q=faber+castell");
        ("Riot Art & Craft",
         "https://www.riotart.com.au/search?q=faber+castell")])]);
   ("Germany",
     [("prismacolor",
       [("Amazon Germany",
         "https://www.amazon.de/s?k=prismacolor+buntstifte");
        ("Idee Creativmarkt",
         "https://www.idee-shop.com/search?q=prismacolor");
        ("Boesner",
         "https://www.boesner.com/search?q=prismacolor");
        ("Gerstaecker",
         "https://www.gerstaecker.de/search?q=prismacolor")]);
      ("faber_castell",
       [("Amazon Germany",
         "https://www.amazon.de/s?k=faber+castell+polychromos");
        ("Faber-Castell Official",
         "https://www.faber-castell.de/produkte/kunst-grafik/buntstifte/polychromos");
        ("Boesner",
         "https://www.boesner.com/search?q=faber+castell+polychromos");
        ("Gerstaecker",
         "https://www.gerstaecker.de/search?q=faber+castell+polychromos")])])].

(** [str.lower] on the letters A to Z. Of the other characters Python maps
    to an ASCII letter only the Kelvin sign, to k, and none of the two
    brand names that select a table entry has a k. *)
Definition lower_ascii (c : Ascii.ascii) : Ascii.ascii :=
  let n := Ascii.nat_of_ascii c in
  if (65 <=? n)%nat && (n <=? 90)%nat then Ascii.ascii_of_nat (n + 32) else c.

Fixpoint lower (s : string) : string :=
  match s with
  | EmptyString => EmptyString
  | String c t => String (lower_ascii c) (lower t)
  end.

(** [d[k]] raises [KeyError] for a missing key. *)
Definition getitem {V : Type} (d : list (string * V)) (k : string) : result V :=
  match dict_get String.eqb d k with
  | Some v => Ok v
  | None => Raise (OtherException "KeyError")
  end.

(** [d.get(k, default)]. *)
Definition get_default {V : Type} (d : list (string * V)) (k : string) (default : V) : V :=
  match dict_get String.eqb d k with
  | Some v => v
  | None => default
  end.

Definition get_purchase_links (brand country : string) : result (list (string * string)) :=
  let urls := _get_purchase_urls in
  let country :=
    match dict_get String.eqb urls country with
    | Some _ => country
    | None => "UK"
    end in
  let brand_lower := lower brand in
  if (brand_lower =? "prismacolor")%string then
    by_brand <- getitem urls country ;; getitem by_brand "prismacolor"
  else if (brand_lower =? "faber castell")%string then
    by_brand <- getitem urls country ;; getitem by_brand "faber_castell"
  else if str_in brand_lower ["caran d'ache"; "caran dache"] then
    by_brand <- getitem urls country ;; Ok (get_default by_brand "caran_dache" [])
  else if (brand_lower =? "derwent")%string then
    by_brand <- getitem urls country ;; Ok (get_default by_brand "derwent" [])
  else if (brand_lower =? "staedtler")%string then
    by_brand <- getitem urls country ;; Ok (get_default by_brand "staedtler" [])
  else if str_in brand_lower ["koh-i-noor"; "koh i noor"] then
    by_brand <- getitem urls country ;; Ok (get_default by_brand "koh_i_noor" [])
  else Ok [].

Definition get_available_countries : list string := map fst _get_purchase_urls.

Definition get_available_brands : list string :=
  ["Prismacolor"; "Faber Castell"; "Caran d'Ache"; "Derwent"; "Staedtler"; "Koh-I-Noor"].
(** ** PaletteExporter: HSL *)

Definition Reqb (x y : R) : bool := if Req_EM_T x y then true else false.

(** [x / y] on floats raises [ZeroDivisionError] for a zero divisor. *)
Definition float_div (x y : R) : result R :=
  if Reqb y 0 then Raise ZeroDivisionError else Ok (x / y).

(** The integer nearest to [x], the even one of the two when [x] is half-way. *)
Definition round_half_even (x : R) : Z :=
  let n := Int_part x in
  let f := frac_part x in
  if Rltb f (1 / 2) then n
  else if Rltb (1 / 2) f then (n + 1)%Z
  else if Z.even n then n else (n + 1)%Z.

(** [round(x, 1)], applied to the real number: Python rounds the binary64
    value, which can lie on the other side of a tie. *)
Definition round1 (x : R) : R := IZR (round_half_even (x * 10)) / 10.

Module HSL.
Record t : Type := mk { h : R; s : R; l : R }.
End HSL.

Definition _rgb_to_hsl (rgb : RGB) : result HSL.t :=
  let '(r, g, b) := rgb in
  let r := IZR r / 255 in
  let g := IZR g / 255 in
  let b := IZR b / 255 in
  let max_val := Rmax r (Rmax g b) in
  let min_val := Rmin r (Rmin g b) in
  let diff := max_val - min_val in
  let l := (max_val + min_val) / 2 in
  hs <- (if Reqb diff 0 then Ok (0, 0)
         else
           s <- (if Rltb (1 / 2) l
                 then float_div diff (2 - max_val - min_val)
                 else float_div diff (max_val + min_val)) ;;
           h <- (if Reqb max_val r then
                   q <- float_div (g - b) diff ;; Ok (q + (if Rltb g b then 6 else 0))
                 else if Reqb max_val g then
                   q <- float_div (b - r) diff ;; Ok (q + 2)
                 else
                   q <- float_div (r - g) diff ;; Ok (q + 4)) ;;
           Ok (h / 6, s)) ;;
  Ok (HSL.mk (round1 (fst hs * 360)) (round1 (snd hs * 100)) (round1 (l * 100))).
(** ** Values on their way to JSON *)

(** A numpy array of integers or floats, of any number of axes. *)
#[warnings="-register-all"] Inductive ndarray : Type :=
| NdInt (z : Z)
| NdFloat (x : R)
| NdAxis (items : list ndarray).

(** The Python values the converters tell apart. A dictionary is the list of
    its items, in order. *)
#[warnings="-register-all"] Inductive pyobj : Type :=
| PyNone
| PyBool (b : bool)
| PyInt (z : Z)
| PyFloat (x : R)
| PyStr (s : string)
| PyList (items : list pyobj)
| PyTuple (items : list pyobj)
| PyDict (items : list (pyobj * pyobj))
| NpInteger (z : Z)
| NpFloating (x : R)
| NpBool (b : bool)
| NpArray (a : ndarray).

(** [ndarray.tolist()]: nested lists of Python scalars. *)
Fixpoint tolist (a : ndarray) : pyobj :=
  match a with
  | NdInt z => PyInt z
  | NdFloat x => PyFloat x
  | NdAxis items => PyList (map tolist items)
  end.

(** [PaletteExporter._sanitize_json_types]. *)
Fixpoint _sanitize_json_types (obj : pyobj) : pyobj :=
  match obj with
  | PyDict items =>
      PyDict (map (fun kv => let '(k, v) := kv in (k, _sanitize_json_types v)) items)
  | PyList items => PyList (map _sanitize_json_types items)
  | PyTuple items => PyTuple (map _sanitize_json_types items)
  | NpInteger z => PyInt z
  | NpFloating x => PyFloat x
  | NpArray a => tolist a
  | _ => obj
  end.

(** [DatabaseManager._convert_numpy_types]. *)
Fixpoint _convert_numpy_types (obj : pyobj) : pyobj :=
  match obj with
  | PyDict items =>
      PyDict (map (fun kv => let '(key, value) := kv in (key, _convert_numpy_types value)) items)
  | PyList items => PyList (map _convert_numpy_types items)
  | PyTuple items => PyTuple (map _convert_numpy_types items)
  | NpInteger z => PyInt z
  | NpFloating x => PyFloat x
  | NpArray a => tolist a
  | _ => obj
  end.

(** A numpy integer, float or array among the values of [obj]: the items of
    lists and tuples and the values of dictionaries, at any depth. *)
Fixpoint numpy_number_inside (obj : pyobj) : bool :=
  match obj with
  | PyDict items => existsb (fun kv => let '(_, v) := kv in numpy_number_inside v) items
  | PyList items => existsb numpy_number_inside items
  | PyTuple items => existsb numpy_number_inside items
  | NpInteger _ | NpFloating _ | NpArray _ => true
  | _ => false
  end.

(** ** PencilDatabase: the catalogue *)

(** The six tables, row by row as [_create_prismacolor_database] and the
    five functions after it list them. *)
Definition _create_prismacolor_database : list Row.t :=
  [Row.mk "Crimson Red" "PC924" (220, 20, 60)%Z;
   Row.mk "Scarlet Lake" "PC923" (255, 36, 0)%Z;
   Row.mk "True Red" "PC922" (237, 28, 36)%Z;
   Row.mk "Magenta" "PC930" (255, 0, 255)%Z;
   Row.mk "Hot Pink" "PC993" (255, 105, 180)%Z;
   Row.mk "Process Red" "PC994" (237, 28, 36)%Z;
   Row.mk "Mulberry" "PC995" (197, 75, 140)%Z;
   Row.mk "Raspberry" "PC1030" (227, 11, 92)%Z;
   Row.mk "Pink Rose" "PC1016" (255, 182, 193)%Z;
   Row.mk "Blush Pink" "PC928" (255, 192, 203)%Z;
   Row.mk "Orange" "PC918" (255, 165, 0)%Z;
   Row.mk "Poppy Red" "PC922" (255, 99, 71)%Z;
   Row.mk "Pale Vermillion" "PC921" (255, 160, 122)%Z;
   Row.mk "Peach" "PC939" (255, 218, 185)%Z;
   Row.mk "Apricot" "PC1003" (251, 206, 177)%Z;
   Row.mk "Light Peach" "PC927" (255, 239, 213)%Z;
   Row.mk "Canary Yellow" "PC916" (255, 255, 153)%Z;
   Row.mk "Lemon Yellow" "PC915" (255, 255, 0)%Z;
   Row.mk "Yellow Ochre" "PC942" (238, 203, 173)%Z;
   Row.mk "Goldenrod" "PC1034" (218, 165, 32)%Z;
   Row.mk "Cream" "PC914" (255, 253, 208)%Z;
   Row.mk "Pale Yellow" "PC1011" (255, 255, 224)%Z;
   Row.mk "True Green" "PC910" (50, 205, 50)%Z;
   Row.mk "Grass Green" "PC909" (124, 252, 0)%Z;
   Row.mk "Kelly Green" "PC908" (76, 187, 23)%Z;
   Row.mk "Forest Green" "PC946" (34, 139, 34)%Z;
   Row.mk "Olive Green" "PC911" (128, 128, 0)%Z;
   Row.mk "Jade Green" "PC1021" (0, 168, 107)%Z;
   Row.mk "Apple Green" "PC912" (141, 182, 0)%Z;
   Row.mk "Limepeel" "PC1005" (191, 255, 0)%Z;
   Row.mk "Spring Green" "PC913" (0, 255, 127)%Z;
   Row.mk "True Blue" "PC903" (0, 123, 191)%Z;
   Row.mk "Ultramarine" "PC902" (65, 105, 225)%Z;
   Row.mk "Cerulean Blue" "PC901" (0, 123, 167)%Z;
   Row.mk "Sky Blue Light" "PC904" (135, 206, 235)%Z;
   Row.mk "Light Blue" "PC906" (173, 216, 230)%Z;
   Row.mk "Powder Blue" "PC1087" (176, 224, 230)%Z;
   Row.mk "Periwinkle" "PC1025" (204, 204, 255)%Z;
   Row.mk "Non-Photo Blue" "PC919" (164, 221, 237)%Z;
   Row.mk "Violet" "PC932" (138, 43, 226)%Z;
   Row.mk "Purple" "PC931" (128, 0, 128)%Z;
   Row.mk "Lavender" "PC934" (230, 230, 250)%Z;
   Row.mk "Lilac" "PC956" (200, 162, 200)%Z;
   Row.mk "Orchid" "PC1009" (218, 112, 214)%Z;
   Row.mk "Plum" "PC1026" (221, 160, 221)%Z;
   Row.mk "Dark Brown" "PC947" (101, 67, 33)%Z;
   Row.mk "Light Brown" "PC1001" (205, 133, 63)%Z;
   Row.mk "Burnt Ochre" "PC943" (204, 119, 34)%Z;
   Row.mk "Raw Sienna" "PC945" (160, 82, 45)%Z;
   Row.mk "Burnt Sienna" "PC948" (138, 54, 15)%Z;
   Row.mk "Van Dyke Brown" "PC949" (94, 38, 18)%Z;
   Row.mk "Sepia" "PC948" (112, 66, 20)%Z;
   Row.mk "Tan" "PC942" (210, 180, 140)%Z;
   Row.mk "Black" "PC935" (0, 0, 0)%Z;
   Row.mk "Cool Grey 90%" "PC1063" (51, 51, 51)%Z;
   Row.mk "Cool Grey 70%" "PC1061" (102, 102, 102)%Z;
   Row.mk "Cool Grey 50%" "PC1059" (153, 153, 153)%Z;
   Row.mk "Cool Grey 30%" "PC1057" (179, 179, 179)%Z;
   Row.mk "Cool Grey 10%" "PC1055" (230, 230, 230)%Z;
   Row.mk "Warm Grey 90%" "PC1070" (68, 63, 58)%Z;
   Row.mk "Warm Grey 70%" "PC1068" (128, 120, 111)%Z;
   Row.mk "Warm Grey 50%" "PC1066" (153, 146, 138)%Z;
   Row.mk "White" "PC938" (255, 255, 255)%Z].

Definition _create_faber_castell_database : list Row.t :=
  [Row.mk "Alizarin Crimson" "FC226" (227, 38, 54)%Z;
   Row.mk "Deep Red" "FC223" (196, 30, 58)%Z;
   Row.mk "Middle Cadmium Red" "FC217" (231, 65, 69)%Z;
   Row.mk "Pale Geranium Lake" "FC121" (239, 100, 108)%Z;
   Row.mk "Pink Carmine" "FC127" (221, 101, 134)%Z;
   Row.mk "Pink Madder Lake" "FC129" (221, 108, 158)%Z;
   Row.mk "Rose Carmine" "FC126" (217, 87, 125)%Z;
   Row.mk "Magenta" "FC133" (202, 52, 120)%Z;
   Row.mk "Orange Glaze" "FC113" (237, 118, 66)%Z;
   Row.mk "Cadmium Orange" "FC115" (245, 128, 37)%Z;
   Row.mk "Dark Cadmium Orange" "FC118" (218, 102, 46)%Z;
   Row.mk "Burnt Orange" "FC117" (191, 91, 44)%Z;
   Row.mk "Light Orange" "FC109" (252, 177, 102)%Z;
   Row.mk "Peach" "FC132" (245, 189, 156)%Z;
   Row.mk "Cadmium Yellow" "FC107" (254, 221, 45)%Z;
   Row.mk "Light Cadmium Yellow" "FC105" (254, 242, 97)%Z;
   Row.mk "Dark Cadmium Yellow" "FC108" (250, 200, 45)%Z;
   Row.mk "Naples Ochre" "FC131" (241, 194, 125)%Z;
   Row.mk "Raw Ochre" "FC179" (206, 160, 102)%Z;
   Row.mk "Chrome Yellow" "FC100" (255, 231, 79)%Z;
   Row.mk "Sap Green" "FC170" (102, 140, 55)%Z;
   Row.mk "Permanent Green" "FC166" (76, 136, 74)%Z;
   Row.mk "Permanent Green Olive" "FC167" (124, 144, 70)%Z;
   Row.mk "Chrome Oxide Green" "FC176" (102, 128, 83)%Z;
   Row.mk "Hookers Green" "FC159" (50, 102, 74)%Z;
   Row.mk "Viridian" "FC156" (64, 130, 109)%Z;
   Row.mk "May Green" "FC171" (145, 189, 135)%Z;
   Row.mk "Leaf Green" "FC112" (119, 176, 71)%Z;
   Row.mk "Grass Green" "FC166" (108, 171, 98)%Z;
   Row.mk "Ultramarine" "FC120" (63, 105, 170)%Z;
   Row.mk "Prussian Blue" "FC246" (45, 82, 129)%Z;
   Row.mk "Phthalo Blue" "FC110" (43, 108, 166)%Z;
   Row.mk "Sky Blue" "FC146" (125, 178, 219)%Z;
   Row.mk "Light Blue" "FC140" (149, 194, 222)%Z;
   Row.mk "Cobalt Blue" "FC143" (83, 141, 195)%Z;
   Row.mk "Delft Blue" "FC141" (97, 156, 204)%Z;
   Row.mk "Red Violet" "FC194" (154, 71, 131)%Z;
   Row.mk "Blue Violet" "FC137" (121, 104, 172)%Z;
   Row.mk "Manganese Violet" "FC160" (145, 95, 150)%Z;
   Row.mk "Mauve" "FC249" (168, 132, 172)%Z;
   Row.mk "Light Magenta" "FC119" (216, 108, 174)%Z;
   Row.mk "Burnt Sienna" "FC283" (158, 79, 49)%Z;
   Row.mk "Raw Umber" "FC280" (130, 102, 68)%Z;
   Row.mk "Burnt Umber" "FC280" (123, 63, 44)%Z;
   Row.mk "Van Dyke Brown" "FC176" (102, 51, 43)%Z;
   Row.mk "Sepia" "FC175" (115, 74, 48)%Z;
   Row.mk "Caput Mortuum Violet" "FC263" (127, 70, 65)%Z;
   Row.mk "Light Ochre" "FC177" (204, 153, 102)%Z;
   Row.mk "Black" "FC199" (0, 0, 0)%Z;
   Row.mk "Payne's Grey" "FC181" (77, 93, 108)%Z;
   Row.mk "Neutral Tint" "FC235" (102, 102, 102)%Z;
   Row.mk "Warm Grey I" "FC270" (204, 194, 179)%Z;
   Row.mk "Warm Grey II" "FC271" (179, 166, 149)%Z;
   Row.mk "Warm Grey III" "FC272" (153, 138, 119)%Z;
   Row.mk "Warm Grey IV" "FC273" (128, 111, 93)%Z;
   Row.mk "Cold Grey I" "FC230" (204, 204, 204)%Z;
   Row.mk "Cold Grey II" "FC231" (179, 179, 179)%Z;
   Row.mk "Cold Grey III" "FC232" (153, 153, 153)%Z;
   Row.mk "Cold Grey IV" "FC233" (128, 128, 128)%Z;
   Row.mk "White" "FC101" (255, 255, 255)%Z].

Definition _create_caran_dache_database : list Row.t :=
  [Row.mk "Scarlet" "070" (237, 28, 36)%Z;
   Row.mk "Vermillion" "060" (227, 66, 52)%Z;
   Row.mk "Light Cadmium Red" "061" (255, 99, 71)%Z;
   Row.mk "Permanent Red" "065" (220, 20, 60)%Z;
   Row.mk "Carmine" "080" (150, 0, 24)%Z;
   Row.mk "Bordeaux Red" "075" (111, 30, 43)%Z;
   Row.mk "Anthraquinoid Pink" "081" (255, 105, 180)%Z;
   Row.mk "Rose Pink" "481" (255, 182, 193)%Z;
   Row.mk "Orange" "030" (255, 165, 0)%Z;
   Row.mk "Apricot" "041" (251, 206, 177)%Z;
   Row.mk "Flesh" "040" (255, 218, 185)%Z;
   Row.mk "Light Flesh" "042" (255, 239, 213)%Z;
   Row.mk "Burnt Orange" "051" (204, 85, 0)%Z;
   Row.mk "Lemon Yellow" "240" (255, 255, 0)%Z;
   Row.mk "Cadmium Yellow" "010" (255, 237, 0)%Z;
   Row.mk "Middle Cadmium Yellow" "020" (255, 215, 0)%Z;
   Row.mk "Golden Yellow" "021" (255, 193, 7)%Z;
   Row.mk "Yellow Ochre" "025" (238, 203, 173)%Z;
   Row.mk "Raw Sienna" "036" (160, 82, 45)%Z;
   Row.mk "Light Green" "470" (144, 238, 144)%Z;
   Row.mk "Grass Green" "461" (124, 252, 0)%Z;
   Row.mk "Green" "210" (0, 128, 0)%Z;
   Row.mk "Emerald Green" "200" (80, 200, 120)%Z;
   Row.mk "Veronese Green" "201" (0, 179, 152)%Z;
   Row.mk "Bluish Green" "202" (0, 150, 136)%Z;
   Row.mk "Forest Green" "229" (34, 139, 34)%Z;
   Row.mk "Olive Green" "019" (128, 128, 0)%Z;
   Row.mk "Light Blue" "161" (173, 216, 230)%Z;
   Row.mk "Sky Blue" "171" (135, 206, 235)%Z;
   Row.mk "Cobalt Blue" "140" (0, 71, 171)%Z;
   Row.mk "Ultramarine" "120" (65, 105, 225)%Z;
   Row.mk "Prussian Blue" "159" (0, 49, 83)%Z;
   Row.mk "Night Blue" "155" (25, 25, 112)%Z;
   Row.mk "Periwinkle Blue" "141" (204, 204, 255)%Z;
   Row.mk "Violet" "100" (138, 43, 226)%Z;
   Row.mk "Purple" "110" (128, 0, 128)%Z;
   Row.mk "Magenta" "090" (255, 0, 255)%Z;
   Row.mk "Light Magenta" "191" (255, 119, 255)%Z;
   Row.mk "Lilac" "192" (200, 162, 200)%Z;
   Row.mk "Burnt Sienna" "037" (138, 54, 15)%Z;
   Row.mk "Van Dyke Brown" "076" (94, 38, 18)%Z;
   Row.mk "Burnt Umber" "049" (138, 51, 36)%Z;
   Row.mk "Raw Umber" "048" (115, 74, 18)%Z;
   Row.mk "Sepia" "407" (112, 66, 20)%Z;
   Row.mk "Brown Ochre" "035" (150, 113, 23)%Z;
   Row.mk "Black" "009" (0, 0, 0)%Z;
   Row.mk "Payne's Grey" "508" (83, 104, 120)%Z;
   Row.mk "Neutral Tint" "007" (102, 102, 102)%Z;
   Row.mk "French Grey 10%" "002" (230, 230, 230)%Z;
   Row.mk "French Grey 30%" "003" (179, 179, 179)%Z;
   Row.mk "French Grey 50%" "004" (128, 128, 128)%Z;
   Row.mk "French Grey 70%" "005" (77, 77, 77)%Z;
   Row.mk "White" "001" (255, 255, 255)%Z].

Definition _create_derwent_database : list Row.t :=
  [Row.mk "Crimson Lake" "20" (220, 20, 60)%Z;
   Row.mk "Deep Cadmium" "15" (227, 38, 54)%Z;
   Row.mk "Geranium Lake" "17" (231, 84, 128)%Z;
   Row.mk "Rose Pink" "23" (255, 182, 193)%Z;
   Row.mk "Flesh Pink" "24" (255, 218, 185)%Z;
   Row.mk "Magenta" "28" (255, 0, 255)%Z;
   Row.mk "Imperial Purple" "26" (102, 2, 60)%Z;
   Row.mk "Spectrum Orange" "11" (255, 165, 0)%Z;
   Row.mk "Deep Chrome" "12" (255, 140, 0)%Z;
   Row.mk "Middle Chrome" "13" (255, 185, 15)%Z;
   Row.mk "Orange Chrome" "14" (255, 117, 24)%Z;
   Row.mk "Flesh" "132" (255, 203, 164)%Z;
   Row.mk "Lemon Cadmium" "01" (255, 255, 0)%Z;
   Row.mk "Deep Cadmium" "04" (255, 215, 0)%Z;
   Row.mk "Naples Yellow" "16" (250, 218, 94)%Z;
   Row.mk "Straw Yellow" "02" (227, 207, 87)%Z;
   Row.mk "Gold" "22" (255, 215, 0)%Z;
   Row.mk "Raw Sienna" "58" (160, 82, 45)%Z;
   Row.mk "May Green" "42" (145, 189, 135)%Z;
   Row.mk "Grass Green" "51" (124, 252, 0)%Z;
   Row.mk "Sap Green" "49" (48, 128, 20)%Z;
   Row.mk "Cedar Green" "50" (72, 120, 88)%Z;
   Row.mk "Olive Green" "52" (128, 128, 0)%Z;
   Row.mk "Bottle Green" "44" (0, 106, 78)%Z;
   Row.mk "Emerald Green" "46" (80, 200, 120)%Z;
   Row.mk "Viridian" "47" (64, 130, 109)%Z;
   Row.mk "Sky Blue" "33" (135, 206, 235)%Z;
   Row.mk "Smalt Blue" "35" (0, 123, 167)%Z;
   Row.mk "Ultramarine" "32" (65, 105, 225)%Z;
   Row.mk "Prussian Blue" "36" (0, 49, 83)%Z;
   Row.mk "Indigo" "38" (75, 0, 130)%Z;
   Row.mk "Delft Blue" "37" (97, 156, 204)%Z;
   Row.mk "Kingfisher Blue" "31" (0, 139, 208)%Z;
   Row.mk "Blue Violet Lake" "27" (138, 43, 226)%Z;
   Row.mk "Violet" "29" (148, 0, 211)%Z;
   Row.mk "Purple" "25" (128, 0, 128)%Z;
   Row.mk "Red Violet" "21" (199, 21, 133)%Z;
   Row.mk "Mauve" "30" (224, 176, 255)%Z;
   Row.mk "Burnt Sienna" "61" (158, 79, 49)%Z;
   Row.mk "Light Sienna" "60" (205, 133, 63)%Z;
   Row.mk "Burnt Umber" "54" (138, 51, 36)%Z;
   Row.mk "Raw Umber" "55" (115, 74, 18)%Z;
   Row.mk "Vandyke Brown" "56" (94, 38, 18)%Z;
   Row.mk "Chocolate" "57" (123, 63, 0)%Z;
   Row.mk "Copper Beech" "62" (141, 102, 57)%Z;
   Row.mk "Ivory Black" "67" (0, 0, 0)%Z;
   Row.mk "Lamp Black" "66" (25, 25, 25)%Z;
   Row.mk "Gunmetal" "68" (77, 93, 108)%Z;
   Row.mk "French Grey" "70" (150, 150, 150)%Z;
   Row.mk "Silver Grey" "71" (192, 192, 192)%Z;
   Row.mk "Dove Grey" "69" (128, 128, 128)%Z;
   Row.mk "Chinese White" "72" (255, 255, 255)%Z].

Definition _create_staedtler_database : list Row.t :=
  [Row.mk "Carmine" "29" (227, 38, 54)%Z;
   Row.mk "Scarlet Red" "28" (237, 28, 36)%Z;
   Row.mk "Red" "21" (208, 2, 27)%Z;
   Row.mk "Pink" "23" (255, 182, 193)%Z;
   Row.mk "Magenta" "25" (255, 0, 255)%Z;
   Row.mk "Rose" "26" (255, 0, 127)%Z;
   Row.mk "Orange" "4" (255, 165, 0)%Z;
   Row.mk "Light Orange" "54" (255, 200, 124)%Z;
   Row.mk "Peach" "405" (255, 218, 185)%Z;
   Row.mk "Lemon Yellow" "1" (255, 255, 0)%Z;
   Row.mk "Yellow" "12" (255, 237, 0)%Z;
   Row.mk "Light Yellow" "11" (255, 255, 153)%Z;
   Row.mk "Yellow Orange" "14" (255, 185, 15)%Z;
   Row.mk "Yellow Ochre" "17" (238, 203, 173)%Z;
   Row.mk "Light Green" "5" (144, 238, 144)%Z;
   Row.mk "Green" "53" (0, 128, 0)%Z;
   Row.mk "Dark Green" "57" (0, 100, 0)%Z;
   Row.mk "Leaf Green" "51" (119, 176, 71)%Z;
   Row.mk "Pine Green" "59" (34, 139, 34)%Z;
   Row.mk "Light Blue" "30" (173, 216, 230)%Z;
   Row.mk "Sky Blue" "31" (135, 206, 235)%Z;
   Row.mk "Blue" "3" (0, 123, 191)%Z;
   Row.mk "Dark Blue" "33" (0, 0, 139)%Z;
   Row.mk "Ultramarine" "37" (65, 105, 225)%Z;
   Row.mk "Violet" "6" (138, 43, 226)%Z;
   Row.mk "Purple" "62" (128, 0, 128)%Z;
   Row.mk "Light Violet" "61" (221, 160, 221)%Z;
   Row.mk "Brown" "76" (165, 42, 42)%Z;
   Row.mk "Light Brown" "77" (205, 133, 63)%Z;
   Row.mk "Van Dyke Brown" "75" (94, 38, 18)%Z;
   Row.mk "Burnt Sienna" "74" (138, 54, 15)%Z;
   Row.mk "Black" "9" (0, 0, 0)%Z;
   Row.mk "Grey" "90" (128, 128, 128)%Z;
   Row.mk "Light Grey" "91" (192, 192, 192)%Z;
   Row.mk "White" "0" (255, 255, 255)%Z].

Definition _create_koh_i_noor_database : list Row.t :=
  [Row.mk "Carmine" "3720" (220, 20, 60)%Z;
   Row.mk "Scarlet" "3700" (237, 28, 36)%Z;
   Row.mk "Vermillion" "3710" (227, 66, 52)%Z;
   Row.mk "Pink" "3730" (255, 182, 193)%Z;
   Row.mk "Rose" "3740" (255, 20, 147)%Z;
   Row.mk "Magenta" "3760" (255, 0, 255)%Z;
   Row.mk "Orange" "3800" (255, 165, 0)%Z;
   Row.mk "Light Orange" "3810" (255, 200, 124)%Z;
   Row.mk "Peach" "3820" (255, 218, 185)%Z;
   Row.mk "Apricot" "3830" (251, 206, 177)%Z;
   Row.mk "Lemon" "3000" (255, 255, 0)%Z;
   Row.mk "Yellow" "3010" (255, 237, 0)%Z;
   Row.mk "Golden Yellow" "3020" (255, 215, 0)%Z;
   Row.mk "Yellow Ochre" "3070" (238, 203, 173)%Z;
   Row.mk "Naples Yellow" "3030" (250, 218, 94)%Z;
   Row.mk "Light Green" "3340" (144, 238, 144)%Z;
   Row.mk "Green" "3360" (0, 128, 0)%Z;
   Row.mk "Dark Green" "3380" (0, 100, 0)%Z;
   Row.mk "Emerald Green" "3350" (80, 200, 120)%Z;
   Row.mk "Olive Green" "3390" (128, 128, 0)%Z;
   Row.mk "Forest Green" "3370" (34, 139, 34)%Z;
   Row.mk "Light Blue" "3150" (173, 216, 230)%Z;
   Row.mk "Sky Blue" "3140" (135, 206, 235)%Z;
   Row.mk "Blue" "3130" (0, 123, 191)%Z;
   Row.mk "Dark Blue" "3100" (0, 0, 139)%Z;
   Row.mk "Ultramarine" "3120" (65, 105, 225)%Z;
   Row.mk "Prussian Blue" "3110" (0, 49, 83)%Z;
   Row.mk "Violet" "3900" (138, 43, 226)%Z;
   Row.mk "Purple" "3910" (128, 0, 128)%Z;
   Row.mk "Light Violet" "3920" (221, 160, 221)%Z;
   Row.mk "Red Violet" "3930" (199, 21, 133)%Z;
   Row.mk "Brown" "3460" (165, 42, 42)%Z;
   Row.mk "Light Brown" "3470" (205, 133, 63)%Z;
   Row.mk "Dark Brown" "3450" (101, 67, 33)%Z;
   Row.mk "Burnt Sienna" "3440" (138, 54, 15)%Z;
   Row.mk "Raw Sienna" "3430" (160, 82, 45)%Z;
   Row.mk "Van Dyke Brown" "3420" (94, 38, 18)%Z;
   Row.mk "Black" "3999" (0, 0, 0)%Z;
   Row.mk "Grey" "3990" (128, 128, 128)%Z;
   Row.mk "Light Grey" "3980" (192, 192, 192)%Z;
   Row.mk "Dark Grey" "3970" (64, 64, 64)%Z;
   Row.mk "White" "3000" (255, 255, 255)%Z].

(** [PencilDatabase.__init__]. *)
Definition catalogue : PencilDatabase :=
  {| prismacolor_pencils := _create_prismacolor_database;
     faber_castell_pencils := _create_faber_castell_database;
     caran_dache_pencils := _create_caran_dache_database;
     derwent_pencils := _create_derwent_database;
     staedtler_pencils := _create_staedtler_database;
     koh_i_noor_pencils := _create_koh_i_noor_database |}.
(** The pairs of pencils of a list, the first before the second, that carry
    the same brand and the same code. *)
Fixpoint same_code_pairs (l : list Pencil.t) : list (Pencil.t * Pencil.t) :=
  match l with
  | [] => []
  | p :: t =>
      map (fun q => (p, q))
        (filter (fun q => (Pencil.brand p =? Pencil.brand q)%string
                          && (Pencil.code p =? Pencil.code q)%string) t)
      ++ same_code_pairs t
  end.

(** No string occurs twice. *)
Fixpoint distinct (l : list string) : bool :=
  match l with
  | [] => true
  | a :: t => negb (str_in a t) && distinct t
  end.

(** ** PaletteExporter: the HSV of the Photopea export *)

(** [x % y] on floats: the remainder has the sign of the divisor. *)
Definition float_mod (x y : R) : result R :=
  if Reqb y 0 then Raise ZeroDivisionError else Ok (x - y * IZR (Int_part (x / y))).

(** [round(x, 2)], applied to the real number as [round1] is. *)
Definition round2 (x : R) : R := IZR (round_half_even (x * 100)) / 100.

(** The ["hsv"] entry that [export_for_photopea] computes for one colour:
    [h], [s] and [v]. *)
Definition export_for_photopea_hsv (rgb : RGB) : result (R * R * R) :=
  let '(r, g, b) := rgb in
  let r_norm := IZR r / 255 in
  let g_norm := IZR g / 255 in
  let b_norm := IZR b / 255 in
  let max_val := Rmax r_norm (Rmax g_norm b_norm) in
  let min_val := Rmin r_norm (Rmin g_norm b_norm) in
  let diff := max_val - min_val in
  h <- (if Reqb diff 0 then Ok 0
        else if Reqb max_val r_norm then
          q <- float_div (g_norm - b_norm) diff ;; float_mod (60 * q + 360) 360
        else if Reqb max_val g_norm then
          q <- float_div (b_norm - r_norm) diff ;; float_mod (60 * q + 120) 360
        else
          q <- float_div (r_norm - g_norm) diff ;; float_mod (60 * q + 240) 360) ;;
  s <- (if Reqb max_val 0 then Ok 0 else float_div diff max_val) ;;
  let v := max_val in
  Ok (round2 h, round2 (s * 100), round2 (v * 100)).

(** The hue of a colour in degrees, before it is rounded. *)
Definition hue_degrees (rgb : RGB) : R :=
  let '(r, g, b) := rgb in
  let r := IZR r / 255 in
  let g := IZR g / 255 in
  let b := IZR b / 255 in
  let max_val := Rmax r (Rmax g b) in
  let min_val := Rmin r (Rmin g b) in
  let diff := max_val - min_val in
  if Reqb diff 0 then 0
  else if Reqb max_val r then 60 * ((g - b) / diff) + (if Rltb g b then 360 else 0)
  else if Reqb max_val g then 60 * ((b - r) / diff) + 120
  else 60 * ((r - g) / diff) + 240.

(** ** The application: matches of the extracted palette *)

(** The loop of [main] that collects the matches of every dominant colour:
    [all_matches.extend(find_matches(color_info['rgb'], max_matches=3))]. *)
Definition all_matches (db : PencilDatabase) (dominant_colors : list ExtractedColor.t)
    : list Match.t :=
  fold_left (fun all_matches color_info =>
               all_matches ++ find_matches db (ExtractedColor.rgb color_info) 3 50)
            dominant_colors [].

(** The grouping of [main]: for every brand of [get_available_brands] the
    matches of that brand, and of these dictionary entries the ones whose
    list is not empty; each of them gets a tab, filled by
    [display_pencil_matches]. *)
Definition brands_with_matches (all_matches : list Match.t) : list (string * list Match.t) :=
  let brand_matches :=
    map (fun brand => (brand, filter (fun m => (Match.brand m =? brand)%string) all_matches))
        get_available_brands in
  filter (fun kv => match snd kv with [] => false | _ :: _ => true end) brand_matches.

(** * Properties *)

(** ** Lists and the stable sort *)

Section StableSortFacts.
  Context {A : Type} (lt : A -> A -> bool).

  (** [a] may stand before [b]: [b] is not below [a]. *)
Let before (a b : A) : Prop := lt b a = false.

  Hypothesis lt_asym : forall a b, lt a b = true -> lt b a = false.
  Hypothesis lt_negtrans : forall a b c, lt b a = false -> lt c b = false -> lt c a = false.

Lemma insert_sorted_perm (x : A) (l : list A) :
    Permutation (insert_sorted lt x l) (x :: l).
  Proof using Type.
    induction l as [|y t IH]; simpl.
    - apply Permutation_refl.
    - destruct (lt y x).
      + eapply perm_trans; [apply perm_skip, IH | apply perm_swap].
      + apply Permutation_refl.
  Qed.

Lemma stable_sort_perm (l : list A) : Permutation (stable_sort lt l) l.
  Proof using Type.
    induction l as [|x t IH]; simpl.
    - apply perm_nil.
    - eapply perm_trans; [apply insert_sorted_perm | apply perm_skip, IH].
  Qed.

Lemma insert_sorted_strongly (x : A) (l : list A) :
    StronglySorted before l -> StronglySorted before (insert_sorted lt x l).
  Proof using lt_asym lt_negtrans.
    induction l as [|y t IH]; simpl; intros Hs.
    - constructor; [constructor | constructor].
    - inversion Hs as [|? ? Ht Hy]; subst.
      destruct (lt y x) eqn:E.
      + constructor; [apply IH, Ht |].
        eapply Permutation_Forall; [apply Permutation_sym, insert_sorted_perm |].
        constructor; [apply lt_asym in E; exact E | exact Hy].
      + constructor; [exact Hs |].
        constructor; [exact E |].
        eapply Forall_impl; [| exact Hy].
        intros z Hz. unfold before in *. eapply lt_negtrans; eassumption.
  Qed.

Lemma stable_sort_strongly (l : list A) : StronglySorted before (stable_sort lt l).
  Proof using lt_asym lt_negtrans.
    induction l as [|x t IH]; simpl.
    - constructor.
    - apply insert_sorted_strongly, IH.
  Qed.
End StableSortFacts.

Lemma in_firstn_in {A : Type} (n : nat) (l : list A) (x : A) :
  In x (firstn n l) -> In x l.
Proof.
  revert l; induction n as [|n IH]; intros [|y t]; simpl; try tauto.
  intros [->|H]; [now left | right; now apply IH].
Qed.

Section SortedSublists.
  Context {A : Type} (rel : A -> A -> Prop).

Lemma strongly_sorted_filter (f : A -> bool) (l : list A) :
    StronglySorted rel l -> StronglySorted rel (filter f l).
  Proof.
    induction 1 as [|x t Ht IH Hx]; simpl; [constructor |].
    destruct (f x); [| exact IH].
    constructor; [exact IH |].
    rewrite Forall_forall in *. intros y Hy.
    apply filter_In in Hy. apply Hx, Hy.
  Qed.

Lemma strongly_sorted_firstn (n : nat) (l : list A) :
    StronglySorted rel l -> StronglySorted rel (firstn n l).
  Proof.
    intros Hs. revert n.
    induction Hs as [|x t Ht IH Hx]; intros [|n]; simpl; try constructor.
    - apply IH.
    - rewrite Forall_forall in *. intros y Hy.
      apply Hx. eapply in_firstn_in; eauto.
  Qed.

Lemma strongly_sorted_slice_to (n : Z) (l : list A) :
    StronglySorted rel l -> StronglySorted rel (slice_to n l).
  Proof.
    intros Hs. unfold slice_to.
    destruct (n <? 0)%Z; apply strongly_sorted_firstn, Hs.
  Qed.
End SortedSublists.

(** ** Colour mathematics *)

Ltac case_Rlt := repeat match goal with
  | |- context [Rlt_dec ?a ?b] => destruct (Rlt_dec a b)
  | H : context [Rlt_dec ?a ?b] |- _ => destruct (Rlt_dec a b)
  end.

Lemma Rpower_pos (x y : R) : 0 < Rpower x y.
Proof. unfold Rpower. apply exp_pos. Qed.

(** An exponent is undone by its inverse. *)
Lemma Rpower_inj_base (x y e : R) :
  0 < x -> 0 < y -> e <> 0 -> Rpower x e = Rpower y e -> x = y.
Proof.
  intros Hx Hy He H.
  rewrite <- (Rpower_1 x Hx), <- (Rpower_1 y Hy).
  replace 1 with (e * / e) by (field; exact He).
  rewrite <- !Rpower_mult. now rewrite H.
Qed.

Lemma Rpower_cube (t : R) : 0 < t -> Rpower t (1 / 3) ^ 3 = t.
Proof.
  intros Ht.
  rewrite <- (Rpower_pow 3 _ (Rpower_pos _ _)), Rpower_mult.
  replace (1 / 3 * INR 3) with 1 by (simpl; lra).
  apply Rpower_1, Ht.
Qed.

Lemma Rpower_gamma_pow5 (b : R) : 0 < b -> Rpower b 2.4 ^ 5 = b ^ 12.
Proof.
  intros Hb.
  rewrite <- (Rpower_pow 5 _ (Rpower_pos _ _)), Rpower_mult.
  replace (2.4 * INR 5) with (INR 12) by (simpl; lra).
  apply Rpower_pow, Hb.
Qed.

(** On the linear pieces both conversions are affine. *)
Lemma gamma_correct_linear (v : R) : v <= 0.04045 -> gamma_correct v = v / 12.92.
Proof. intros H. unfold gamma_correct. case_Rlt; [lra | reflexivity]. Qed.

Lemma lab_f_linear (t : R) : t <= 0.008856 -> lab_f t = 7.787 * t + 16 / 116.
Proof. intros H. unfold lab_f. case_Rlt; [lra | reflexivity]. Qed.

(** The power piece of the gamma correction lies above the linear piece on
    the grid of channel values: 10/255 is the last linear one, 11/255 the
    first on the power piece. *)
Lemma gamma_pieces_apart (m n : Z) :
  IZR m / 255 <= 0.04045 -> 0.04045 < IZR n / 255 ->
  IZR m / 255 / 12.92 < Rpower ((IZR n / 255 + 0.055) / 1.055) 2.4.
Proof.
  intros Hm Hn.
  assert (Hm' : (m <= 10)%Z).
  { assert (m < 11)%Z by (apply lt_IZR; lra). lia. }
  assert (Hn' : (11 <= n)%Z).
  { assert (10 < n)%Z by (apply lt_IZR; lra). lia. }
  apply IZR_le in Hm', Hn'.
  set (b := (IZR n / 255 + 0.055) / 1.055).
  set (b0 := (11 / 255 + 0.055) / 1.055).
  set (c := 10 / 255 / 12.92).
  assert (Hb0 : 0 < b0) by (unfold b0; lra).
  assert (Hb : b0 <= b) by (unfold b, b0; lra).
  assert (Hc : IZR m / 255 / 12.92 <= c) by (unfold c; lra).
  assert (Hp : 0 < Rpower b 2.4) by apply Rpower_pos.
  destruct (Rlt_dec c (Rpower b 2.4)) as [Hlt|Hge]; [lra |].
  exfalso.
  assert (H5 : Rpower b 2.4 ^ 5 <= c ^ 5) by (apply pow_incr; lra).
  rewrite Rpower_gamma_pow5 in H5 by lra.
  assert (H12 : b0 ^ 12 <= b ^ 12) by (apply pow_incr; lra).
  assert (Hnum : c ^ 5 < b0 ^ 12) by (unfold c, b0; lra).
  lra.
Qed.

Lemma gamma_correct_grid_inj (m n : Z) :
  gamma_correct (IZR m / 255) = gamma_correct (IZR n / 255) -> m = n.
Proof.
  intros H. unfold gamma_correct in H.
  destruct (Rlt_dec 0.04045 (IZR m / 255)) as [Hm|Hm];
    destruct (Rlt_dec 0.04045 (IZR n / 255)) as [Hn|Hn].
  - apply Rpower_inj_base in H; try lra.
    apply eq_IZR. lra.
  - pose proof (gamma_pieces_apart n m ltac:(lra) Hm). lra.
  - pose proof (gamma_pieces_apart m n ltac:(lra) Hn). lra.
  - apply eq_IZR. lra.
Qed.

(** The cube-root piece of [lab_f] lies above the linear piece. *)
Lemma lab_f_pieces_apart (s t : R) :
  s <= 0.008856 -> 0.008856 < t -> 7.787 * s + 16 / 116 < Rpower t (1 / 3).
Proof.
  intros Hs Ht.
  set (c0 := 7.787 * 0.008856 + 16 / 116).
  assert (Hc0 : 0 < c0) by (unfold c0; lra).
  assert (Hq : 0 < Rpower t (1 / 3)) by apply Rpower_pos.
  destruct (Rlt_dec c0 (Rpower t (1 / 3))) as [Hlt|Hge]; [unfold c0 in Hlt; lra |].
  exfalso.
  assert (H3 : Rpower t (1 / 3) ^ 3 <= c0 ^ 3) by (apply pow_incr; lra).
  rewrite Rpower_cube in H3 by lra.
  assert (Hnum : c0 ^ 3 < 0.008856) by (unfold c0; lra).
  lra.
Qed.

Lemma lab_f_inj (s t : R) : lab_f s = lab_f t -> s = t.
Proof.
  intros H. unfold lab_f in H.
  destruct (Rlt_dec 0.008856 s) as [Hs|Hs]; destruct (Rlt_dec 0.008856 t) as [Ht|Ht].
  - apply Rpower_inj_base in H; lra.
  - pose proof (lab_f_pieces_apart t s ltac:(lra) Hs). lra.
  - pose proof (lab_f_pieces_apart s t ltac:(lra) Ht). lra.
  - lra.
Qed.

(** The sRGB matrix is invertible. *)
Lemma linear_to_xyz_inj (u v : R * R * R) : linear_to_xyz u = linear_to_xyz v -> u = v.
Proof.
  destruct u as [[r1 g1] b1], v as [[r2 g2] b2]. unfold linear_to_xyz.
  intros H. injection H as Hx Hy Hz.
  assert (r1 = r2) by lra. assert (g1 = g2) by lra. assert (b1 = b2) by lra.
  congruence.
Qed.

Lemma rgb_to_lab_inj (a b : RGB) : rgb_to_lab a = rgb_to_lab b -> a = b.
Proof.
  destruct a as [[r1 g1] b1], b as [[r2 g2] b2]. unfold rgb_to_lab.
  destruct (linear_to_xyz (gamma_correct (IZR r1 / 255), gamma_correct (IZR g1 / 255),
                           gamma_correct (IZR b1 / 255))) as [[x1 y1] z1] eqn:E1.
  destruct (linear_to_xyz (gamma_correct (IZR r2 / 255), gamma_correct (IZR g2 / 255),
                           gamma_correct (IZR b2 / 255))) as [[x2 y2] z2] eqn:E2.
  intros H. injection H as HL Ha Hb.
  assert (Hy : y1 = y2) by (apply lab_f_inj; lra).
  assert (Hx : x1 = x2) by (apply lab_f_inj; lra).
  assert (Hz : z1 = z2) by (apply lab_f_inj; lra).
  subst x2 y2 z2. rewrite <- E2 in E1.
  apply linear_to_xyz_inj in E1. injection E1 as Hr Hg Hbl.
  apply gamma_correct_grid_inj in Hr, Hg, Hbl. congruence.
Qed.

Lemma color_difference_nonneg (a b : RGB) : 0 <= calculate_color_difference a b.
Proof.
  unfold calculate_color_difference.
  destruct (rgb_to_lab a) as [[l1 a1] b1], (rgb_to_lab b) as [[l2 a2] b2].
  apply sqrt_pos.
Qed.

Lemma color_difference_sym (a b : RGB) :
  calculate_color_difference a b = calculate_color_difference b a.
Proof.
  unfold calculate_color_difference.
  destruct (rgb_to_lab a) as [[l1 a1] b1], (rgb_to_lab b) as [[l2 a2] b2].
  f_equal. ring.
Qed.

Lemma color_difference_self (c : RGB) : calculate_color_difference c c = 0.
Proof.
  unfold calculate_color_difference.
  destruct (rgb_to_lab c) as [[l1 a1] b1].
  replace ((l1 - l1) ^ 2 + (a1 - a1) ^ 2 + (b1 - b1) ^ 2) with 0 by ring.
  apply sqrt_0.
Qed.

Lemma sum_squares_zero (x y z : R) :
  x ^ 2 + y ^ 2 + z ^ 2 = 0 -> x = 0 /\ y = 0 /\ z = 0.
Proof.
  intros H.
  pose proof (pow2_ge_0 x). pose proof (pow2_ge_0 y). pose proof (pow2_ge_0 z).
  assert (Hx : x ^ 2 = 0) by lra.
  assert (Hy : y ^ 2 = 0) by lra.
  assert (Hz : z ^ 2 = 0) by lra.
  assert (Hroot : forall v, v ^ 2 = 0 -> v = 0).
  { intros v Hv. destruct (Req_dec v 0) as [E|E]; [exact E |].
    exfalso. exact (pow_nonzero v 2 E Hv). }
  auto.
Qed.

Lemma color_difference_zero_lab (a b : RGB) :
  calculate_color_difference a b = 0 -> rgb_to_lab a = rgb_to_lab b.
Proof.
  unfold calculate_color_difference.
  destruct (rgb_to_lab a) as [[l1 a1] b1], (rgb_to_lab b) as [[l2 a2] b2].
  intros H. apply sqrt_eq_0 in H.
  - apply sum_squares_zero in H. destruct H as (Hl & Ha & Hb).
    f_equal; [f_equal |]; lra.
  - pose proof (pow2_ge_0 (l1 - l2)). pose proof (pow2_ge_0 (a1 - a2)).
    pose proof (pow2_ge_0 (b1 - b2)). lra.
Qed.

Lemma color_difference_zero_iff (a b : RGB) :
  calculate_color_difference a b = 0 <-> a = b.
Proof.
  split.
  - intros H. apply rgb_to_lab_inj, color_difference_zero_lab, H.
  - intros ->. apply color_difference_self.
Qed.

(** C4. [calculate_color_difference] is symmetric, and it is zero exactly
    when the two triples are identical: for all triples of integers, so in
    particular for valid u8 ones; a colour is at distance zero from itself. *)
Theorem color_difference_symmetric_zero_iff_identical :
  (forall a b : RGB, calculate_color_difference a b = calculate_color_difference b a)
  /\ (forall a b : RGB, calculate_color_difference a b = 0 <-> a = b)
  /\ (forall c : RGB, calculate_color_difference c c = 0).
Proof.
  split; [exact color_difference_sym |].
  split; [exact color_difference_zero_iff | exact color_difference_self].
Qed.

(** ** The comparisons *)

Lemma Rltb_true (x y : R) : Rltb x y = true <-> x < y.
Proof. unfold Rltb. destruct (Rlt_dec x y); split; intros; try discriminate; tauto. Qed.

Lemma Rltb_false (x y : R) : Rltb x y = false <-> y <= x.
Proof.
  unfold Rltb. destruct (Rlt_dec x y); split; intros; try discriminate; try lra; reflexivity.
Qed.

Lemma Rleb_true (x y : R) : Rleb x y = true <-> x <= y.
Proof. unfold Rleb. destruct (Rle_dec x y); split; intros; try discriminate; tauto. Qed.

Lemma Rleb_false (x y : R) : Rleb x y = false <-> y < x.
Proof.
  unfold Rleb. destruct (Rle_dec x y); split; intros; try discriminate; try lra; reflexivity.
Qed.

(** ** Sorting by a key *)

Lemma strongly_sorted_weaken {A : Type} (r1 r2 : A -> A -> Prop) (l : list A) :
  (forall a b, r1 a b -> r2 a b) -> StronglySorted r1 l -> StronglySorted r2 l.
Proof.
  intros Hr. induction 1 as [|x t Ht IH Hx]; constructor; [exact IH |].
  eapply Forall_impl; [| exact Hx]. intros b. apply Hr.
Qed.

Lemma sort_by_key_sorted {A : Type} (key : A -> R) (l : list A) :
  StronglySorted (fun a b => key a <= key b) (sort_by_key key l).
Proof.
  unfold sort_by_key.
  eapply strongly_sorted_weaken; [| apply stable_sort_strongly].
  - intros a b H. apply Rltb_false in H. exact H.
  - intros a b H. apply Rltb_true in H. apply Rltb_false. lra.
  - intros a b c H1 H2. apply Rltb_false in H1, H2. apply Rltb_false. lra.
Qed.

Lemma sort_by_key_reverse_sorted {A : Type} (key : A -> R) (l : list A) :
  StronglySorted (fun a b => key a >= key b) (sort_by_key_reverse key l).
Proof.
  unfold sort_by_key_reverse.
  eapply strongly_sorted_weaken; [| apply stable_sort_strongly].
  - intros a b H. apply Rltb_false in H. lra.
  - intros a b H. apply Rltb_true in H. apply Rltb_false. lra.
  - intros a b c H1 H2. apply Rltb_false in H1, H2. apply Rltb_false. lra.
Qed.

Lemma sort_by_key_perm {A : Type} (key : A -> R) (l : list A) :
  Permutation (sort_by_key key l) l.
Proof. apply stable_sort_perm. Qed.

Lemma sort_by_key_reverse_perm {A : Type} (key : A -> R) (l : list A) :
  Permutation (sort_by_key_reverse key l) l.
Proof. apply stable_sort_perm. Qed.

Lemma strongly_sorted_map {A : Type} (key : A -> R) (rel : R -> R -> Prop) (l : list A) :
  StronglySorted (fun a b => rel (key a) (key b)) l -> Sorted rel (map key l).
Proof.
  intros H. apply StronglySorted_Sorted.
  induction H as [|x t Ht IH Hx]; simpl; constructor; [exact IH |].
  rewrite Forall_forall in *. intros k Hk.
  apply in_map_iff in Hk. destruct Hk as (b & <- & Hb). apply Hx, Hb.
Qed.

(** ** Slices *)

Lemma slice_to_In {A : Type} (n : Z) (l : list A) (x : A) :
  In x (slice_to n l) -> In x l.
Proof. unfold slice_to. destruct (n <? 0)%Z; apply in_firstn_in. Qed.

Lemma slice_to_length {A : Type} (n : Z) (l : list A) :
  (0 <= n)%Z -> (Z.of_nat (List.length (slice_to n l)) <= n)%Z.
Proof.
  intros Hn. unfold slice_to.
  destruct (n <? 0)%Z eqn:E; [apply Z.ltb_lt in E; lia |].
  pose proof (firstn_le_length (Z.to_nat n) l). lia.
Qed.

(** ** find_matches *)

Section FindMatchesFacts.
  Variables (db : PencilDatabase) (target_rgb : RGB) (max_matches : Z) (max_difference : R).

Let step := find_matches_step target_rgb max_difference.
Let brand_matches := brand_matches db target_rgb max_matches max_difference.

Lemma find_matches_loop_app (ps : list Pencil.t) (acc : list Match.t) :
    fold_left step ps acc = acc ++ fold_left step ps [].
  Proof using Type.
    revert acc. induction ps as [|p ps IH]; intros acc; simpl.
    - now rewrite app_nil_r.
    - rewrite (IH (step acc p)), (IH (step [] p)).
      unfold step, find_matches_step.
      destruct (Rleb _ _); simpl; [now rewrite <- app_assoc | reflexivity].
  Qed.

  (** Every dictionary the loop keeps was built from a pencil of the table
      and passed the threshold. *)
Lemma find_matches_loop_In (ps : list Pencil.t) (m : Match.t) :
    In m (fold_left step ps []) ->
    exists p, In p ps /\ m = match_info target_rgb p
              /\ Match.color_difference m <= max_difference.
  Proof using Type.
    induction ps as [|p ps IH]; simpl; [tauto |].
    rewrite find_matches_loop_app. intros H. apply in_app_or in H.
    destruct H as [H|H].
    - unfold step, find_matches_step in H.
      destruct (Rleb _ _) eqn:E; simpl in H; [| tauto].
      destruct H as [<-|[]]. exists p. split; [now left |]. split; [reflexivity |].
      apply Rleb_true in E. exact E.
    - destruct (IH H) as (q & Hq & Hm). exists q. split; [now right | exact Hm].
  Qed.

Lemma find_matches_unfold :
    find_matches db target_rgb max_matches max_difference
    = brand_matches "Prismacolor" ++ brand_matches "Faber Castell".
  Proof using Type. reflexivity. Qed.

Lemma brand_matches_brand (b : string) :
    Forall (fun m => Match.brand m = b) (brand_matches b).
  Proof using Type.
    apply Forall_forall. intros m Hm.
    apply slice_to_In, filter_In in Hm. destruct Hm as [_ Hm].
    apply String.eqb_eq, Hm.
  Qed.

Lemma brand_matches_from_table (b : string) (m : Match.t) :
    In m (brand_matches b) ->
    exists p, In p (get_all_pencils db) /\ m = match_info target_rgb p
              /\ Match.color_difference m <= max_difference.
  Proof using Type.
    intros Hm. apply slice_to_In, filter_In in Hm. destruct Hm as [Hm _].
    eapply Permutation_in in Hm; [| apply sort_by_key_perm].
    apply find_matches_loop_In, Hm.
  Qed.

Lemma brand_matches_sorted (b : string) :
    ascending (map Match.color_difference (brand_matches b)).
  Proof using Type.
    apply strongly_sorted_map with (rel := Rle).
    apply strongly_sorted_slice_to, strongly_sorted_filter, sort_by_key_sorted.
  Qed.

Lemma brand_matches_capped (b : string) :
    (0 <= max_matches)%Z -> (Z.of_nat (List.length (brand_matches b)) <= max_matches)%Z.
  Proof using Type. apply slice_to_length. Qed.
End FindMatchesFacts.

(** *** Dark colours: every channel on the linear pieces *)

(** For channels between 0 and 10 the LAB coordinates are rational. *)
Lemma rgb_to_lab_dark (r g b : Z) :
  (0 <= r <= 10)%Z -> (0 <= g <= 10)%Z -> (0 <= b <= 10)%Z ->
  rgb_to_lab (r, g, b) =
  let '(x, y, z) := linear_to_xyz (IZR r / 255 / 12.92, IZR g / 255 / 12.92,
                                   IZR b / 255 / 12.92) in
  (116 * (7.787 * y + 16 / 116) - 16,
   500 * ((7.787 * x + 16 / 116) - (7.787 * y + 16 / 116)),
   200 * ((7.787 * y + 16 / 116) - (7.787 * z + 16 / 116))).
Proof.
  intros [Hr0 Hr1] [Hg0 Hg1] [Hb0 Hb1].
  apply IZR_le in Hr0, Hr1, Hg0, Hg1, Hb0, Hb1.
  unfold rgb_to_lab.
  rewrite !gamma_correct_linear by lra.
  unfold linear_to_xyz.
  rewrite !lab_f_linear by lra.
  reflexivity.
Qed.

Lemma near_black_difference :
  0 < calculate_color_difference (0, 0, 0)%Z (10, 10, 10)%Z <= 50.
Proof.
  split.
  - destruct (color_difference_nonneg (0, 0, 0)%Z (10, 10, 10)%Z) as [H|H]; [exact H |].
    symmetry in H. apply color_difference_zero_iff in H. discriminate H.
  - unfold calculate_color_difference.
    rewrite !rgb_to_lab_dark by lia. unfold linear_to_xyz.
    replace 50 with (sqrt (50 * 50)) by (apply sqrt_square; lra).
    apply sqrt_le_1_alt. lra.
Qed.

(** Decides the comparisons left in a goal once their arguments are known. *)
Ltac decide_cmp := repeat match goal with
  | |- context [Rltb ?a ?b] =>
      first [ replace (Rltb a b) with true by (symmetry; apply Rltb_true; lra)
            | replace (Rltb a b) with false by (symmetry; apply Rltb_false; lra) ]
  | |- context [Rleb ?a ?b] =>
      first [ replace (Rleb a b) with true by (symmetry; apply Rleb_true; lra)
            | replace (Rleb a b) with false by (symmetry; apply Rleb_false; lra) ]
  end.

(** The run of [find_matches] on [dark_db] for a black target with the
    default parameters: both Prismacolor rows, then the Faber Castell row. *)
Lemma find_matches_dark :
  find_matches dark_db (0, 0, 0)%Z 5 50 =
  [row_match (0, 0, 0)%Z "Prismacolor" (Row.mk "Black" "PC935" (0, 0, 0)%Z);
   row_match (0, 0, 0)%Z "Prismacolor" (Row.mk "Near Black" "PC000" (10, 10, 10)%Z);
   row_match (0, 0, 0)%Z "Faber Castell" (Row.mk "Black" "FC199" (0, 0, 0)%Z)].
Proof.
  pose proof near_black_difference as [Hpos Hle].
  pose proof (color_difference_self (0, 0, 0)%Z) as Hself.
  unfold find_matches, get_all_pencils, dark_db, with_brand, row_match, find_matches_step,
    match_info, sort_by_key, stable_sort.
  cbn -[calculate_color_difference Rltb Rleb].
  rewrite !Hself.
  set (d := calculate_color_difference (0, 0, 0)%Z (10, 10, 10)%Z) in *.
  repeat (progress (decide_cmp; cbn -[calculate_color_difference Rltb Rleb])).
  reflexivity.
Qed.

Lemma with_brand_In (b : string) (table : list Row.t) (p : Pencil.t) :
  In p (with_brand b table) ->
  Pencil.brand p = b
  /\ exists r, In r table /\ p = Pencil.mk (Row.name r) (Row.code r) (Row.rgb r) b.
Proof.
  unfold with_brand. intros H. apply in_map_iff in H.
  destruct H as (r & <- & Hr). split; [reflexivity |]. exists r. auto.
Qed.

(** A pencil of the concatenated table that carries one of the two brands
    comes from that brand's own table. *)
Lemma get_all_pencils_of_brand (db : PencilDatabase) (p : Pencil.t) :
  In p (get_all_pencils db) ->
  (Pencil.brand p = "Prismacolor" ->
   exists r, In r (prismacolor_pencils db)
             /\ p = Pencil.mk (Row.name r) (Row.code r) (Row.rgb r) "Prismacolor")
  /\ (Pencil.brand p = "Faber Castell" ->
      exists r, In r (faber_castell_pencils db)
                /\ p = Pencil.mk (Row.name r) (Row.code r) (Row.rgb r) "Faber Castell").
Proof.
  unfold get_all_pencils. intros H.
  repeat (apply in_app_or in H; destruct H as [H|H]);
    apply with_brand_In in H; destruct H as (Hb & r & Hr & ->);
    split; intros E; simpl in E; try discriminate E; exists r; auto.
Qed.

(** C2. Every match [find_matches] returns carries the brand "Prismacolor"
    or "Faber Castell" and was built from a row of that brand's own table:
    rows of the four other tables never reach the result. *)
Theorem find_matches_only_prismacolor_or_faber_castell
    (db : PencilDatabase) (target_rgb : RGB) (max_matches : Z) (max_difference : R)
    (m : Match.t) :
  In m (find_matches db target_rgb max_matches max_difference) ->
  (Match.brand m = "Prismacolor"
   /\ exists r, In r (prismacolor_pencils db) /\ m = row_match target_rgb "Prismacolor" r)
  \/ (Match.brand m = "Faber Castell"
      /\ exists r, In r (faber_castell_pencils db)
                   /\ m = row_match target_rgb "Faber Castell" r).
Proof.
  rewrite find_matches_unfold. intros H. apply in_app_or in H.
  destruct H as [H|H].
  - left.
    pose proof (brand_matches_brand db target_rgb max_matches max_difference "Prismacolor") as Hb.
    rewrite Forall_forall in Hb. specialize (Hb m H). split; [exact Hb |].
    apply brand_matches_from_table in H. destruct H as (p & Hp & -> & _).
    apply get_all_pencils_of_brand in Hp. destruct Hp as [Hp _].
    destruct (Hp Hb) as (r & Hr & ->). exists r. split; [exact Hr | reflexivity].
  - right.
    pose proof (brand_matches_brand db target_rgb max_matches max_difference "Faber Castell") as Hb.
    rewrite Forall_forall in Hb. specialize (Hb m H). split; [exact Hb |].
    apply brand_matches_from_table in H. destruct H as (p & Hp & -> & _).
    apply get_all_pencils_of_brand in Hp. destruct Hp as [_ Hp].
    destruct (Hp Hb) as (r & Hr & ->). exists r. split; [exact Hr | reflexivity].
Qed.

(** C2 at [dark_db]: the Faber Castell row is returned, and it is accounted for. *)
Lemma find_matches_only_prismacolor_or_faber_castell_witness :
  let m := row_match (0, 0, 0)%Z "Faber Castell" (Row.mk "Black" "FC199" (0, 0, 0)%Z) in
  In m (find_matches dark_db (0, 0, 0)%Z 5 50)
  /\ ((Match.brand m = "Prismacolor"
       /\ exists r, In r (prismacolor_pencils dark_db)
                    /\ m = row_match (0, 0, 0)%Z "Prismacolor" r)
      \/ (Match.brand m = "Faber Castell"
          /\ exists r, In r (faber_castell_pencils dark_db)
                       /\ m = row_match (0, 0, 0)%Z "Faber Castell" r)).
Proof.
  intros m.
  assert (H : In m (find_matches dark_db (0, 0, 0)%Z 5 50)).
  { rewrite find_matches_dark. right. right. left. reflexivity. }
  split; [exact H |].
  exact (find_matches_only_prismacolor_or_faber_castell dark_db (0, 0, 0)%Z 5 50 m H).
Defined.

Lemma count_brand_app (b : string) (l1 l2 : list Match.t) :
  count_brand b (l1 ++ l2) = (count_brand b l1 + count_brand b l2)%nat.
Proof. unfold count_brand. now rewrite filter_app, length_app. Qed.

Lemma count_brand_le_length (b : string) (l : list Match.t) :
  (count_brand b l <= List.length l)%nat.
Proof. unfold count_brand. apply filter_length_le. Qed.

Lemma count_brand_other (b c : string) (l : list Match.t) :
  Forall (fun m => Match.brand m = c) l -> b <> c -> count_brand b l = 0%nat.
Proof.
  intros Hl Hbc. unfold count_brand.
  induction Hl as [|m t Hm _ IH]; simpl; [reflexivity |].
  destruct (String.eqb_spec (Match.brand m) b) as [E|E]; [congruence | exact IH].
Qed.

(** C3. For a non-negative [max_matches], no match [find_matches] returns
    has a [color_difference] above [max_difference] (whatever its sign), and
    no brand has more than [max_matches] entries in the result. *)
Theorem find_matches_within_threshold_and_cap
    (db : PencilDatabase) (target_rgb : RGB) (max_matches : Z) (max_difference : R) :
  (0 <= max_matches)%Z ->
  (forall m, In m (find_matches db target_rgb max_matches max_difference) ->
             ~ (Match.color_difference m > max_difference))
  /\ (forall b, (Z.of_nat (count_brand b
                   (find_matches db target_rgb max_matches max_difference))
                 <= max_matches)%Z).
Proof.
  intros Hmax. rewrite find_matches_unfold. split.
  - intros m H. apply in_app_or in H.
    destruct H as [H|H]; apply brand_matches_from_table in H;
      destruct H as (_ & _ & _ & Hle); lra.
  - intros b. rewrite count_brand_app.
    pose proof (brand_matches_brand db target_rgb max_matches max_difference "Prismacolor") as HP.
    pose proof (brand_matches_brand db target_rgb max_matches max_difference "Faber Castell") as HF.
    pose proof (brand_matches_capped db target_rgb max_matches max_difference "Prismacolor" Hmax).
    pose proof (brand_matches_capped db target_rgb max_matches max_difference "Faber Castell" Hmax).
    pose proof (count_brand_le_length b
                  (brand_matches db target_rgb max_matches max_difference "Prismacolor")).
    pose proof (count_brand_le_length b
                  (brand_matches db target_rgb max_matches max_difference "Faber Castell")).
    destruct (string_dec b "Prismacolor") as [->|HnP].
    + rewrite (count_brand_other "Prismacolor" "Faber Castell" _ HF) by discriminate. lia.
    + rewrite (count_brand_other b "Prismacolor" _ HP HnP).
      destruct (string_dec b "Faber Castell") as [->|HnF]; [lia |].
      rewrite (count_brand_other b "Faber Castell" _ HF HnF). lia.
Qed.

(** C3 at [dark_db] with the default parameters. *)
Lemma find_matches_within_threshold_and_cap_witness :
  (0 <= 5)%Z
  /\ (forall m, In m (find_matches dark_db (0, 0, 0)%Z 5 50) ->
                ~ (Match.color_difference m > 50))
  /\ (forall b, (Z.of_nat (count_brand b (find_matches dark_db (0, 0, 0)%Z 5 50)) <= 5)%Z).
Proof.
  assert (H : (0 <= 5)%Z) by lia.
  split; [exact H |].
  exact (find_matches_within_threshold_and_cap dark_db (0, 0, 0)%Z 5 50 H).
Defined.

(** C1, as the code has it. The list [find_matches] returns is the capped
    Prismacolor matches followed by the capped Faber Castell matches; each of
    the two runs is sorted ascending by [color_difference]. *)
Theorem find_matches_sorted_within_each_brand
    (db : PencilDatabase) (target_rgb : RGB) (max_matches : Z) (max_difference : R) :
  exists prismacolor_matches faber_castell_matches : list Match.t,
    find_matches db target_rgb max_matches max_difference
    = prismacolor_matches ++ faber_castell_matches
    /\ Forall (fun m => Match.brand m = "Prismacolor") prismacolor_matches
    /\ Forall (fun m => Match.brand m = "Faber Castell") faber_castell_matches
    /\ ascending (map Match.color_difference prismacolor_matches)
    /\ ascending (map Match.color_difference faber_castell_matches).
Proof.
  exists (brand_matches db target_rgb max_matches max_difference "Prismacolor"),
         (brand_matches db target_rgb max_matches max_difference "Faber Castell").
  split; [apply find_matches_unfold |].
  split; [apply brand_matches_brand |].
  split; [apply brand_matches_brand |].
  split; apply brand_matches_sorted.
Qed.

(** C1 fails as stated: on [dark_db], for a black target and the default
    parameters, the second Prismacolor match (difference above 0) stands
    before the Faber Castell match (difference 0). *)
Lemma find_matches_not_sorted :
  ~ ascending (map Match.color_difference (find_matches dark_db (0, 0, 0)%Z 5 50)).
Proof.
  rewrite find_matches_dark. unfold ascending, row_match, match_info. simpl map.
  intros H.
  apply Sorted_inv in H. destruct H as [H _].
  apply Sorted_inv in H. destruct H as [_ H].
  apply HdRel_inv in H.
  rewrite color_difference_self in H.
  pose proof near_black_difference as [Hpos _]. lra.
Qed.

(** ** find_best_match *)

Section FindBestMatchFacts.
Variable target_rgb : RGB.

Let diff (p : Pencil.t) : R := calculate_color_difference target_rgb (Pencil.rgb p).

(** What the loop has established after scanning [seen]. *)
Let scanned (seen : list Pencil.t) (st : option Match.t * ext_real) : Prop :=
  (seen = [] /\ st = (None, PosInf))
  \/ (exists p, In p seen
                /\ st = (Some (match_info target_rgb p), Finite (diff p))
                /\ forall q, In q seen -> diff p <= diff q).

Lemma find_best_match_step_scanned (seen : list Pencil.t)
    (st : option Match.t * ext_real) (p : Pencil.t) :
  scanned seen st -> scanned (seen ++ [p]) (find_best_match_step target_rgb st p).
Proof using Type.
  intros [[-> ->]|(b & Hb & -> & Hmin)]; right.
  - exists p. simpl. split; [now left |]. split; [reflexivity |].
    intros q [<-|[]]. lra.
  - unfold find_best_match_step, lt_ext. fold (diff p).
    destruct (Rltb (diff p) (diff b)) eqn:E.
    + apply Rltb_true in E. exists p. split; [apply in_or_app; right; now left |].
      split; [reflexivity |].
      intros q Hq. apply in_app_or in Hq. destruct Hq as [Hq|[<-|[]]]; [| lra].
      specialize (Hmin q Hq). lra.
    + apply Rltb_false in E. exists b. split; [apply in_or_app; now left |].
      split; [reflexivity |].
      intros q Hq. apply in_app_or in Hq. destruct Hq as [Hq|[<-|[]]]; [| lra].
      apply Hmin, Hq.
Qed.

Lemma find_best_match_loop_scanned (ps seen : list Pencil.t)
    (st : option Match.t * ext_real) :
  scanned seen st ->
  scanned (seen ++ ps) (fold_left (find_best_match_step target_rgb) ps st).
Proof using Type.
  revert seen st. induction ps as [|p ps IH]; intros seen st H; simpl.
  - now rewrite app_nil_r.
  - replace (seen ++ p :: ps) with ((seen ++ [p]) ++ ps) by now rewrite <- app_assoc.
    apply IH, find_best_match_step_scanned, H.
Qed.

(** The result of the scan of a table: nothing for an empty table, else a
    pencil of the table with the least difference. *)
Lemma find_best_match_loop_result (ps : list Pencil.t) :
  (ps = [] /\ fst (fold_left (find_best_match_step target_rgb) ps (None, PosInf)) = None)
  \/ (exists p, In p ps
                /\ fst (fold_left (find_best_match_step target_rgb) ps (None, PosInf))
                   = Some (match_info target_rgb p)
                /\ forall q, In q ps ->
                     calculate_color_difference target_rgb (Pencil.rgb p)
                     <= calculate_color_difference target_rgb (Pencil.rgb q)).
Proof using Type.
  assert (H0 : scanned [] (None, PosInf)) by (left; auto).
  pose proof (find_best_match_loop_scanned ps [] (None, PosInf) H0) as H.
  simpl in H. destruct H as [[-> H]|(p & Hp & H & Hmin)].
  - left. simpl. auto.
  - right. exists p. rewrite H. auto.
Qed.
End FindBestMatchFacts.

(** C9, as the code has it. [find_best_match] scans the Prismacolor table
    for the filter "Prismacolor", the Faber Castell table for "Faber Castell",
    and the whole catalogue for no filter or any other filter; it returns
    none exactly when the scanned table is empty, and otherwise the match of
    a pencil of the scanned table whose difference is least in that table. *)
Theorem find_best_match_least_in_scanned_table
    (db : PencilDatabase) (target_rgb : RGB) (brand : option string) :
  (find_best_match db target_rgb brand = None <-> best_match_pencils db brand = [])
  /\ (forall m, find_best_match db target_rgb brand = Some m ->
        exists p, In p (best_match_pencils db brand)
                  /\ m = match_info target_rgb p
                  /\ forall q, In q (best_match_pencils db brand) ->
                       Match.color_difference m
                       <= calculate_color_difference target_rgb (Pencil.rgb q))
  /\ best_match_pencils db (Some "Prismacolor") = get_prismacolor_pencils db
  /\ best_match_pencils db (Some "Faber Castell") = get_faber_castell_pencils db
  /\ (forall b, b <> "Prismacolor" -> b <> "Faber Castell" ->
                best_match_pencils db (Some b) = get_all_pencils db)
  /\ best_match_pencils db None = get_all_pencils db.
Proof.
  unfold find_best_match.
  destruct (find_best_match_loop_result target_rgb (best_match_pencils db brand))
    as [[E H]|(p & Hp & H & Hmin)].
  - rewrite H, E. split; [tauto |]. split; [discriminate |].
    repeat split.
    + intros b HP HF. unfold best_match_pencils, brand_given.
      destruct (String.eqb_spec b ""); simpl; [reflexivity |].
      destruct (String.eqb_spec b "Prismacolor"); [contradiction |].
      destruct (String.eqb_spec b "Faber Castell"); [contradiction | reflexivity].
  - rewrite H. split.
    + split; [discriminate |]. intros E. rewrite E in Hp. destruct Hp.
    + split.
      * intros m [= <-]. exists p. auto.
      * repeat split.
        intros b HP HF. unfold best_match_pencils, brand_given.
        destruct (String.eqb_spec b ""); simpl; [reflexivity |].
        destruct (String.eqb_spec b "Prismacolor"); [contradiction |].
        destruct (String.eqb_spec b "Faber Castell"); [contradiction | reflexivity].
Qed.

(** The two scans of [no_faber_db] for a black target. *)
Lemma find_best_match_no_faber :
  find_best_match no_faber_db (0, 0, 0)%Z (Some "Faber Castell") = None
  /\ find_best_match no_faber_db (0, 0, 0)%Z (Some "Derwent")
     = Some (row_match (0, 0, 0)%Z "Prismacolor" (Row.mk "Black" "PC935" (0, 0, 0)%Z)).
Proof.
  split; [reflexivity |].
  unfold find_best_match, best_match_pencils, get_all_pencils, no_faber_db, with_brand,
    row_match, find_best_match_step, match_info, lt_ext.
  cbn -[calculate_color_difference Rltb].
  rewrite !color_difference_self. decide_cmp. reflexivity.
Qed.

(** C9 fails as stated: [no_faber_db] is not empty, yet the filter
    "Faber Castell" yields none; and the filter "Derwent" does not restrict
    the scan: the match returned is a Prismacolor pencil although the
    catalogue holds a Derwent pencil. *)
Lemma find_best_match_filter_counterexample :
  get_all_pencils no_faber_db <> []
  /\ find_best_match no_faber_db (0, 0, 0)%Z (Some "Faber Castell") = None
  /\ derwent_pencils no_faber_db <> []
  /\ exists m, find_best_match no_faber_db (0, 0, 0)%Z (Some "Derwent") = Some m
               /\ Match.brand m = "Prismacolor".
Proof.
  destruct find_best_match_no_faber as [HN HD].
  split; [discriminate |]. split; [exact HN |]. split; [discriminate |].
  eexists. split; [exact HD | reflexivity].
Qed.

(** C9 at [no_faber_db]: the scan for "Derwent" returns a match, and it is
    the least of the whole catalogue. *)
Lemma find_best_match_least_in_scanned_table_witness :
  let m := row_match (0, 0, 0)%Z "Prismacolor" (Row.mk "Black" "PC935" (0, 0, 0)%Z) in
  find_best_match no_faber_db (0, 0, 0)%Z (Some "Derwent") = Some m
  /\ exists p, In p (best_match_pencils no_faber_db (Some "Derwent"))
               /\ m = match_info (0, 0, 0)%Z p
               /\ forall q, In q (best_match_pencils no_faber_db (Some "Derwent")) ->
                    Match.color_difference m
                    <= calculate_color_difference (0, 0, 0)%Z (Pencil.rgb q).
Proof.
  intros m.
  pose proof (proj2 find_best_match_no_faber) as H.
  split; [exact H |].
  exact (proj1 (proj2 (find_best_match_least_in_scanned_table
                         no_faber_db (0, 0, 0)%Z (Some "Derwent"))) m H).
Defined.

(** ** Spatial analysis: the distribution classes *)

Lemma fold_left_max_spec (t : list Z) (v : Z) :
  is_max (fold_left Z.max t v) (v :: t).
Proof.
  revert v. induction t as [|u t IH]; intros v; simpl.
  - split; [now left |]. intros w [<-|[]]. lia.
  - destruct (IH (Z.max v u)) as [Hin Hub]. split.
    + destruct Hin as [Hin|Hin]; [| now right; right].
      rewrite <- Hin. destruct (Z.max_spec v u) as [[_ ->]|[_ ->]]; [right | ]; now left.
    + intros w Hw.
      assert (Hvu : (v <= Z.max v u /\ u <= Z.max v u)%Z) by lia.
      destruct Hw as [<-|[<-|Hw]].
      * specialize (Hub (Z.max v u) (or_introl eq_refl)). lia.
      * specialize (Hub (Z.max v u) (or_introl eq_refl)). lia.
      * apply Hub. now right.
Qed.

Lemma fold_left_min_spec (t : list Z) (v : Z) :
  is_min (fold_left Z.min t v) (v :: t).
Proof.
  revert v. induction t as [|u t IH]; intros v; simpl.
  - split; [now left |]. intros w [<-|[]]. lia.
  - destruct (IH (Z.min v u)) as [Hin Hlb]. split.
    + destruct Hin as [Hin|Hin]; [| now right; right].
      rewrite <- Hin. destruct (Z.min_spec v u) as [[_ ->]|[_ ->]]; [| right]; now left.
    + intros w Hw.
      assert (Hvu : (Z.min v u <= v /\ Z.min v u <= u)%Z) by lia.
      destruct Hw as [<-|[<-|Hw]].
      * specialize (Hlb (Z.min v u) (or_introl eq_refl)). lia.
      * specialize (Hlb (Z.min v u) (or_introl eq_refl)). lia.
      * apply Hlb. now right.
Qed.

Lemma np_max_spec (l : list Z) : l <> [] -> exists m, np_max l = Ok m /\ is_max m l.
Proof.
  destruct l as [|v t]; [congruence |]. intros _.
  eexists. split; [reflexivity | apply fold_left_max_spec].
Qed.

Lemma np_min_spec (l : list Z) : l <> [] -> exists m, np_min l = Ok m /\ is_min m l.
Proof.
  destruct l as [|v t]; [congruence |]. intros _.
  eexists. split; [reflexivity | apply fold_left_min_spec].
Qed.

Lemma is_max_unique (l : list Z) (a b : Z) : is_max a l -> is_max b l -> a = b.
Proof. intros [Ha Ha'] [Hb Hb']. specialize (Ha' b Hb). specialize (Hb' a Ha). lia. Qed.

Lemma is_min_unique (l : list Z) (a b : Z) : is_min a l -> is_min b l -> a = b.
Proof. intros [Ha Ha'] [Hb Hb']. specialize (Ha' b Hb). specialize (Hb' a Ha). lia. Qed.

(** On non-empty arrays [_classify_distribution] returns, and its result is
    the decision list over the spreads [ys], [xs] and the normalized
    standard deviations. *)
Lemma classify_distribution_decision (y_coords x_coords : list Z) (height width : Z)
    (ys xs : R) :
  y_coords <> [] -> x_coords <> [] ->
  spread_is y_coords height ys -> spread_is x_coords width xs ->
  _classify_distribution y_coords x_coords height width =
  Ok (if Rltb 0.7 ys && Rltb 0.7 xs then "widespread"
      else if Rltb (np_std y_coords / IZR height) 0.15
              && Rltb (np_std x_coords / IZR width) 0.15 then "concentrated"
      else if Rltb ys 0.3 || Rltb xs 0.3 then "localized"
      else "scattered").
Proof.
  intros Hy Hx (yhi & ylo & Hyhi & Hylo & ->) (xhi & xlo & Hxhi & Hxlo & ->).
  unfold _classify_distribution.
  destruct y_coords as [|y0 yt] eqn:Ey; [congruence |]. rewrite <- Ey in *.
  replace (List.length y_coords =? 0)%nat with false by (rewrite Ey; reflexivity).
  destruct (np_max_spec y_coords Hy) as (a & -> & Ha).
  destruct (np_min_spec y_coords Hy) as (b & -> & Hb).
  destruct (np_max_spec x_coords Hx) as (c & -> & Hc).
  destruct (np_min_spec x_coords Hx) as (d & -> & Hd).
  simpl bind.
  rewrite (is_max_unique _ _ _ Ha Hyhi), (is_min_unique _ _ _ Hb Hylo),
    (is_max_unique _ _ _ Hc Hxhi), (is_min_unique _ _ _ Hd Hxlo).
  reflexivity.
Qed.

(** C7, on the float64 values the code computes. For non-empty coordinate
    arrays, with [y_spread] and [x_spread] the largest minus the smallest
    coordinate divided by the size and [y_std] and [x_std] the value of
    [np.std] divided by the size, the classifier returns 'widespread' when
    both spreads exceed 0.7; otherwise 'concentrated' when both normalized
    standard deviations are below 0.15; otherwise 'localized' when either
    spread is below 0.3; otherwise 'scattered'. *)
Theorem classify_distribution_first_match_wins
    (np_std_float64 : list Z -> PrimFloat.float)
    (y_coords x_coords : list Z) (height width y_hi y_lo x_hi x_lo : Z) :
  y_coords <> [] -> x_coords <> [] ->
  is_max y_hi y_coords -> is_min y_lo y_coords ->
  is_max x_hi x_coords -> is_min x_lo x_coords ->
  let y_spread := PrimFloat.div (float_of_int (y_hi - y_lo)) (float_of_int height) in
  let x_spread := PrimFloat.div (float_of_int (x_hi - x_lo)) (float_of_int width) in
  let y_std := PrimFloat.div (np_std_float64 y_coords) (float_of_int height) in
  let x_std := PrimFloat.div (np_std_float64 x_coords) (float_of_int width) in
  let exceeds_07 s := PrimFloat.ltb float_0_7 s = true in
  let below_015 s := PrimFloat.ltb s float_0_15 = true in
  let below_03 s := PrimFloat.ltb s float_0_3 = true in
  let result := _classify_distribution_binary64 np_std_float64 y_coords x_coords height width in
  (exceeds_07 y_spread /\ exceeds_07 x_spread -> result = Ok "widespread")
  /\ (~ (exceeds_07 y_spread /\ exceeds_07 x_spread) ->
      below_015 y_std /\ below_015 x_std -> result = Ok "concentrated")
  /\ (~ (exceeds_07 y_spread /\ exceeds_07 x_spread) ->
      ~ (below_015 y_std /\ below_015 x_std) ->
      below_03 y_spread \/ below_03 x_spread -> result = Ok "localized")
  /\ (~ (exceeds_07 y_spread /\ exceeds_07 x_spread) ->
      ~ (below_015 y_std /\ below_015 x_std) ->
      ~ (below_03 y_spread \/ below_03 x_spread) -> result = Ok "scattered").
Proof.
  intros Hy Hx Hyhi Hylo Hxhi Hxlo y_spread x_spread y_std x_std exceeds_07 below_015
    below_03 result.
  assert (E : result
            = Ok (if PrimFloat.ltb float_0_7 y_spread
                     && PrimFloat.ltb float_0_7 x_spread then "widespread"
                  else if PrimFloat.ltb y_std float_0_15
                          && PrimFloat.ltb x_std float_0_15 then "concentrated"
                  else if PrimFloat.ltb y_spread float_0_3
                          || PrimFloat.ltb x_spread float_0_3 then "localized"
                  else "scattered")).
  { unfold result, _classify_distribution_binary64.
    destruct (np_max_spec y_coords Hy) as (a & -> & Ha).
    destruct (np_min_spec y_coords Hy) as (b & -> & Hb).
    destruct (np_max_spec x_coords Hx) as (c & -> & Hc).
    destruct (np_min_spec x_coords Hx) as (d & -> & Hd).
    rewrite (is_max_unique _ _ _ Ha Hyhi), (is_min_unique _ _ _ Hb Hylo),
      (is_max_unique _ _ _ Hc Hxhi), (is_min_unique _ _ _ Hd Hxlo).
    destruct y_coords; [congruence |]. reflexivity. }
  rewrite E. unfold exceeds_07, below_015, below_03.
  destruct (PrimFloat.ltb float_0_7 y_spread);
    destruct (PrimFloat.ltb float_0_7 x_spread);
    destruct (PrimFloat.ltb y_std float_0_15);
    destruct (PrimFloat.ltb x_std float_0_15);
    destruct (PrimFloat.ltb y_spread float_0_3);
    destruct (PrimFloat.ltb x_spread float_0_3);
    cbn [andb orb]; repeat split; intros; try reflexivity; exfalso;
    repeat match goal with
           | H : ~ _ |- _ => apply H; clear H
           | H : _ /\ _ |- _ => destruct H
           | H : _ \/ _ |- _ => destruct H
           end; try discriminate; auto.
Qed.

(** The standard deviation of two values is half their distance. *)
Lemma np_std_pair (a b : Z) : np_std [a; b] = Rabs (IZR a - IZR b) / 2.
Proof.
  unfold np_std, np_mean, Rsum. simpl.
  replace ((0 + Rabs (IZR a - (0 + IZR a + IZR b) / (1 + 1))
                * (Rabs (IZR a - (0 + IZR a + IZR b) / (1 + 1)) * 1)
            + Rabs (IZR b - (0 + IZR a + IZR b) / (1 + 1))
                * (Rabs (IZR b - (0 + IZR a + IZR b) / (1 + 1)) * 1)) / (1 + 1))
    with ((Rabs (IZR a - IZR b) / 2) * (Rabs (IZR a - IZR b) / 2)).
  - apply sqrt_square. pose proof (Rabs_pos (IZR a - IZR b)). lra.
  - replace (IZR a - (0 + IZR a + IZR b) / (1 + 1)) with ((IZR a - IZR b) / 2) by field.
    replace (IZR b - (0 + IZR a + IZR b) / (1 + 1)) with (- ((IZR a - IZR b) / 2)) by field.
    rewrite Rabs_Ropp.
    replace (Rabs ((IZR a - IZR b) / 2)) with (Rabs (IZR a - IZR b) / 2).
    + field.
    + unfold Rdiv. rewrite Rabs_mult. f_equal. symmetry. apply Rabs_pos_eq. lra.
Qed.

Lemma spread_is_pair (a b size : Z) :
  (a <= b)%Z -> spread_is [a; b] size (IZR (b - a) / IZR size).
Proof.
  intros Hab. exists b, a. repeat split.
  - right. now left.
  - intros v [<-|[<-|[]]]; lia.
  - now left.
  - intros v [<-|[<-|[]]]; lia.
Qed.

Lemma is_max_pair (a b : Z) : (a <= b)%Z -> is_max b [a; b].
Proof.
  intros H. split; [simpl; auto |]. intros v [<- | [<- | []]]; lia.
Qed.

Lemma is_min_pair (a b : Z) : (a <= b)%Z -> is_min a [a; b].
Proof.
  intros H. split; [simpl; auto |]. intros v [<- | [<- | []]]; lia.
Qed.

(** C7 at four pairs of pixels of a 10 x 10 image, one for each class, and
    at nine pixels of a 40 x 40 image whose exact standard deviation of rows
    over the height is 0.15 while the float64 value is below it, with
    [std_left_to_right] for [np.std]. *)
Lemma classify_distribution_first_match_wins_witness :
  _classify_distribution_binary64 std_left_to_right [0; 9]%Z [0; 9]%Z 10 10 = Ok "widespread"
  /\ _classify_distribution_binary64 std_left_to_right [0; 1]%Z [0; 1]%Z 10 10
     = Ok "concentrated"
  /\ _classify_distribution_binary64 std_left_to_right [0; 0]%Z [0; 9]%Z 10 10
     = Ok "localized"
  /\ _classify_distribution_binary64 std_left_to_right [0; 5]%Z [0; 5]%Z 10 10
     = Ok "scattered"
  /\ _classify_distribution_binary64 std_left_to_right
       [0; 0; 0; 0; 2; 3; 4; 4; 20]%Z [0; 1; 2; 3; 0; 0; 0; 1; 0]%Z 40 40
     = Ok "concentrated".
Proof.
  assert (Hne : forall a b : Z, [a; b] <> []) by discriminate.
  assert (M9 := is_max_pair 0 9 ltac:(lia)). assert (N9 := is_min_pair 0 9 ltac:(lia)).
  assert (M1 := is_max_pair 0 1 ltac:(lia)). assert (N1 := is_min_pair 0 1 ltac:(lia)).
  assert (M0 := is_max_pair 0 0 ltac:(lia)). assert (N0 := is_min_pair 0 0 ltac:(lia)).
  assert (M5 := is_max_pair 0 5 ltac:(lia)). assert (N5 := is_min_pair 0 5 ltac:(lia)).
  assert (MY : is_max 20%Z [0; 0; 0; 0; 2; 3; 4; 4; 20]%Z)
    by (split; [simpl; tauto | intros v Hv; simpl in Hv; lia]).
  assert (NY : is_min 0%Z [0; 0; 0; 0; 2; 3; 4; 4; 20]%Z)
    by (split; [simpl; tauto | intros v Hv; simpl in Hv; lia]).
  assert (MX : is_max 3%Z [0; 1; 2; 3; 0; 0; 0; 1; 0]%Z)
    by (split; [simpl; tauto | intros v Hv; simpl in Hv; lia]).
  assert (NX : is_min 0%Z [0; 1; 2; 3; 0; 0; 0; 1; 0]%Z)
    by (split; [simpl; tauto | intros v Hv; simpl in Hv; lia]).
  split; [| split; [| split; [| split]]].
  - apply (classify_distribution_first_match_wins std_left_to_right _ _ 10 10 _ _ _ _
             (Hne _ _) (Hne _ _) M9 N9 M9 N9).
    split; vm_compute; reflexivity.
  - apply (classify_distribution_first_match_wins std_left_to_right _ _ 10 10 _ _ _ _
             (Hne _ _) (Hne _ _) M1 N1 M1 N1).
    + intros [H _]. vm_compute in H. discriminate H.
    + split; vm_compute; reflexivity.
  - apply (classify_distribution_first_match_wins std_left_to_right _ _ 10 10 _ _ _ _
             (Hne _ _) (Hne _ _) M0 N0 M9 N9).
    + intros [H _]. vm_compute in H. discriminate H.
    + intros [_ H]. vm_compute in H. discriminate H.
    + left. vm_compute. reflexivity.
  - apply (classify_distribution_first_match_wins std_left_to_right _ _ 10 10 _ _ _ _
             (Hne _ _) (Hne _ _) M5 N5 M5 N5).
    + intros [H _]. vm_compute in H. discriminate H.
    + intros [H _]. vm_compute in H. discriminate H.
    + intros [H | H]; vm_compute in H; discriminate H.
  - assert (HY : [0; 0; 0; 0; 2; 3; 4; 4; 20]%Z <> []) by discriminate.
    assert (HX : [0; 1; 2; 3; 0; 0; 0; 1; 0]%Z <> []) by discriminate.
    apply (classify_distribution_first_match_wins std_left_to_right _ _ 40 40 _ _ _ _
             HY HX MY NY MX NX).
    + intros [H _]. vm_compute in H. discriminate H.
    + split; vm_compute; reflexivity.
Defined.


(** The exact reading of [np.std] parts from the float64 value at that
    boundary: over the reals the normalized standard deviation of the rows
    is 0.15, not below it. *)
Lemma np_std_exact_boundary : np_std [0; 0; 0; 0; 2; 3; 4; 4; 20]%Z / IZR 40 = 0.15.
Proof.
  assert (E : np_std [0; 0; 0; 0; 2; 3; 4; 4; 20]%Z = 6).
  { unfold np_std, np_mean, Rsum. cbn [map fold_left List.length INR].
    rewrite !pow2_abs.
    replace (sqrt _) with (sqrt (6 * 6)); [apply sqrt_square; lra |].
    f_equal. simpl. field. }
  rewrite E. lra.
Qed.

(** ** Spatial analysis: regional coverage *)

(** The three bands of an axis in integer terms. *)
Lemma low_band_exact (c size : Z) :
  flt exact (of_int exact c) (fdiv exact (of_int exact size) (of_int exact 3))
  = (3 * c <? size)%Z.
Proof.
  unfold exact; cbn [flt fge of_int fdiv]. destruct (Z.ltb_spec (3 * c) size) as [H|H].
  - apply Rltb_true. apply IZR_lt in H. rewrite mult_IZR in H. lra.
  - apply Rltb_false. apply IZR_le in H. rewrite mult_IZR in H. lra.
Qed.

Lemma high_band_exact (c size : Z) :
  fge exact (of_int exact c) (fdiv exact (of_int exact (2 * size)) (of_int exact 3))
  = (2 * size <=? 3 * c)%Z.
Proof.
  unfold exact; cbn [flt fge of_int fdiv]. destruct (Z.leb_spec (2 * size) (3 * c)) as [H|H].
  - apply Rleb_true. apply IZR_le in H. rewrite !mult_IZR in H. rewrite mult_IZR. lra.
  - apply Rleb_false. apply IZR_lt in H. rewrite !mult_IZR in H. rewrite mult_IZR. lra.
Qed.

Lemma mid_band_exact (c size : Z) :
  fge exact (of_int exact c) (fdiv exact (of_int exact size) (of_int exact 3))
  && flt exact (of_int exact c) (fdiv exact (of_int exact (2 * size)) (of_int exact 3))
  = ((size <=? 3 * c) && (3 * c <? 2 * size))%Z.
Proof.
  unfold exact; cbn [flt fge of_int fdiv]. f_equal.
  - destruct (Z.leb_spec size (3 * c)) as [H|H].
    + apply Rleb_true. apply IZR_le in H. rewrite mult_IZR in H. lra.
    + apply Rleb_false. apply IZR_lt in H. rewrite mult_IZR in H. lra.
  - destruct (Z.ltb_spec (3 * c) (2 * size)) as [H|H].
    + apply Rltb_true. apply IZR_lt in H. rewrite !mult_IZR in H. rewrite mult_IZR. lra.
    + apply Rltb_false. apply IZR_le in H. rewrite !mult_IZR in H. rewrite mult_IZR. lra.
Qed.

Lemma low_mask_exact (coords : list Z) (size : Z) :
  low_mask exact coords size = map (fun c => (3 * c <? size)%Z) coords.
Proof. unfold low_mask. apply map_ext. intros c. apply low_band_exact. Qed.

Lemma mid_mask_exact (coords : list Z) (size : Z) :
  mid_mask exact coords size
  = map (fun c => ((size <=? 3 * c) && (3 * c <? 2 * size))%Z) coords.
Proof. unfold mid_mask. apply map_ext. intros c. apply mid_band_exact. Qed.

Lemma high_mask_exact (coords : list Z) (size : Z) :
  high_mask exact coords size = map (fun c => (2 * size <=? 3 * c)%Z) coords.
Proof. unfold high_mask. apply map_ext. intros c. apply high_band_exact. Qed.

Lemma np_sum_mask_cons (b : bool) (mask : list bool) :
  np_sum_mask (b :: mask) = ((if b then 1 else 0) + np_sum_mask mask)%Z.
Proof. unfold np_sum_mask. destruct b; simpl List.length; lia. Qed.

Lemma np_sum_mask_bounds (mask : list bool) :
  (0 <= np_sum_mask mask <= Z.of_nat (List.length mask))%Z.
Proof.
  unfold np_sum_mask. pose proof (filter_length_le (fun b : bool => b) mask). lia.
Qed.

(** Each coordinate of an axis of non-negative length lies in exactly one band. *)
Lemma bands_partition (coords : list Z) (size : Z) :
  (0 <= size)%Z ->
  (np_sum_mask (low_mask exact coords size) + np_sum_mask (mid_mask exact coords size)
   + np_sum_mask (high_mask exact coords size) = Z.of_nat (List.length coords))%Z.
Proof.
  intros Hs. rewrite low_mask_exact, mid_mask_exact, high_mask_exact.
  induction coords as [|c t IH]; [reflexivity |].
  cbn [map]. rewrite !np_sum_mask_cons. cbn [List.length].
  destruct (Z.ltb_spec (3 * c) size); destruct (Z.leb_spec size (3 * c));
    destruct (Z.ltb_spec (3 * c) (2 * size)); destruct (Z.leb_spec (2 * size) (3 * c));
    cbn [andb]; lia.
Qed.

Lemma mask_percentage_range (mask : list bool) (total : Z) :
  (0 < total)%Z -> (Z.of_nat (List.length mask) <= total)%Z ->
  0 <= mask_percentage exact mask total <= 100.
Proof.
  intros Ht Hlen. unfold mask_percentage, exact; cbn [fmul fdiv of_int].
  pose proof (np_sum_mask_bounds mask) as [H0 H1].
  assert (Hn : (np_sum_mask mask <= total)%Z) by lia.
  apply IZR_le in H0, Hn. apply IZR_lt in Ht.
  assert (Hq : 0 <= IZR (np_sum_mask mask) / IZR total <= 1).
  { split.
    - apply Rmult_le_pos; [exact H0 | left; apply Rinv_0_lt_compat; exact Ht].
    - apply (Rmult_le_reg_r (IZR total)); [exact Ht |].
      unfold Rdiv. rewrite Rmult_assoc, Rinv_l by lra. lra. }
  lra.
Qed.

Lemma mask_percentages_sum (a b c total : Z) :
  (0 < total)%Z -> (a + b + c = total)%Z ->
  IZR a / IZR total * 100 + IZR b / IZR total * 100 + IZR c / IZR total * 100 = 100.
Proof.
  intros Ht <-. apply IZR_lt in Ht. rewrite !plus_IZR in *. field. lra.
Qed.

Lemma regional_coverage_nonempty
    (y_coords x_coords : list Z) (height width : Z) :
  y_coords <> [] -> List.length x_coords = List.length y_coords ->
  (0 <= height)%Z -> (0 <= width)%Z ->
  let coverage := _analyze_regional_coverage y_coords x_coords height width in
  Coverage.top coverage + Coverage.middle coverage + Coverage.bottom coverage = 100
  /\ Coverage.left coverage + Coverage.center coverage + Coverage.right coverage = 100
  /\ 0 <= Coverage.top coverage <= 100
  /\ 0 <= Coverage.middle coverage <= 100
  /\ 0 <= Coverage.bottom coverage <= 100
  /\ 0 <= Coverage.left coverage <= 100
  /\ 0 <= Coverage.center coverage <= 100
  /\ 0 <= Coverage.right coverage <= 100.
Proof.
  intros Hne Hlen Hh Hw.
  unfold _analyze_regional_coverage, analyze_regional_coverage.
  destruct y_coords as [|y0 yt] eqn:Ey; [congruence |]. rewrite <- Ey in *.
  replace (List.length y_coords =? 0)%nat with false by (rewrite Ey; reflexivity).
  assert (Ht : (0 < Z.of_nat (List.length y_coords))%Z) by (rewrite Ey; simpl; lia).
  cbn [Coverage.top Coverage.middle Coverage.bottom
       Coverage.left Coverage.center Coverage.right].
  split; [| split].
  - unfold mask_percentage. change (fmul exact) with Rmult.
    change (fdiv exact) with Rdiv. change (of_int exact) with IZR.
    apply mask_percentages_sum; [exact Ht | apply bands_partition, Hh].
  - unfold mask_percentage. change (fmul exact) with Rmult.
    change (fdiv exact) with Rdiv. change (of_int exact) with IZR.
    apply mask_percentages_sum; [exact Ht |].
    rewrite <- Hlen. apply bands_partition, Hw.
  - repeat split; apply mask_percentage_range; try exact Ht;
      unfold low_mask, mid_mask, high_mask; rewrite length_map; lia.
Qed.

(** C10, in exact arithmetic. For an empty coordinate array all six values
    are 0.  For non-empty coordinate arrays of equal length and non-negative
    image sizes, each coordinate lies in exactly one of the three bands of its
    axis (the band counts add up to the number of matching pixels), so that
    top + middle + bottom = 100 and left + center + right = 100, and each of
    the six values lies in [0, 100]. *)
Theorem regional_coverage_sums_to_100_exactly :
  (forall x_coords height width,
      _analyze_regional_coverage [] x_coords height width = Coverage.mk 0 0 0 0 0 0)
  /\ (forall y_coords x_coords height width,
        y_coords <> [] -> List.length x_coords = List.length y_coords ->
        (0 <= height)%Z -> (0 <= width)%Z ->
        let coverage := _analyze_regional_coverage y_coords x_coords height width in
        (np_sum_mask (low_mask exact y_coords height)
         + np_sum_mask (mid_mask exact y_coords height)
         + np_sum_mask (high_mask exact y_coords height)
         = Z.of_nat (List.length y_coords))%Z
        /\ (np_sum_mask (low_mask exact x_coords width)
            + np_sum_mask (mid_mask exact x_coords width)
            + np_sum_mask (high_mask exact x_coords width)
            = Z.of_nat (List.length x_coords))%Z
        /\ Coverage.top coverage + Coverage.middle coverage + Coverage.bottom coverage = 100
        /\ Coverage.left coverage + Coverage.center coverage + Coverage.right coverage = 100
        /\ 0 <= Coverage.top coverage <= 100
        /\ 0 <= Coverage.middle coverage <= 100
        /\ 0 <= Coverage.bottom coverage <= 100
        /\ 0 <= Coverage.left coverage <= 100
        /\ 0 <= Coverage.center coverage <= 100
        /\ 0 <= Coverage.right coverage <= 100).
Proof.
  split; [reflexivity |].
  intros y_coords x_coords height width Hne Hlen Hh Hw coverage.
  split; [apply bands_partition, Hh |].
  split; [apply bands_partition, Hw |].
  apply regional_coverage_nonempty; assumption.
Qed.

(** C10 at three pixels on the diagonal of a 3 x 3 image. *)
Lemma regional_coverage_sums_to_100_exactly_witness :
  let coverage := _analyze_regional_coverage [0; 1; 2]%Z [0; 1; 2]%Z 3 3 in
  Coverage.top coverage + Coverage.middle coverage + Coverage.bottom coverage = 100
  /\ Coverage.left coverage + Coverage.center coverage + Coverage.right coverage = 100.
Proof.
  intros coverage.
  assert (Hne : [0; 1; 2]%Z <> []) by discriminate.
  assert (Hlen : List.length [0; 1; 2]%Z = List.length [0; 1; 2]%Z) by reflexivity.
  assert (H3 : (0 <= 3)%Z) by lia.
  pose proof (proj2 regional_coverage_sums_to_100_exactly
                [0; 1; 2]%Z [0; 1; 2]%Z 3%Z 3%Z Hne Hlen H3 H3) as H.
  split; [exact (proj1 (proj2 (proj2 H))) | exact (proj1 (proj2 (proj2 (proj2 H))))].
Defined.

(** C10 fails as stated, on the float64 values the code computes: for the
    same three pixels every band holds one pixel of three, each value is
    [1 / 3 * 100] in binary64, and the three add up to less than 100. *)
Lemma regional_coverage_binary64_sum_below_100 :
  let coverage := _analyze_regional_coverage_binary64 [0; 1; 2]%Z [0; 1; 2]%Z 3 3 in
  let hundred := float_of_int 100 in
  let third := PrimFloat.mul (PrimFloat.div (float_of_int 1) (float_of_int 3)) hundred in
  PrimFloat.eqb (Coverage.top coverage) third = true
  /\ PrimFloat.eqb (Coverage.middle coverage) third = true
  /\ PrimFloat.eqb (Coverage.bottom coverage) third = true
  /\ PrimFloat.eqb
       (PrimFloat.add (PrimFloat.add (Coverage.top coverage) (Coverage.middle coverage))
                      (Coverage.bottom coverage)) hundred = false
  /\ PrimFloat.ltb
       (PrimFloat.add (PrimFloat.add (Coverage.top coverage) (Coverage.middle coverage))
                      (Coverage.bottom coverage)) hundred = true
  /\ PrimFloat.ltb
       (PrimFloat.add (PrimFloat.add (Coverage.left coverage) (Coverage.center coverage))
                      (Coverage.right coverage)) hundred = true.
Proof. vm_compute. repeat split. Qed.

(** X1. The regions of a non-empty pixel set are never "Throughout the image":
    the three vertical values add up to 100, so one of them exceeds 20 and
    [_find_primary_areas] never falls back to ['scattered']. *)
Theorem nonempty_cluster_never_throughout
    (y_coords x_coords : list Z) (height width : Z) :
  y_coords <> [] -> List.length x_coords = List.length y_coords ->
  (0 <= height)%Z -> (0 <= width)%Z ->
  let coverage := _analyze_regional_coverage y_coords x_coords height width in
  _find_primary_areas coverage <> ["scattered"]
  /\ _describe_regions coverage (_find_primary_areas coverage) <> ["Throughout the image"].
Proof.
  intros Hne Hlen Hh Hw coverage.
  destruct (regional_coverage_nonempty y_coords x_coords height width Hne Hlen Hh Hw)
    as (Hsum & _).
  fold coverage in Hsum. clearbody coverage.
  assert (Hone : Rltb 20 (Coverage.top coverage) = true
                 \/ Rltb 20 (Coverage.middle coverage) = true
                 \/ Rltb 20 (Coverage.bottom coverage) = true).
  { destruct (Rlt_dec 20 (Coverage.top coverage)) as [H|H];
      [left; apply Rltb_true, H |].
    destruct (Rlt_dec 20 (Coverage.middle coverage)) as [H'|H'];
      [right; left; apply Rltb_true, H' |].
    right; right. apply Rltb_true. lra. }
  unfold _find_primary_areas.
  destruct (Rltb 20 (Coverage.top coverage)), (Rltb 20 (Coverage.middle coverage)),
    (Rltb 20 (Coverage.bottom coverage));
    try (split; discriminate).
  destruct Hone as [H|[H|H]]; discriminate H.
Qed.

(** The same at three pixels on the diagonal of a 3 x 3 image. *)
Lemma nonempty_cluster_never_throughout_witness :
  let coverage := _analyze_regional_coverage [0; 1; 2]%Z [0; 1; 2]%Z 3 3 in
  _find_primary_areas coverage <> ["scattered"]
  /\ _describe_regions coverage (_find_primary_areas coverage) <> ["Throughout the image"].
Proof.
  assert (Hne : [0; 1; 2]%Z <> []) by discriminate.
  assert (Hlen : List.length [0; 1; 2]%Z = List.length [0; 1; 2]%Z) by reflexivity.
  assert (H3 : (0 <= 3)%Z) by lia.
  exact (nonempty_cluster_never_throughout [0; 1; 2]%Z [0; 1; 2]%Z 3 3 Hne Hlen H3 H3).
Defined.

(** ** Spatial analysis: a cluster that fills the image *)

Lemma In_range (v n : Z) : In v (range n) <-> (0 <= v < n)%Z.
Proof.
  unfold range. rewrite in_map_iff. split.
  - intros (k & <- & Hk). apply in_seq in Hk. lia.
  - intros Hv. exists (Z.to_nat v). split; [lia |]. apply in_seq. lia.
Qed.

Lemma range_length (n : Z) : List.length (range n) = Z.to_nat n.
Proof. unfold range. now rewrite length_map, length_seq. Qed.

Lemma combine_repeat {A B : Type} (l : list A) (b : B) :
  combine l (repeat b (List.length l)) = map (fun a => (a, b)) l.
Proof. induction l as [|a t IH]; simpl; [reflexivity | now rewrite IH]. Qed.

Lemma enumerate_repeat {A : Type} (a : A) (n : nat) :
  enumerate (repeat a n) = map (fun i => (i, a)) (range (Z.of_nat n)).
Proof.
  unfold enumerate. rewrite repeat_length.
  rewrite <- (combine_repeat (range (Z.of_nat n)) a).
  now rewrite range_length, Nat2Z.id.
Qed.

Lemma chunks_repeat {A : Type} (a : A) (h w : nat) :
  chunks h w (repeat a (h * w)) = repeat (repeat a w) h.
Proof.
  induction h as [|h IH]; simpl; [reflexivity |].
  rewrite repeat_app.
  rewrite firstn_app, firstn_all2, repeat_length, Nat.sub_diag, firstn_O, app_nil_r
    by (rewrite repeat_length; lia).
  rewrite skipn_app, skipn_all2, repeat_length, Nat.sub_diag
    by (rewrite repeat_length; lia).
  simpl. now rewrite IH.
Qed.

Lemma flat_map_map {A B C : Type} (f : B -> list C) (g : A -> B) (l : list A) :
  flat_map f (map g l) = flat_map (fun a => f (g a)) l.
Proof. induction l as [|a t IH]; simpl; [reflexivity | now rewrite IH]. Qed.

Lemma filter_all {A : Type} (f : A -> bool) (l : list A) :
  (forall a, In a l -> f a = true) -> filter f l = l.
Proof.
  induction l as [|a t IH]; intros H; simpl; [reflexivity |].
  rewrite (H a (or_introl eq_refl)). f_equal. apply IH. intros b Hb. apply H. now right.
Qed.

(** [np.where] of an all-[True] mask lists every pixel, row by row. *)
Lemma np_where_full (h w : nat) :
  np_where (repeat (repeat true w) h)
  = (map fst (list_prod (range (Z.of_nat h)) (range (Z.of_nat w))),
     map snd (list_prod (range (Z.of_nat h)) (range (Z.of_nat w)))).
Proof.
  unfold np_where. rewrite enumerate_repeat, flat_map_map. cbn [fst snd].
  rewrite enumerate_repeat.
  rewrite filter_all by (intros xb Hx; apply in_map_iff in Hx; destruct Hx as (x & <- & _); reflexivity).
  rewrite list_prod_as_flat_map.
  f_equal; f_equal; apply flat_map_ext; intros y; rewrite map_map; reflexivity.
Qed.

Lemma np_any_full (h w : nat) :
  (0 < h)%nat -> (0 < w)%nat -> np_any (repeat (repeat true w) h) = true.
Proof. destruct h, w; try lia. reflexivity. Qed.

Lemma np_sum_mask_app (m1 m2 : list bool) :
  np_sum_mask (m1 ++ m2) = (np_sum_mask m1 + np_sum_mask m2)%Z.
Proof. unfold np_sum_mask. rewrite filter_app, length_app. lia. Qed.

Lemma np_sum_mask_repeat (b : bool) (n : nat) :
  np_sum_mask (repeat b n) = if b then Z.of_nat n else 0%Z.
Proof.
  induction n as [|n IH]; [now destruct b |].
  cbn [repeat]. rewrite np_sum_mask_cons, IH. destruct b; lia.
Qed.

(** A mask that only looks at the row index holds each row's value once per column. *)
Lemma np_sum_mask_rows (f : Z -> bool) (ys xs : list Z) :
  np_sum_mask (map f (map fst (list_prod ys xs)))
  = (Z.of_nat (List.length xs) * np_sum_mask (map f ys))%Z.
Proof.
  rewrite fst_list_prod.
  induction ys as [|y t IH]; [cbn; lia |].
  cbn [flat_map map]. rewrite map_app, np_sum_mask_app, IH, map_repeat,
    np_sum_mask_repeat, np_sum_mask_cons.
  destruct (f y); lia.
Qed.

(** Rows below a bound, and rows from a bound on, among the first [m] rows. *)
Lemma count_rows_below (k : Z) (m : nat) :
  np_sum_mask (map (fun c => (c <? k)%Z) (map Z.of_nat (seq 0 m)))
  = Z.max 0 (Z.min (Z.of_nat m) k).
Proof.
  induction m as [|m IH]; [cbn; lia |].
  rewrite seq_S, !map_app, np_sum_mask_app, IH. cbn [map Nat.add].
  rewrite np_sum_mask_cons. change (np_sum_mask []) with 0%Z.
  destruct (Z.ltb_spec (Z.of_nat m) k); lia.
Qed.

Lemma count_rows_from (k : Z) (m : nat) :
  np_sum_mask (map (fun c => (k <=? c)%Z) (map Z.of_nat (seq 0 m)))
  = (Z.of_nat m - Z.max 0 (Z.min (Z.of_nat m) k))%Z.
Proof.
  induction m as [|m IH]; [cbn; lia |].
  rewrite seq_S, !map_app, np_sum_mask_app, IH. cbn [map Nat.add].
  rewrite np_sum_mask_cons. change (np_sum_mask []) with 0%Z.
  destruct (Z.leb_spec k (Z.of_nat m)); lia.
Qed.

(** The three band counts of the rows of a full image of height [H]. *)
Lemma full_rows_low (H : Z) :
  (1 <= H)%Z -> np_sum_mask (low_mask exact (range H) H) = ((H + 2) / 3)%Z.
Proof.
  intros HH. rewrite low_mask_exact.
  rewrite (map_ext _ (fun c => (c <? (H + 2) / 3)%Z)).
  - unfold range. rewrite count_rows_below. Z.div_mod_to_equations. lia.
  - intros c. destruct (Z.ltb_spec (3 * c) H), (Z.ltb_spec c ((H + 2) / 3));
      try reflexivity; exfalso; Z.div_mod_to_equations; lia.
Qed.

Lemma full_rows_high (H : Z) :
  (1 <= H)%Z -> np_sum_mask (high_mask exact (range H) H) = (H - (2 * H + 2) / 3)%Z.
Proof.
  intros HH. rewrite high_mask_exact.
  rewrite (map_ext _ (fun c => ((2 * H + 2) / 3 <=? c)%Z)).
  - unfold range. rewrite count_rows_from. Z.div_mod_to_equations. lia.
  - intros c. destruct (Z.leb_spec (2 * H) (3 * c)), (Z.leb_spec ((2 * H + 2) / 3) c);
      try reflexivity; exfalso; Z.div_mod_to_equations; lia.
Qed.

Lemma full_rows_mid (H : Z) :
  (1 <= H)%Z ->
  np_sum_mask (mid_mask exact (range H) H) = ((2 * H + 2) / 3 - (H + 2) / 3)%Z.
Proof.
  intros HH.
  pose proof (bands_partition (range H) H ltac:(lia)) as P.
  rewrite full_rows_low, full_rows_high, range_length in P by exact HH. lia.
Qed.

(** A percentage exceeds 20 when five times the count exceeds the total. *)
Lemma mask_percentage_gt_20 (mask : list bool) (total : Z) :
  (0 < total)%Z ->
  Rltb 20 (mask_percentage exact mask total) = (total <? 5 * np_sum_mask mask)%Z.
Proof.
  intros Ht. unfold mask_percentage.
  change (fmul exact) with Rmult. change (fdiv exact) with Rdiv.
  change (of_int exact) with IZR.
  set (a := np_sum_mask mask).
  assert (HT : 0 < IZR total) by (apply IZR_lt in Ht; exact Ht).
  assert (Hq : IZR a / IZR total * IZR total = IZR a) by (field; lra).
  destruct (Z.ltb_spec total (5 * a)) as [H|H].
  - apply Rltb_true. apply IZR_lt in H. rewrite mult_IZR in H.
    destruct (Rlt_dec 20 (IZR a / IZR total * 100)) as [Hlt|Hge]; [exact Hlt | exfalso].
    assert (IZR a / IZR total * 100 * IZR total <= 20 * IZR total)
      by (apply Rmult_le_compat_r; lra).
    lra.
  - apply Rltb_false. apply IZR_le in H. rewrite mult_IZR in H.
    destruct (Rle_dec (IZR a / IZR total * 100) 20) as [Hle|Hgt]; [exact Hle | exfalso].
    assert (20 * IZR total < IZR a / IZR total * 100 * IZR total)
      by (apply Rmult_lt_compat_r; lra).
    lra.
Qed.

Lemma full_rows_is_max (H W : Z) :
  (1 <= H)%Z -> (1 <= W)%Z -> is_max (H - 1) (map fst (list_prod (range H) (range W))).
Proof.
  intros HH HW. split.
  - apply in_map_iff. exists ((H - 1)%Z, 0%Z). split; [reflexivity |].
    apply in_prod_iff. rewrite !In_range. lia.
  - intros v Hv. apply in_map_iff in Hv. destruct Hv as ([y x] & <- & Hyx).
    apply in_prod_iff in Hyx. rewrite !In_range in Hyx. simpl. lia.
Qed.

Lemma full_rows_is_min (H W : Z) :
  (1 <= H)%Z -> (1 <= W)%Z -> is_min 0 (map fst (list_prod (range H) (range W))).
Proof.
  intros HH HW. split.
  - apply in_map_iff. exists (0%Z, 0%Z). split; [reflexivity |].
    apply in_prod_iff. rewrite !In_range. lia.
  - intros v Hv. apply in_map_iff in Hv. destruct Hv as ([y x] & <- & Hyx).
    apply in_prod_iff in Hyx. rewrite !In_range in Hyx. simpl. lia.
Qed.

Lemma full_columns_is_max (H W : Z) :
  (1 <= H)%Z -> (1 <= W)%Z -> is_max (W - 1) (map snd (list_prod (range H) (range W))).
Proof.
  intros HH HW. split.
  - apply in_map_iff. exists (0%Z, (W - 1)%Z). split; [reflexivity |].
    apply in_prod_iff. rewrite !In_range. lia.
  - intros v Hv. apply in_map_iff in Hv. destruct Hv as ([y x] & <- & Hyx).
    apply in_prod_iff in Hyx. rewrite !In_range in Hyx. simpl. lia.
Qed.

Lemma full_columns_is_min (H W : Z) :
  (1 <= H)%Z -> (1 <= W)%Z -> is_min 0 (map snd (list_prod (range H) (range W))).
Proof.
  intros HH HW. split.
  - apply in_map_iff. exists (0%Z, 0%Z). split; [reflexivity |].
    apply in_prod_iff. rewrite !In_range. lia.
  - intros v Hv. apply in_map_iff in Hv. destruct Hv as ([y x] & <- & Hyx).
    apply in_prod_iff in Hyx. rewrite !In_range in Hyx. simpl. lia.
Qed.

(** From four pixels on, a full axis has a spread above 0.7. *)
Lemma full_axis_spread (n : Z) : (4 <= n)%Z -> 0.7 < IZR (n - 1 - 0) / IZR n.
Proof.
  intros Hn. apply IZR_le in Hn.
  replace (n - 1 - 0)%Z with (n - 1)%Z by lia. rewrite minus_IZR.
  apply (Rmult_lt_reg_r (IZR n)); [lra |].
  unfold Rdiv. rewrite Rmult_assoc, Rinv_l by lra. lra.
Qed.

Lemma scaled_ltb (H W k : Z) :
  (0 < W)%Z -> (H * W <? 5 * (W * k))%Z = (H <? 5 * k)%Z.
Proof.
  intros HW. destruct (Z.ltb_spec (H * W) (5 * (W * k))), (Z.ltb_spec H (5 * k));
    try reflexivity; exfalso; nia.
Qed.

(** The vertical coverage of a cluster that holds every pixel: the upper and
    the middle third always exceed 20, the lower third does unless the
    image has exactly five rows (one row of five is exactly 20). *)
Lemma full_cluster_vertical_coverage (H W : Z) :
  (4 <= H)%Z -> (1 <= W)%Z ->
  let coverage :=
    _analyze_regional_coverage (map fst (list_prod (range H) (range W)))
                               (map snd (list_prod (range H) (range W))) H W in
  Rltb 20 (Coverage.top coverage) = true
  /\ Rltb 20 (Coverage.middle coverage) = true
  /\ Rltb 20 (Coverage.bottom coverage) = negb (H =? 5)%Z.
Proof.
  intros HH HW coverage. subst coverage.
  unfold _analyze_regional_coverage, analyze_regional_coverage.
  assert (Hn : Z.of_nat (List.length (map fst (list_prod (range H) (range W))))
               = (H * W)%Z).
  { rewrite length_map, length_prod, !range_length. nia. }
  assert (Hpos : (0 < H * W)%Z) by nia.
  destruct (List.length (map fst (list_prod (range H) (range W)))) as [|n] eqn:El;
    [simpl in Hn; lia |].
  cbn [Nat.eqb Coverage.top Coverage.middle Coverage.bottom]. rewrite Hn.
  rewrite !mask_percentage_gt_20 by exact Hpos.
  unfold low_mask, mid_mask, high_mask.
  rewrite !np_sum_mask_rows, range_length, Z2Nat.id by lia.
  fold (low_mask exact (range H) H) (mid_mask exact (range H) H)
       (high_mask exact (range H) H).
  rewrite full_rows_low, full_rows_mid, full_rows_high by lia.
  rewrite !scaled_ltb by lia.
  split; [| split].
  - apply Z.ltb_lt. Z.div_mod_to_equations. lia.
  - apply Z.ltb_lt. Z.div_mod_to_equations. lia.
  - destruct (Z.eqb_spec H 5) as [->|Hne]; cbn [negb].
    + reflexivity.
    + apply Z.ltb_lt. Z.div_mod_to_equations. lia.
Qed.

(** The analysis of a cluster that holds every pixel of an image with at
    least four rows and four columns. *)
Lemma full_cluster_location (img_array : ImgArray) (labels : list Z)
    (cluster_id : Z) (color : RGB) :
  (4 <= shape_height img_array)%Z -> (4 <= shape_width img_array)%Z ->
  Z.of_nat (List.length labels) = (shape_height img_array * shape_width img_array)%Z ->
  Forall (fun l => l = cluster_id) labels ->
  let info := _analyze_color_location img_array labels cluster_id color in
  distribution info = "widespread"
  /\ primary_areas info = (if (shape_height img_array =? 5)%Z
                           then ["top"; "middle"] else ["top"; "middle"; "bottom"])
  /\ regions info = (if (shape_height img_array =? 5)%Z
                     then ["Upper portion"; "Middle section"]
                     else ["Top and bottom edges"]).
Proof.
  set (H := shape_height img_array). set (W := shape_width img_array).
  intros HH HW Hlen Hall info. subst info.
  unfold _analyze_color_location, analyze_color_location_body.
  fold H W.
  assert (Elab : labels = repeat cluster_id (Z.to_nat H * Z.to_nat W)).
  { replace (Z.to_nat H * Z.to_nat W)%nat with (List.length labels) by nia.
    apply Forall_eq_repeat. eapply Forall_impl; [| exact Hall]. intros l ->. reflexivity. }
  unfold reshape. rewrite Hlen, Z.eqb_refl. cbn [bind].
  rewrite Elab, chunks_repeat, !map_repeat, Z.eqb_refl.
  rewrite np_any_full by lia. cbn [negb].
  rewrite np_where_full, !Z2Nat.id by lia.
  set (ys := map fst (list_prod (range H) (range W))).
  set (xs := map snd (list_prod (range H) (range W))).
  assert (Hys : ys <> []).
  { intros E. pose proof (full_rows_is_max H W ltac:(lia) ltac:(lia)) as [Hin _].
    fold ys in Hin. rewrite E in Hin. destruct Hin. }
  assert (Hxs : xs <> []).
  { intros E. pose proof (full_columns_is_max H W ltac:(lia) ltac:(lia)) as [Hin _].
    fold xs in Hin. rewrite E in Hin. destruct Hin. }
  rewrite (classify_distribution_decision ys xs H W
             (IZR (H - 1 - 0) / IZR H) (IZR (W - 1 - 0) / IZR W) Hys Hxs).
  2: { exists (H - 1)%Z, 0%Z. split; [apply full_rows_is_max; lia |].
       split; [apply full_rows_is_min; lia | reflexivity]. }
  2: { exists (W - 1)%Z, 0%Z. split; [apply full_columns_is_max; lia |].
       split; [apply full_columns_is_min; lia | reflexivity]. }
  replace (Rltb 0.7 (IZR (H - 1 - 0) / IZR H)) with true
    by (symmetry; apply Rltb_true, full_axis_spread, HH).
  replace (Rltb 0.7 (IZR (W - 1 - 0) / IZR W)) with true
    by (symmetry; apply Rltb_true, full_axis_spread, HW).
  cbn [andb bind distribution primary_areas regions].
  split; [reflexivity |].
  pose proof (full_cluster_vertical_coverage H W HH ltac:(lia)) as (Ht & Hm & Hb).
  fold ys xs in Ht, Hm, Hb.
  set (coverage := _analyze_regional_coverage ys xs H W) in *. clearbody coverage.
  assert (Hp : _find_primary_areas coverage
               = if (H =? 5)%Z then ["top"; "middle"] else ["top"; "middle"; "bottom"]).
  { unfold _find_primary_areas. rewrite Ht, Hm, Hb.
    destruct (H =? 5)%Z; reflexivity. }
  rewrite Hp. split; [reflexivity |].
  destruct (H =? 5)%Z; reflexivity.
Qed.

(** C8, as the code has it. For an image with at least four rows and four
    columns in which one cluster holds every pixel, the analysis of that
    cluster returns the distribution 'widespread'; every vertical third
    holds more than 20 percent of the pixels (the lower third exactly 20 for
    five rows), so the regions are ["Top and bottom edges"], and
    ["Upper portion", "Middle section"] for an image of five rows. *)
Theorem full_cluster_widespread_top_and_bottom (img_array : ImgArray) (labels : list Z)
    (cluster_id : Z) (color : RGB) :
  (4 <= shape_height img_array)%Z -> (4 <= shape_width img_array)%Z ->
  Z.of_nat (List.length labels) = (shape_height img_array * shape_width img_array)%Z ->
  Forall (fun l => l = cluster_id) labels ->
  let info := _analyze_color_location img_array labels cluster_id color in
  distribution info = "widespread"
  /\ regions info = (if (shape_height img_array =? 5)%Z
                     then ["Upper portion"; "Middle section"]
                     else ["Top and bottom edges"])
  /\ regions info <> ["Throughout the image"].
Proof.
  intros HH HW Hlen Hall info.
  destruct (full_cluster_location img_array labels cluster_id color HH HW Hlen Hall)
    as (Hd & _ & Hr).
  fold info in Hd, Hr.
  split; [exact Hd |]. split; [exact Hr |].
  rewrite Hr. destruct (shape_height img_array =? 5)%Z; discriminate.
Qed.

(** C8 at a solid red image of 4 x 4 pixels whose cluster 0 holds every pixel. *)
Lemma full_cluster_widespread_top_and_bottom_witness :
  let info := _analyze_color_location solid_red_4x4 (repeat 0%Z 16) 0 (255, 0, 0)%Z in
  distribution info = "widespread" /\ regions info = ["Top and bottom edges"].
Proof.
  intros info.
  assert (H4 : (4 <= 4)%Z) by lia.
  assert (Hlen : Z.of_nat (List.length (repeat 0%Z 16)) = (4 * 4)%Z) by reflexivity.
  assert (Hall : Forall (fun l => l = 0%Z) (repeat 0%Z 16)).
  { apply Forall_forall. intros l Hl. apply repeat_spec in Hl. exact Hl. }
  pose proof (full_cluster_widespread_top_and_bottom
                solid_red_4x4 (repeat 0%Z 16) 0%Z (255, 0, 0)%Z H4 H4 Hlen Hall) as H.
  split; [exact (proj1 H) | exact (proj1 (proj2 H))].
Defined.

(** C8 fails as stated: for the solid red image of 4 x 4 pixels the regions
    are ["Top and bottom edges"], not ["Throughout the image"]. *)
Lemma full_cluster_not_throughout :
  let info := _analyze_color_location solid_red_4x4 (repeat 0%Z 16) 0 (255, 0, 0)%Z in
  distribution info = "widespread"
  /\ regions info = ["Top and bottom edges"]
  /\ regions info <> ["Throughout the image"].
Proof.
  intros info.
  assert (H4 : (4 <= 4)%Z) by lia.
  assert (Hlen : Z.of_nat (List.length (repeat 0%Z 16)) = (4 * 4)%Z) by reflexivity.
  assert (Hall : Forall (fun l => l = 0%Z) (repeat 0%Z 16)).
  { apply Forall_forall. intros l Hl. apply repeat_spec in Hl. exact Hl. }
  destruct (full_cluster_location solid_red_4x4 (repeat 0%Z 16) 0%Z (255, 0, 0)%Z
              H4 H4 Hlen Hall) as (Hd & _ & Hr).
  fold info in Hd, Hr. change (shape_height solid_red_4x4 =? 5)%Z with false in Hr.
  split; [exact Hd |]. split; [exact Hr |]. rewrite Hr. discriminate.
Qed.

(** ** Extraction of the dominant colours *)

Section ExtractionFacts.
Context (lib : Libraries).

(** The [try] body returns exactly when every step returns. *)
Lemma extract_body_returns (image : PILImage lib) (num_colors max_size : Z)
    (color_info : list ExtractedColor.t) :
  extract_body lib image num_colors max_size = Ok color_info ->
  exists rgb_image small_image img_array kmeans all_labels,
    to_rgb lib image = Ok rgb_image
    /\ downscale lib rgb_image max_size = Ok small_image
    /\ np_array lib small_image = Ok img_array
    /\ KMeans_fit lib num_colors (cluster_input (pixel_rows img_array) num_colors)
       = Ok kmeans
    /\ predict kmeans (pixel_rows img_array) = Ok all_labels
    /\ color_info = color_info_of lib img_array kmeans all_labels.
Proof.
  unfold extract_body, bind.
  destruct (to_rgb lib image) as [im1|] eqn:E1; [| discriminate].
  destruct (downscale lib im1 max_size) as [im2|] eqn:E2; [| discriminate].
  destruct (np_array lib im2) as [arr|] eqn:E3; [| discriminate].
  destruct (KMeans_fit lib num_colors _) as [km|] eqn:E4; [| discriminate].
  destruct (predict km (pixel_rows arr)) as [labels|] eqn:E5; [| discriminate].
  intros [= <-]. exists im1, im2, arr, km, labels. auto 10.
Qed.

(** The [try] body raises exactly when one of its steps does. *)
Lemma extract_body_raises (image : PILImage lib) (num_colors max_size : Z) (e : exn) :
  extract_body lib image num_colors max_size = Raise e
  <-> step_raises lib image num_colors max_size e.
Proof.
  unfold extract_body, bind. split.
  - destruct (to_rgb lib image) as [im1|] eqn:E1;
      [| intros [= <-]; now apply convert_raises].
    destruct (downscale lib im1 max_size) as [im2|] eqn:E2;
      [| intros [= <-]; now apply (resize_raises lib _ _ _ _ im1)].
    destruct (np_array lib im2) as [arr|] eqn:E3;
      [| intros [= <-]; now apply (array_raises lib _ _ _ _ im1 im2)].
    destruct (KMeans_fit lib num_colors _) as [km|] eqn:E4;
      [| intros [= <-]; now apply (fit_raises lib _ _ _ _ im1 im2 arr)].
    destruct (predict km (pixel_rows arr)) as [labels|] eqn:E5;
      [discriminate | intros [= <-]; now apply (predict_raises lib _ _ _ _ im1 im2 arr km)].
  - intros [H1|im1 H1 H2|im1 im2 H1 H2 H3|im1 im2 arr H1 H2 H3 H4
            |im1 im2 arr km H1 H2 H3 H4 H5].
    + now rewrite H1.
    + now rewrite H1, H2.
    + now rewrite H1, H2, H3.
    + now rewrite H1, H2, H3, H4.
    + now rewrite H1, H2, H3, H4, H5.
Qed.

Lemma enumerate_length {A : Type} (l : list A) :
  List.length (enumerate l) = List.length l.
Proof.
  unfold enumerate. rewrite length_combine, range_length, Nat2Z.id. apply Nat.min_id.
Qed.

Lemma color_info_of_length (img_array : ImgArray) (kmeans : KMeans) (all_labels : list Z) :
  List.length (color_info_of lib img_array kmeans all_labels)
  = List.length (cluster_centers_ kmeans).
Proof.
  unfold color_info_of.
  rewrite (Permutation_length (sort_by_key_reverse_perm _ _)).
  unfold center_colors. now rewrite length_map, enumerate_length, length_map.
Qed.

Lemma color_info_of_descending (img_array : ImgArray) (kmeans : KMeans)
    (all_labels : list Z) :
  descending (map ExtractedColor.percentage
                  (color_info_of lib img_array kmeans all_labels)).
Proof.
  unfold color_info_of, descending.
  apply strongly_sorted_map with (rel := Rge). apply sort_by_key_reverse_sorted.
Qed.

Lemma count_label_bounds (labels : list Z) (i : Z) :
  (0 <= count_label labels i <= Z.of_nat (List.length labels))%Z.
Proof.
  unfold count_label.
  pose proof (np_sum_mask_bounds (map (fun l => (l =? i)%Z) labels)) as H.
  now rewrite length_map in H.
Qed.

Lemma color_entry_percentage (img_array : ImgArray) (all_labels filtered_labels : list Z)
    (ic : Z * RGB) :
  filtered_labels <> [] ->
  0 <= ExtractedColor.percentage
         (color_entry lib img_array all_labels filtered_labels
                      (Z.of_nat (List.length filtered_labels)) ic) <= 100.
Proof.
  intros Hne. destruct ic as [i [[c0 c1] c2]]. cbn [color_entry ExtractedColor.percentage].
  pose proof (count_label_bounds filtered_labels i) as [H0 H1].
  assert (Ht : (0 < Z.of_nat (List.length filtered_labels))%Z)
    by (destruct filtered_labels; [congruence | simpl; lia]).
  apply IZR_le in H0, H1. apply IZR_lt in Ht.
  set (c := IZR (count_label filtered_labels i)) in *.
  set (t := IZR (Z.of_nat (List.length filtered_labels))) in *.
  assert (Hq : 0 <= c / t <= 1).
  { split.
    - apply Rmult_le_pos; [exact H0 | left; apply Rinv_0_lt_compat; exact Ht].
    - apply (Rmult_le_reg_r t); [exact Ht |].
      unfold Rdiv. rewrite Rmult_assoc, Rinv_l by lra. lra. }
  lra.
Qed.

Lemma color_info_of_percentages (img_array : ImgArray) (kmeans : KMeans)
    (all_labels : list Z) :
  labels_ kmeans <> [] ->
  Forall (fun c => 0 <= ExtractedColor.percentage c <= 100)
         (color_info_of lib img_array kmeans all_labels).
Proof.
  intros Hne. unfold color_info_of.
  eapply Permutation_Forall; [apply Permutation_sym, sort_by_key_reverse_perm |].
  apply Forall_forall. intros c Hc. apply in_map_iff in Hc.
  destruct Hc as (ic & <- & _). apply color_entry_percentage, Hne.
Qed.

(** What a returning extraction returns, given scikit-learn's contract. *)
Lemma extract_body_result (image : PILImage lib) (num_colors max_size : Z)
    (color_info : list ExtractedColor.t) :
  KMeans_contract lib ->
  extract_body lib image num_colors max_size = Ok color_info ->
  Z.of_nat (List.length color_info) = num_colors
  /\ (1 <= num_colors)%Z
  /\ descending (map ExtractedColor.percentage color_info)
  /\ Forall (fun c => 0 <= ExtractedColor.percentage c <= 100) color_info.
Proof.
  intros Hk H. apply extract_body_returns in H.
  destruct H as (im1 & im2 & arr & km & labels & _ & _ & _ & Hfit & _ & ->).
  destruct (Hk _ _ _ Hfit) as (Hrange & Hcenters & Hlabels).
  split; [rewrite color_info_of_length; exact Hcenters |].
  split; [lia |].
  split; [apply color_info_of_descending |].
  apply color_info_of_percentages.
  intros E. rewrite E in Hlabels. simpl in Hlabels. lia.
Qed.
End ExtractionFacts.

(** C5. Given scikit-learn's contract for a fit that returns: when the
    [try] body of [extract_dominant_colors] returns, the function returns its
    list, which has exactly [num_colors] entries, is sorted descending by
    percentage, and has every percentage in [0, 100]; when the body raises,
    the function returns the empty list. *)
Theorem extract_returns_num_colors_sorted_entries
    (lib : Libraries) (image : PILImage lib) (num_colors max_size : Z) :
  KMeans_contract lib ->
  match extract_body lib image num_colors max_size with
  | Ok color_info =>
      extract_dominant_colors lib image num_colors max_size = color_info
      /\ Z.of_nat (List.length color_info) = num_colors
      /\ descending (map ExtractedColor.percentage color_info)
      /\ Forall (fun c => 0 <= ExtractedColor.percentage c <= 100) color_info
  | Raise _ => extract_dominant_colors lib image num_colors max_size = []
  end.
Proof.
  intros Hk. unfold extract_dominant_colors.
  destruct (extract_body lib image num_colors max_size) as [color_info|e] eqn:E;
    [| reflexivity].
  destruct (extract_body_result lib _ _ _ _ Hk E) as (Hlen & _ & Hsort & Hpct).
  auto.
Qed.

(** C6. When a step of the [try] body raises, [extract_dominant_colors]
    returns the empty list, a value and not an exception.  Given
    scikit-learn's contract the empty list is returned in no other case: a
    returning body yields at least one entry. *)
Theorem extract_failure_is_the_empty_result
    (lib : Libraries) (image : PILImage lib) (num_colors max_size : Z) :
  (forall e, step_raises lib image num_colors max_size e ->
             extract_body lib image num_colors max_size = Raise e
             /\ extract_dominant_colors lib image num_colors max_size = [])
  /\ (KMeans_contract lib ->
      extract_dominant_colors lib image num_colors max_size = [] ->
      exists e, step_raises lib image num_colors max_size e).
Proof.
  split.
  - intros e H. apply extract_body_raises in H.
    unfold extract_dominant_colors. now rewrite H.
  - intros Hk. unfold extract_dominant_colors.
    destruct (extract_body lib image num_colors max_size) as [color_info|e] eqn:E.
    + intros ->. destruct (extract_body_result lib _ _ _ _ Hk E) as (Hlen & Hpos & _).
      simpl in Hlen. lia.
    + intros _. exists e. apply extract_body_raises, E.
Qed.

(** *** The stand-in libraries *)

Lemma degenerate_fit_contract : KMeans_contract array_libraries.
Proof.
  intros k X kmeans. cbn [KMeans_fit array_libraries]. unfold degenerate_fit.
  destruct (Z.leb_spec 1 k) as [H1|H1]; [| discriminate].
  destruct (Z.leb_spec k (Z.of_nat (List.length X))) as [H2|H2]; [| discriminate].
  cbn [andb]. destruct (hd (0, 0, 0)%Z X) as [[r g] b]. intros [= <-].
  cbn [cluster_centers_ labels_]. rewrite !repeat_length. lia.
Qed.

(** The fallback to all pixels leaves the fit at least [num_colors] samples
    whenever the image has that many pixels. *)
Lemma cluster_input_enough (pixels : list RGB) (num_colors : Z) :
  (num_colors <= Z.of_nat (List.length pixels))%Z ->
  (num_colors <= Z.of_nat (List.length (cluster_input pixels num_colors)))%Z.
Proof.
  intros H. unfold cluster_input.
  destruct (Z.ltb_spec
              (Z.of_nat (List.length
                 (filter (fun p => Rltb 20 (mean_channel p) && Rltb (mean_channel p) 235)
                         pixels)))
              num_colors); lia.
Qed.

Lemma degenerate_extract_returns (image : ImgArray) (num_colors max_size : Z) :
  (1 <= num_colors <= Z.of_nat (List.length (pixel_rows image)))%Z ->
  (Z.max (shape_width image) (shape_height image) <= max_size)%Z ->
  exists color_info,
    extract_body array_libraries image num_colors max_size = Ok color_info.
Proof.
  intros [Hk1 Hk2] Hsize.
  unfold extract_body, to_rgb, downscale.
  cbn [image_mode image_convert image_size np_array KMeans_fit array_libraries
       String.eqb Ascii.eqb Bool.eqb negb andb bind fst snd].
  replace (max_size <? Z.max (shape_width image) (shape_height image))%Z with false
    by (symmetry; apply Z.ltb_ge; exact Hsize).
  cbn [bind]. unfold degenerate_fit.
  pose proof (cluster_input_enough (pixel_rows image) num_colors Hk2) as Hin.
  replace (1 <=? num_colors)%Z with true by (symmetry; apply Z.leb_le; exact Hk1).
  replace (num_colors <=? Z.of_nat (List.length (cluster_input (pixel_rows image) num_colors)))%Z
    with true by (symmetry; apply Z.leb_le; exact Hin).
  cbn [andb]. destruct (hd (0, 0, 0)%Z (cluster_input (pixel_rows image) num_colors))
    as [[r g] b].
  cbn [bind predict]. eexists. reflexivity.
Qed.

(** C5 at the solid red image of 4 x 4 pixels with three colours: the
    extraction returns, with three entries. *)
Lemma extract_returns_num_colors_sorted_entries_witness :
  KMeans_contract array_libraries
  /\ exists color_info,
       extract_body array_libraries solid_red_4x4 3 300 = Ok color_info
       /\ extract_dominant_colors array_libraries solid_red_4x4 3 300 = color_info
       /\ Z.of_nat (List.length color_info) = 3%Z
       /\ descending (map ExtractedColor.percentage color_info)
       /\ Forall (fun c => 0 <= ExtractedColor.percentage c <= 100) color_info.
Proof.
  split; [exact degenerate_fit_contract |].
  destruct (degenerate_extract_returns solid_red_4x4 3 300) as [color_info E].
  - cbn. lia.
  - cbn. lia.
  - exists color_info. split; [exact E |].
    pose proof (extract_returns_num_colors_sorted_entries
                  array_libraries solid_red_4x4 3 300 degenerate_fit_contract) as H.
    rewrite E in H. exact H.
Defined.

(** C6 at the solid red image with zero colours: the fit raises
    [ValueError], and the function returns the empty list. *)
Lemma extract_failure_is_the_empty_result_witness :
  step_raises array_libraries solid_red_4x4 0 300 ValueError
  /\ extract_body array_libraries solid_red_4x4 0 300 = Raise ValueError
  /\ extract_dominant_colors array_libraries solid_red_4x4 0 300 = [].
Proof.
  assert (H : step_raises array_libraries solid_red_4x4 0 300 ValueError).
  { apply (fit_raises array_libraries _ _ _ _ solid_red_4x4 solid_red_4x4 solid_red_4x4);
      reflexivity. }
  split; [exact H |].
  exact (proj1 (extract_failure_is_the_empty_result array_libraries solid_red_4x4 0 300)
               ValueError H).
Defined.

(** ** Spatial analysis: the three outcomes of [_analyze_color_location] *)

Lemma chunks_concat {A : Type} (rows width : nat) (l : list A) :
  List.length l = (rows * width)%nat -> List.concat (chunks rows width l) = l.
Proof.
  revert l. induction rows as [|r IH]; intros l Hl; simpl in *.
  - destruct l; [reflexivity | discriminate].
  - rewrite IH; [apply firstn_skipn |]. rewrite length_skipn. lia.
Qed.

Lemma chunks_length {A : Type} (rows width : nat) (l : list A) :
  List.length (chunks rows width l) = rows.
Proof. revert l. induction rows as [|r IH]; intros l; simpl; [reflexivity | now rewrite IH]. Qed.

(** [np.any] of a mask is the disjunction of its entries. *)
Lemma np_any_concat (mask : list (list bool)) :
  np_any mask = existsb (fun b => b) (List.concat mask).
Proof.
  unfold np_any. induction mask as [|row t IH]; simpl; [reflexivity |].
  now rewrite existsb_app, IH.
Qed.

Lemma cluster_mask_concat (label_image : list (list Z)) (cluster_id : Z) :
  List.concat (map (map (fun l => (l =? cluster_id)%Z)) label_image)
  = map (fun l => (l =? cluster_id)%Z) (List.concat label_image).
Proof. now rewrite concat_map. Qed.

(** The mask of a cluster has a [True] entry exactly when a pixel carries the label. *)
Lemma np_any_cluster_mask (labels : list Z) (cluster_id : Z) (rows width : nat) :
  List.length labels = (rows * width)%nat ->
  np_any (map (map (fun l => (l =? cluster_id)%Z)) (chunks rows width labels)) = true
  <-> In cluster_id labels.
Proof.
  intros Hl. rewrite np_any_concat, cluster_mask_concat, chunks_concat by exact Hl.
  rewrite existsb_exists. split.
  - intros (b & Hb & ->). apply in_map_iff in Hb. destruct Hb as (l & E & Hin).
    apply Z.eqb_eq in E. now subst.
  - intros Hin. exists true. split; [| reflexivity].
    apply in_map_iff. exists cluster_id. split; [apply Z.eqb_refl | exact Hin].
Qed.

Lemma combine_index_exists {A : Type} (idx : list Z) (l : list A) (a : A) :
  List.length idx = List.length l -> In a l -> exists i, In (i, a) (combine idx l).
Proof.
  revert idx. induction l as [|c t IH]; intros [|i idx] Hlen Hin; simpl in *;
    try discriminate; try tauto.
  destruct Hin as [->|Hin].
  - exists i. now left.
  - destruct (IH idx ltac:(lia) Hin) as (j & Hj). exists j. now right.
Qed.

Lemma enumerate_index_exists {A : Type} (l : list A) (a : A) :
  In a l -> exists i, In (i, a) (enumerate l).
Proof.
  apply combine_index_exists. now rewrite range_length, Nat2Z.id.
Qed.

(** A mask with a [True] entry has a hit: [np.where] returns non-empty arrays. *)
Lemma np_where_nonempty (mask : list (list bool)) :
  np_any mask = true -> fst (np_where mask) <> [].
Proof.
  unfold np_any, np_where. cbn [fst]. intros H.
  apply existsb_exists in H. destruct H as (row & Hrow & H).
  apply existsb_exists in H. destruct H as (b & Hb & ->).
  destruct (enumerate_index_exists mask row Hrow) as (y & Hy).
  destruct (enumerate_index_exists row true Hb) as (x & Hx).
  intros E. apply map_eq_nil in E.
  assert (Hin : In (y, x)
                  (flat_map (fun yr : Z * list bool =>
                               map (fun xb : Z * bool => (fst yr, fst xb))
                                   (filter (fun xb : Z * bool => snd xb) (enumerate (snd yr))))
                            (enumerate mask))).
  { apply in_flat_map. exists (y, row). split; [exact Hy |].
    apply in_map_iff. exists (x, true). split; [reflexivity |].
    apply filter_In. split; [exact Hx | reflexivity]. }
  rewrite E in Hin. destruct Hin.
Qed.

Lemma np_where_lengths (mask : list (list bool)) :
  List.length (snd (np_where mask)) = List.length (fst (np_where mask)).
Proof. unfold np_where. cbn [fst snd]. now rewrite !length_map. Qed.

(** On non-empty arrays the classifier returns one of its four classes. *)
Lemma classify_distribution_classes (y_coords x_coords : list Z) (height width : Z) :
  y_coords <> [] -> x_coords <> [] ->
  exists d, _classify_distribution y_coords x_coords height width = Ok d
            /\ In d ["widespread"; "concentrated"; "localized"; "scattered"].
Proof.
  intros Hy Hx.
  destruct (np_max_spec y_coords Hy) as (a & _ & Ha).
  destruct (np_min_spec y_coords Hy) as (b & _ & Hb).
  destruct (np_max_spec x_coords Hx) as (c & _ & Hc).
  destruct (np_min_spec x_coords Hx) as (d & _ & Hd).
  rewrite (classify_distribution_decision y_coords x_coords height width
             (IZR (a - b) / IZR height) (IZR (c - d) / IZR width) Hy Hx)
    by (eexists; eexists; eauto).
  eexists. split; [reflexivity |].
  destruct (_ && _); [simpl; tauto |].
  destruct (_ && _); [simpl; tauto |].
  destruct (_ || _); simpl; tauto.
Qed.

(** With one vertical value above 20 the primary areas are vertical tags
    only, and the description is one of six. *)
Lemma vertical_regions_cases (coverage : Coverage.t R) :
  Coverage.top coverage + Coverage.middle coverage + Coverage.bottom coverage = 100 ->
  (_find_primary_areas coverage <> []
   /\ incl (_find_primary_areas coverage) ["top"; "middle"; "bottom"])
  /\ In (_describe_regions coverage (_find_primary_areas coverage))
        [["Upper portion"]; ["Middle section"]; ["Lower portion"];
         ["Upper portion"; "Middle section"]; ["Middle section"; "Lower portion"];
         ["Top and bottom edges"]].
Proof.
  intros Hsum.
  assert (Hone : Rltb 20 (Coverage.top coverage) = true
                 \/ Rltb 20 (Coverage.middle coverage) = true
                 \/ Rltb 20 (Coverage.bottom coverage) = true).
  { destruct (Rlt_dec 20 (Coverage.top coverage)) as [H|H];
      [left; apply Rltb_true, H |].
    destruct (Rlt_dec 20 (Coverage.middle coverage)) as [H'|H'];
      [right; left; apply Rltb_true, H' |].
    right; right. apply Rltb_true. lra. }
  unfold _find_primary_areas.
  destruct (Rltb 20 (Coverage.top coverage)), (Rltb 20 (Coverage.middle coverage)),
    (Rltb 20 (Coverage.bottom coverage));
    try (destruct Hone as [H|[H|H]]; discriminate H);
    (split; [split; [discriminate | intros s Hs; simpl in *; tauto] | simpl; tauto]).
Qed.

(** The three ways through [_analyze_color_location] for an image of
    non-negative height and width. *)
Lemma analyze_color_location_cases (img_array : ImgArray) (labels : list Z)
    (cluster_id : Z) (color : RGB) :
  (0 <= shape_height img_array)%Z -> (0 <= shape_width img_array)%Z ->
  let height := shape_height img_array in
  let width := shape_width img_array in
  let info := _analyze_color_location img_array labels cluster_id color in
  (Z.of_nat (List.length labels) <> (height * width)%Z /\ info = unavailable_info)
  \/ (Z.of_nat (List.length labels) = (height * width)%Z
      /\ ~ In cluster_id labels /\ info = not_found_info)
  \/ (Z.of_nat (List.length labels) = (height * width)%Z
      /\ In cluster_id labels
      /\ exists y_coords x_coords d,
           y_coords <> [] /\ List.length x_coords = List.length y_coords
           /\ In d ["widespread"; "concentrated"; "localized"; "scattered"]
           /\ let coverage := _analyze_regional_coverage y_coords x_coords height width in
              info = {| regions := _describe_regions coverage (_find_primary_areas coverage);
                        distribution := d;
                        primary_areas := _find_primary_areas coverage;
                        coverage := coverage |}).
Proof.
  intros HH HW height width info. subst info.
  unfold _analyze_color_location, analyze_color_location_body, reshape.
  fold height width.
  destruct (Z.eqb_spec (Z.of_nat (List.length labels)) (height * width)) as [Hfit|Hfit];
    [| left; split; [exact Hfit | reflexivity]].
  right. cbn [bind].
  assert (Hlen : List.length labels = (Z.to_nat height * Z.to_nat width)%nat) by nia.
  pose proof (np_any_cluster_mask labels cluster_id _ _ Hlen) as Hany.
  destruct (np_any (map (map (fun l => (l =? cluster_id)%Z))
                        (chunks (Z.to_nat height) (Z.to_nat width) labels))) eqn:E.
  - right. split; [exact Hfit |]. split; [apply Hany; reflexivity |].
    cbn [negb].
    pose proof (np_where_nonempty _ E) as Hne.
    pose proof (np_where_lengths
                  (map (map (fun l => (l =? cluster_id)%Z))
                       (chunks (Z.to_nat height) (Z.to_nat width) labels))) as Hl.
    destruct (np_where _) as [ys xs]. cbn [fst snd] in Hne, Hl.
    assert (Hxne : xs <> []) by (intros ->; destruct ys; [congruence | discriminate]).
    destruct (classify_distribution_classes ys xs height width Hne Hxne) as (d & -> & Hd).
    cbn [bind]. exists ys, xs, d. auto.
  - left. split; [exact Hfit |]. split; [| reflexivity].
    intros Hin. apply Hany in Hin. discriminate.
Qed.

(** X2. For an image of non-negative height and width,
    [_analyze_color_location] answers with the "Analysis unavailable" record
    exactly when the number of labels differs from height times width. *)
Theorem location_unavailable_iff_labels_misfit (img_array : ImgArray) (labels : list Z)
    (cluster_id : Z) (color : RGB) :
  (0 <= shape_height img_array)%Z -> (0 <= shape_width img_array)%Z ->
  (_analyze_color_location img_array labels cluster_id color = unavailable_info
   <-> Z.of_nat (List.length labels)
       <> (shape_height img_array * shape_width img_array)%Z).
Proof.
  intros HH HW.
  destruct (analyze_color_location_cases img_array labels cluster_id color HH HW)
    as [[Hfit ->]|[(Hfit & _ & ->)|(Hfit & _ & ys & xs & d & _ & _ & Hd & ->)]].
  - tauto.
  - split; [discriminate | contradiction].
  - split; [| contradiction].
    intros E. apply (f_equal distribution) in E. cbn in E. subst d.
    simpl in Hd. repeat (destruct Hd as [Hd|Hd]; [discriminate Hd |]). destruct Hd.
Qed.

(** X2 at the 4 x 4 image with fifteen labels. *)
Lemma location_unavailable_iff_labels_misfit_witness :
  _analyze_color_location solid_red_4x4 (repeat 0%Z 15) 0 (255, 0, 0)%Z = unavailable_info.
Proof.
  assert (H0 : (0 <= 4)%Z) by lia.
  apply (location_unavailable_iff_labels_misfit
           solid_red_4x4 (repeat 0%Z 15) 0%Z (255, 0, 0)%Z H0 H0).
  cbn. lia.
Defined.

(** X3. When the labels fit the image, [_analyze_color_location] answers
    with the "Not found" record (distribution 'scattered', no primary area,
    zero coverage) exactly when no pixel carries the cluster's label. *)
Theorem location_not_found_iff_cluster_absent (img_array : ImgArray) (labels : list Z)
    (cluster_id : Z) (color : RGB) :
  (0 <= shape_height img_array)%Z -> (0 <= shape_width img_array)%Z ->
  Z.of_nat (List.length labels) = (shape_height img_array * shape_width img_array)%Z ->
  (_analyze_color_location img_array labels cluster_id color = not_found_info
   <-> ~ In cluster_id labels).
Proof.
  intros HH HW Hfit.
  destruct (analyze_color_location_cases img_array labels cluster_id color HH HW)
    as [[Hmis _]|[(_ & Habs & ->)|(_ & Hin & ys & xs & d & Hne & Hlen & _ & ->)]].
  - contradiction.
  - tauto.
  - split; [| contradiction].
    intros E. apply (f_equal primary_areas) in E. cbn in E.
    destruct (regional_coverage_nonempty ys xs _ _ Hne Hlen HH HW) as (Hsum & _).
    apply vertical_regions_cases in Hsum. destruct Hsum as [[Hp _] _].
    contradiction.
Qed.

(** X3 at the 4 x 4 image whose pixels all carry label 0, asked for cluster 1. *)
Lemma location_not_found_iff_cluster_absent_witness :
  _analyze_color_location solid_red_4x4 (repeat 0%Z 16) 1 (255, 0, 0)%Z = not_found_info.
Proof.
  assert (H0 : (0 <= 4)%Z) by lia.
  assert (Hfit : Z.of_nat (List.length (repeat 0%Z 16)) = (4 * 4)%Z) by reflexivity.
  apply (location_not_found_iff_cluster_absent
           solid_red_4x4 (repeat 0%Z 16) 1%Z (255, 0, 0)%Z H0 H0 Hfit).
  intros Hin. apply repeat_spec in Hin. discriminate.
Defined.

(** X4. When the labels fit the image and a pixel carries the cluster's
    label, the distribution is one of the four classes, the primary areas
    are a non-empty selection of the vertical tags, the description is one of
    six (never a horizontal one, "Throughout the image" or "Various areas"),
    and in exact arithmetic the vertical and the horizontal coverage values
    each add up to 100. *)
Theorem location_of_present_cluster (img_array : ImgArray) (labels : list Z)
    (cluster_id : Z) (color : RGB) :
  (0 <= shape_height img_array)%Z -> (0 <= shape_width img_array)%Z ->
  Z.of_nat (List.length labels) = (shape_height img_array * shape_width img_array)%Z ->
  In cluster_id labels ->
  let info := _analyze_color_location img_array labels cluster_id color in
  In (distribution info) ["widespread"; "concentrated"; "localized"; "scattered"]
  /\ primary_areas info <> []
  /\ incl (primary_areas info) ["top"; "middle"; "bottom"]
  /\ In (regions info)
        [["Upper portion"]; ["Middle section"]; ["Lower portion"];
         ["Upper portion"; "Middle section"]; ["Middle section"; "Lower portion"];
         ["Top and bottom edges"]]
  /\ Coverage.top (coverage info) + Coverage.middle (coverage info)
     + Coverage.bottom (coverage info) = 100
  /\ Coverage.left (coverage info) + Coverage.center (coverage info)
     + Coverage.right (coverage info) = 100.
Proof.
  intros HH HW Hfit Hin info. subst info.
  destruct (analyze_color_location_cases img_array labels cluster_id color HH HW)
    as [[Hmis _]|[(_ & Habs & _)|(_ & _ & ys & xs & d & Hne & Hlen & Hd & ->)]];
    try contradiction.
  cbn [distribution primary_areas regions coverage].
  destruct (regional_coverage_nonempty ys xs _ _ Hne Hlen HH HW) as (Hv & Hh & _).
  destruct (vertical_regions_cases _ Hv) as [[Hp Hincl] Hr].
  auto 10.
Qed.

(** X4 at the 4 x 4 image whose pixels all carry label 0. *)
Lemma location_of_present_cluster_witness :
  let info := _analyze_color_location solid_red_4x4 (repeat 0%Z 16) 0 (255, 0, 0)%Z in
  In (distribution info) ["widespread"; "concentrated"; "localized"; "scattered"]
  /\ primary_areas info <> []
  /\ incl (primary_areas info) ["top"; "middle"; "bottom"]
  /\ In (regions info)
        [["Upper portion"]; ["Middle section"]; ["Lower portion"];
         ["Upper portion"; "Middle section"]; ["Middle section"; "Lower portion"];
         ["Top and bottom edges"]]
  /\ Coverage.top (coverage info) + Coverage.middle (coverage info)
     + Coverage.bottom (coverage info) = 100
  /\ Coverage.left (coverage info) + Coverage.center (coverage info)
     + Coverage.right (coverage info) = 100.
Proof.
  assert (H0 : (0 <= 4)%Z) by lia.
  assert (Hfit : Z.of_nat (List.length (repeat 0%Z 16)) = (4 * 4)%Z) by reflexivity.
  assert (Hin : In 0%Z (repeat 0%Z 16)) by (left; reflexivity).
  exact (location_of_present_cluster
           solid_red_4x4 (repeat 0%Z 16) 0%Z (255, 0, 0)%Z H0 H0 Hfit Hin).
Defined.

(** ** Extraction: percentages and the pixels the fit sees *)

Lemma Rsum_fold_right (l : list R) : Rsum l = fold_right Rplus 0 l.
Proof.
  unfold Rsum. apply fold_symmetric; intros; ring.
Qed.

Lemma Rsum_perm (l1 l2 : list R) : Permutation l1 l2 -> Rsum l1 = Rsum l2.
Proof.
  rewrite !Rsum_fold_right. induction 1; simpl; lra.
Qed.

Lemma Rsum_scaled_counts (counts : list Z) (total : Z) :
  Rsum (map (fun c => IZR c / IZR total * 100) counts)
  = IZR (fold_right Z.add 0%Z counts) / IZR total * 100.
Proof.
  rewrite Rsum_fold_right. induction counts as [|c t IH]; simpl.
  - unfold Rdiv. ring.
  - rewrite IH, plus_IZR. unfold Rdiv. ring.
Qed.

Lemma count_label_cons (l : Z) (labels : list Z) (i : Z) :
  count_label (l :: labels) i
  = ((if (l =? i)%Z then 1 else 0) + count_label labels i)%Z.
Proof. unfold count_label. cbn [map]. apply np_sum_mask_cons. Qed.

(** One label in the range of the clusters is counted by exactly one cluster. *)
Lemma indicator_sum (l : Z) (m : nat) :
  fold_right Z.add 0%Z
    (map (fun i => if (l =? i)%Z then 1%Z else 0%Z) (map Z.of_nat (seq 0 m)))
  = if ((0 <=? l) && (l <? Z.of_nat m))%Z then 1%Z else 0%Z.
Proof.
  induction m as [|m IH].
  { cbn [seq map fold_right Z.of_nat].
    destruct (Z.leb_spec 0 l), (Z.ltb_spec l 0); cbn [andb]; lia. }
  rewrite seq_S, !map_app, fold_right_app. cbn [map fold_right Nat.add].
  assert (Hshift : forall (a : Z) (xs : list Z),
             fold_right Z.add a xs = (a + fold_right Z.add 0 xs)%Z).
  { intros a xs. induction xs as [|x xs IHx]; simpl; lia. }
  rewrite Hshift, IH.
  destruct (Z.eqb_spec l (Z.of_nat m)), (Z.leb_spec 0 l), (Z.ltb_spec l (Z.of_nat m)),
    (Z.ltb_spec l (Z.of_nat (S m))); cbn [andb]; lia.
Qed.

(** The cluster counts of labels in range add up to the number of labels. *)
Lemma count_label_total (labels : list Z) (k : Z) :
  Forall (fun l => (0 <= l < k)%Z) labels ->
  fold_right Z.add 0%Z (map (count_label labels) (range k))
  = Z.of_nat (List.length labels).
Proof.
  intros Hall. induction Hall as [|l t Hl _ IH].
  - rewrite (map_ext _ (fun _ => 0%Z)) by reflexivity.
    induction (range k) as [|x xs IHx]; simpl in *; lia.
  - rewrite (map_ext _ (fun i => ((if (l =? i)%Z then 1 else 0) + count_label t i)%Z))
      by (intros i; apply count_label_cons).
    assert (Hsplit : forall (f g : Z -> Z) (xs : list Z),
               fold_right Z.add 0%Z (map (fun i => (f i + g i)%Z) xs)
               = (fold_right Z.add 0%Z (map f xs) + fold_right Z.add 0%Z (map g xs))%Z).
    { intros f g xs. induction xs as [|x xs IHx]; simpl; lia. }
    rewrite Hsplit, IH. unfold range. rewrite indicator_sum.
    replace ((0 <=? l) && (l <? Z.of_nat (Z.to_nat k)))%Z with true
      by (symmetry; apply andb_true_iff; split; [apply Z.leb_le | apply Z.ltb_lt]; lia).
    cbn [List.length]. lia.
Qed.

Lemma enumerate_fst {A : Type} (l : list A) :
  map fst (enumerate l) = range (Z.of_nat (List.length l)).
Proof.
  unfold enumerate.
  assert (H : forall (idx : list Z) (xs : list A),
             List.length idx = List.length xs -> map fst (combine idx xs) = idx).
  { induction idx as [|i idx IH]; intros [|x xs] Hlen; simpl in *;
      try discriminate; [reflexivity |]. f_equal. apply IH. lia. }
  apply H. now rewrite range_length, Nat2Z.id.
Qed.

Section PercentageFacts.
Context (lib : Libraries).

Lemma color_entry_percentage_eq (img_array : ImgArray) (all_labels filtered_labels : list Z)
    (total : Z) (ic : Z * RGB) :
  ExtractedColor.percentage (color_entry lib img_array all_labels filtered_labels total ic)
  = IZR (count_label filtered_labels (fst ic)) / IZR total * 100.
Proof. destruct ic as [i [[c0 c1] c2]]. reflexivity. Qed.

Lemma color_info_of_percentage_sum (img_array : ImgArray) (kmeans : KMeans)
    (all_labels : list Z) :
  labels_ kmeans <> [] ->
  Forall (fun l => (0 <= l < Z.of_nat (List.length (cluster_centers_ kmeans)))%Z)
         (labels_ kmeans) ->
  Rsum (map ExtractedColor.percentage (color_info_of lib img_array kmeans all_labels)) = 100.
Proof.
  intros Hne Hall. unfold color_info_of.
  rewrite (Rsum_perm _ _ (Permutation_map _ (sort_by_key_reverse_perm _ _))).
  rewrite map_map.
  rewrite (map_ext _ (fun ic => IZR (count_label (labels_ kmeans) (fst ic))
                                / IZR (Z.of_nat (List.length (labels_ kmeans))) * 100))
    by (intros ic; apply color_entry_percentage_eq).
  rewrite <- (map_map fst (fun i => IZR (count_label (labels_ kmeans) i)
                                     / IZR (Z.of_nat (List.length (labels_ kmeans))) * 100)).
  rewrite enumerate_fst.
  rewrite <- (map_map (count_label (labels_ kmeans))
                      (fun c => IZR c / IZR (Z.of_nat (List.length (labels_ kmeans))) * 100)).
  rewrite Rsum_scaled_counts.
  unfold center_colors. rewrite length_map, count_label_total by exact Hall.
  assert (0 < IZR (Z.of_nat (List.length (labels_ kmeans)))).
  { apply IZR_lt. destruct (labels_ kmeans); [congruence | simpl; lia]. }
  field. lra.
Qed.
End PercentageFacts.

(** X5. Given scikit-learn's contract and its guarantee that every label
    is the index of a cluster, the percentages of a returning extraction add
    up to 100 in exact arithmetic. *)
Theorem extract_percentages_add_up_to_100
    (lib : Libraries) (image : PILImage lib) (num_colors max_size : Z)
    (color_info : list ExtractedColor.t) :
  KMeans_contract lib -> KMeans_labels_contract lib ->
  extract_body lib image num_colors max_size = Ok color_info ->
  Rsum (map ExtractedColor.percentage color_info) = 100.
Proof.
  intros Hk Hl H. apply extract_body_returns in H.
  destruct H as (im1 & im2 & arr & km & labels & _ & _ & _ & Hfit & _ & ->).
  destruct (Hk _ _ _ Hfit) as (Hrange & Hcenters & Hlabels).
  apply color_info_of_percentage_sum.
  - intros E. rewrite E in Hlabels. simpl in Hlabels. lia.
  - rewrite Hcenters. exact (Hl _ _ _ Hfit).
Qed.

Lemma degenerate_fit_labels_contract : KMeans_labels_contract array_libraries.
Proof.
  intros k X kmeans. cbn [KMeans_fit array_libraries]. unfold degenerate_fit.
  destruct (Z.leb_spec 1 k) as [H1|H1]; [| discriminate].
  destruct (Z.leb_spec k (Z.of_nat (List.length X))) as [H2|H2]; [| discriminate].
  cbn [andb]. destruct (hd (0, 0, 0)%Z X) as [[r g] b]. intros [= <-].
  cbn [labels_]. apply Forall_forall. intros l Hl. apply repeat_spec in Hl. lia.
Qed.

(** X5 at the solid red image of 4 x 4 pixels with three colours. *)
Lemma extract_percentages_add_up_to_100_witness :
  exists color_info,
    extract_body array_libraries solid_red_4x4 3 300 = Ok color_info
    /\ Rsum (map ExtractedColor.percentage color_info) = 100.
Proof.
  destruct (degenerate_extract_returns solid_red_4x4 3 300) as [color_info E].
  - cbn. lia.
  - cbn. lia.
  - exists color_info. split; [exact E |].
    exact (extract_percentages_add_up_to_100 array_libraries solid_red_4x4 3 300 color_info
             degenerate_fit_contract degenerate_fit_labels_contract E).
Defined.

(** The brightness test of the filter, on the sum of the channels. *)
Lemma brightness_filter_sum (p : RGB) :
  Rltb 20 (mean_channel p) && Rltb (mean_channel p) 235
  = let '(r, g, b) := p in ((60 <? r + g + b) && (r + g + b <? 705))%Z.
Proof.
  destruct p as [[r g] b]. unfold mean_channel. f_equal.
  - destruct (Z.ltb_spec 60 (r + g + b)) as [H|H].
    + apply Rltb_true. apply IZR_lt in H. lra.
    + apply Rltb_false. apply IZR_le in H. lra.
  - destruct (Z.ltb_spec (r + g + b) 705) as [H|H].
    + apply Rltb_true. apply IZR_lt in H. lra.
    + apply Rltb_false. apply IZR_le in H. lra.
Qed.

(** X6. The pixels handed to the fit are pixels of the image; they are
    either all of them or exactly those whose channels sum to more than 60
    and less than 705 (mean brightness strictly between 20 and 235), at least
    [num_colors] of them in the second case; and whenever the image has at
    least [num_colors] pixels, so has the input of the fit. *)
Theorem cluster_input_is_filtered_or_everything (pixels : list RGB) (num_colors : Z) :
  incl (cluster_input pixels num_colors) pixels
  /\ (cluster_input pixels num_colors = pixels
      \/ ((num_colors <= Z.of_nat (List.length (cluster_input pixels num_colors)))%Z
          /\ forall r g b,
               In (r, g, b) (cluster_input pixels num_colors)
               <-> In (r, g, b) pixels /\ (60 < r + g + b < 705)%Z))
  /\ ((num_colors <= Z.of_nat (List.length pixels))%Z ->
      (num_colors <= Z.of_nat (List.length (cluster_input pixels num_colors)))%Z).
Proof.
  split; [| split].
  - unfold cluster_input. destruct (_ <? _)%Z; [apply incl_refl |].
    intros p Hp. apply filter_In in Hp. tauto.
  - unfold cluster_input.
    destruct (Z.ltb_spec
                (Z.of_nat (List.length
                   (filter (fun p => Rltb 20 (mean_channel p) && Rltb (mean_channel p) 235)
                           pixels)))
                num_colors) as [Hlt|Hge]; [now left | right].
    split; [lia |]. intros r g b. rewrite filter_In, brightness_filter_sum.
    rewrite andb_true_iff, !Z.ltb_lt. tauto.
  - apply cluster_input_enough.
Qed.

(** X6 at the solid red image: all sixteen pixels have channel sum 255 and are kept. *)
Lemma cluster_input_is_filtered_or_everything_witness :
  (3 <= Z.of_nat (List.length (pixel_rows solid_red_4x4)))%Z
  /\ (3 <= Z.of_nat (List.length (cluster_input (pixel_rows solid_red_4x4) 3)))%Z.
Proof.
  assert (H : (3 <= Z.of_nat (List.length (pixel_rows solid_red_4x4)))%Z) by (cbn; lia).
  split; [exact H |].
  exact (proj2 (proj2 (cluster_input_is_filtered_or_everything
                         (pixel_rows solid_red_4x4) 3)) H).
Defined.

(** ** The matcher: edge cases, completeness and the best match *)

Section FilterSortFacts.
Context {A : Type} (lt : A -> A -> bool).
Hypothesis lt_negtrans : forall a b c, lt b a = false -> lt c b = false -> lt c a = false.

Lemma insert_sorted_front (x : A) (l : list A) :
  (forall z, In z l -> lt z x = false) -> insert_sorted lt x l = x :: l.
Proof using Type.
  destruct l as [|y t]; [reflexivity |]. intros H. simpl.
  now rewrite (H y (or_introl eq_refl)).
Qed.

Lemma insert_sorted_filter (f : A -> bool) (x : A) (l : list A) :
  StronglySorted (fun a b => lt b a = false) l ->
  filter f (insert_sorted lt x l)
  = if f x then insert_sorted lt x (filter f l) else filter f l.
Proof using lt_negtrans.
  induction 1 as [|y t Ht IH Hy]; simpl.
  - destruct (f x); reflexivity.
  - destruct (lt y x) eqn:E; simpl.
    + rewrite IH. destruct (f y), (f x); simpl; try reflexivity. now rewrite E.
    + destruct (f x); [| reflexivity]. symmetry.
      assert (Hall : forall z, In z (y :: t) -> lt z x = false).
      { intros z [<-|Hz]; [exact E |]. rewrite Forall_forall in Hy.
        eapply lt_negtrans; [exact E | apply Hy, Hz]. }
      change (if f y then y :: filter f t else filter f t) with (filter f (y :: t)).
      apply insert_sorted_front. intros z Hz. apply filter_In in Hz. apply Hall, Hz.
Qed.
End FilterSortFacts.

(** Sorting by a key and filtering commute: the stable sort keeps the order
    of the items a filter lets through. *)
Lemma sort_by_key_filter {A : Type} (key : A -> R) (f : A -> bool) (l : list A) :
  filter f (sort_by_key key l) = sort_by_key key (filter f l).
Proof.
  unfold sort_by_key, stable_sort.
  induction l as [|x t IH]; [reflexivity |]. cbn [fold_right filter].
  rewrite insert_sorted_filter.
  - rewrite IH. destruct (f x); reflexivity.
  - intros a b c H1 H2. apply Rltb_false in H1, H2. apply Rltb_false. lra.
  - apply (stable_sort_strongly (fun a b => Rltb (key a) (key b))).
    + intros a b H. apply Rltb_true in H. apply Rltb_false. lra.
    + intros a b c H1 H2. apply Rltb_false in H1, H2. apply Rltb_false. lra.
Qed.

(** The stable sort puts the first item of least key in front. *)
Lemma sort_by_key_head {A : Type} (key : A -> R) (l1 : list A) (p : A) (l2 : list A) :
  first_least key l1 p l2 ->
  exists rest, sort_by_key key (l1 ++ p :: l2) = p :: rest.
Proof.
  intros [H1 H2]. unfold sort_by_key, stable_sort.
  induction l1 as [|q l1 IH]; cbn [app fold_right].
  - eexists. apply insert_sorted_front. intros z Hz. apply Rltb_false.
    apply H2. eapply Permutation_in; [apply stable_sort_perm | exact Hz].
  - destruct IH as (rest & ->); [intros z Hz; apply H1; now right |].
    cbn [insert_sorted].
    replace (Rltb (key p) (key q)) with true
      by (symmetry; apply Rltb_true, H1; now left).
    eexists. reflexivity.
Qed.

(** The loop of [find_matches] keeps, in table order, the dictionaries of
    the pencils within the threshold. *)
Lemma find_matches_loop_filter (target_rgb : RGB) (max_difference : R)
    (ps : list Pencil.t) :
  fold_left (find_matches_step target_rgb max_difference) ps []
  = map (match_info target_rgb)
        (filter (fun p => Rleb (calculate_color_difference target_rgb (Pencil.rgb p))
                               max_difference) ps).
Proof.
  induction ps as [|p ps IH]; [reflexivity |].
  cbn [fold_left filter]. rewrite find_matches_loop_app, IH.
  unfold find_matches_step at 1.
  destruct (Rleb _ _); reflexivity.
Qed.

Lemma filter_map_comm {A B : Type} (f : B -> bool) (g : A -> B) (l : list A) :
  filter f (map g l) = map g (filter (fun a => f (g a)) l).
Proof.
  induction l as [|a t IH]; simpl; [reflexivity |].
  rewrite IH. destruct (f (g a)); reflexivity.
Qed.

Lemma filter_none {A : Type} (f : A -> bool) (l : list A) :
  (forall a, In a l -> f a = false) -> filter f l = [].
Proof.
  induction l as [|a t IH]; intros H; simpl; [reflexivity |].
  rewrite (H a (or_introl eq_refl)). apply IH. intros b Hb. apply H. now right.
Qed.

Lemma with_brand_filter (b c : string) (table : list Row.t) :
  filter (fun p => (Pencil.brand p =? c)%string) (with_brand b table)
  = if (b =? c)%string then with_brand b table else [].
Proof.
  destruct (b =? c)%string eqn:E.
  - apply filter_all. intros p Hp. apply with_brand_In in Hp. destruct Hp as [-> _]. exact E.
  - apply filter_none. intros p Hp. apply with_brand_In in Hp. destruct Hp as [-> _]. exact E.
Qed.

(** The pencils of the concatenated table that carry one of the two brands. *)
Lemma get_all_pencils_filter_brand (db : PencilDatabase) :
  filter (fun p => (Pencil.brand p =? "Prismacolor")%string) (get_all_pencils db)
  = get_prismacolor_pencils db
  /\ filter (fun p => (Pencil.brand p =? "Faber Castell")%string) (get_all_pencils db)
     = get_faber_castell_pencils db.
Proof.
  unfold get_all_pencils, get_prismacolor_pencils, get_faber_castell_pencils.
  rewrite !filter_app, !with_brand_filter. cbn. rewrite !app_nil_r. split; reflexivity.
Qed.

Lemma filter_filter_comm {A : Type} (f g : A -> bool) (l : list A) :
  filter f (filter g l) = filter g (filter f l).
Proof.
  induction l as [|a t IH]; simpl; [reflexivity |].
  destruct (f a) eqn:Ef, (g a) eqn:Eg; simpl; rewrite ?Ef, ?Eg, IH; reflexivity.
Qed.

(** The run of one brand in the result of [find_matches]: the pencils of the
    brand within the threshold, sorted by difference and capped. *)
Lemma brand_matches_of_pencils (db : PencilDatabase) (target_rgb : RGB)
    (max_matches : Z) (max_difference : R) (b : string) :
  brand_matches db target_rgb max_matches max_difference b
  = slice_to max_matches
      (sort_by_key Match.color_difference
         (map (match_info target_rgb)
            (filter (fun p => Rleb (calculate_color_difference target_rgb (Pencil.rgb p))
                                   max_difference)
               (filter (fun p => (Pencil.brand p =? b)%string) (get_all_pencils db))))).
Proof.
  unfold brand_matches. rewrite sort_by_key_filter, find_matches_loop_filter.
  rewrite filter_map_comm. cbn [match_info Match.brand].
  now rewrite filter_filter_comm.
Qed.

Lemma brand_matches_nil_table (db : PencilDatabase) (target_rgb : RGB)
    (max_matches : Z) (max_difference : R) (b : string) :
  filter (fun p => Rleb (calculate_color_difference target_rgb (Pencil.rgb p)) max_difference)
    (filter (fun p => (Pencil.brand p =? b)%string) (get_all_pencils db)) = [] ->
  brand_matches db target_rgb max_matches max_difference b = [].
Proof.
  intros H. rewrite brand_matches_of_pencils, H. unfold slice_to. cbn.
  destruct (max_matches <? 0)%Z; apply firstn_nil.
Qed.

Lemma count_brand_all (b : string) (l : list Match.t) :
  Forall (fun m => Match.brand m = b) l -> count_brand b l = List.length l.
Proof.
  intros H. unfold count_brand. rewrite filter_all; [reflexivity |].
  rewrite Forall_forall in H. intros m Hm. apply String.eqb_eq, H, Hm.
Qed.

(** The entries of one of the two brands in the result are the run of that
    brand. *)
Lemma count_brand_find_matches (db : PencilDatabase) (target_rgb : RGB)
    (max_matches : Z) (max_difference : R) (b : string) :
  b = "Prismacolor" \/ b = "Faber Castell" ->
  count_brand b (find_matches db target_rgb max_matches max_difference)
  = List.length (brand_matches db target_rgb max_matches max_difference b).
Proof.
  intros Hb. rewrite find_matches_unfold, count_brand_app.
  pose proof (brand_matches_brand db target_rgb max_matches max_difference "Prismacolor") as HP.
  pose proof (brand_matches_brand db target_rgb max_matches max_difference "Faber Castell") as HF.
  destruct Hb as [-> | ->].
  - rewrite (count_brand_all _ _ HP), (count_brand_other _ _ _ HF) by discriminate. lia.
  - rewrite (count_brand_all _ _ HF), (count_brand_other _ _ _ HP) by discriminate. lia.
Qed.

Lemma In_find_matches_brand (db : PencilDatabase) (target_rgb : RGB)
    (max_matches : Z) (max_difference : R) (b : string) (m : Match.t) :
  b = "Prismacolor" \/ b = "Faber Castell" ->
  (In m (find_matches db target_rgb max_matches max_difference) /\ Match.brand m = b
   <-> In m (brand_matches db target_rgb max_matches max_difference b)).
Proof.
  intros Hb. rewrite find_matches_unfold. split.
  - intros [H Hm]. apply in_app_or in H. destruct H as [H|H].
    + pose proof (brand_matches_brand db target_rgb max_matches max_difference "Prismacolor") as HF.
      rewrite Forall_forall in HF. specialize (HF m H).
      destruct Hb as [-> | ->]; [exact H | congruence].
    + pose proof (brand_matches_brand db target_rgb max_matches max_difference "Faber Castell") as HF.
      rewrite Forall_forall in HF. specialize (HF m H).
      destruct Hb as [-> | ->]; [congruence | exact H].
  - intros H. split.
    + apply in_or_app. destruct Hb as [-> | ->]; [now left | now right].
    + pose proof (brand_matches_brand db target_rgb max_matches max_difference b) as HF.
      rewrite Forall_forall in HF. apply HF, H.
Qed.

(** The pencils [get_all_pencils] lists for one of the two brands. *)
Lemma brand_pencils_of_table (db : PencilDatabase) (b : string) (r : Row.t) :
  (b = "Prismacolor" /\ In r (prismacolor_pencils db))
  \/ (b = "Faber Castell" /\ In r (faber_castell_pencils db)) ->
  In (Pencil.mk (Row.name r) (Row.code r) (Row.rgb r) b)
     (filter (fun p => (Pencil.brand p =? b)%string) (get_all_pencils db)).
Proof.
  destruct (get_all_pencils_filter_brand db) as [HP HF].
  intros [[-> Hr] | [-> Hr]].
  - rewrite HP. unfold get_prismacolor_pencils, with_brand.
    apply in_map_iff. exists r. auto.
  - rewrite HF. unfold get_faber_castell_pencils, with_brand.
    apply in_map_iff. exists r. auto.
Qed.

Lemma strongly_sorted_app_le {A : Type} (rel : A -> A -> Prop) (l1 l2 : list A) :
  StronglySorted rel (l1 ++ l2) ->
  forall x y, In x l1 -> In y l2 -> rel x y.
Proof.
  induction l1 as [|a l1 IH]; simpl; intros H x y Hx Hy; [destruct Hx |].
  apply StronglySorted_inv in H. destruct H as [Hs Ha].
  destruct Hx as [<- | Hx].
  - rewrite Forall_forall in Ha. apply Ha, in_or_app. now right.
  - apply IH; assumption.
Qed.

Lemma slice_to_nonneg {A : Type} (n : Z) (l : list A) :
  (0 <= n)%Z -> slice_to n l = firstn (Z.to_nat n) l.
Proof.
  intros Hn. unfold slice_to.
  destruct (n <? 0)%Z eqn:E; [apply Z.ltb_lt in E; lia | reflexivity].
Qed.

(** X7. [find_matches] returns the empty list when [max_matches] is 0, when
    [max_difference] is negative, and when the catalogue has neither a
    Prismacolor nor a Faber Castell row. *)
Theorem find_matches_returns_nothing
    (db : PencilDatabase) (target_rgb : RGB) (max_matches : Z) (max_difference : R) :
  max_matches = 0%Z \/ max_difference < 0
  \/ (prismacolor_pencils db = [] /\ faber_castell_pencils db = []) ->
  find_matches db target_rgb max_matches max_difference = [].
Proof.
  intros H. rewrite find_matches_unfold.
  assert (Hb : forall b, b = "Prismacolor" \/ b = "Faber Castell" ->
             brand_matches db target_rgb max_matches max_difference b = []).
  { intros b Hb. destruct H as [-> | [H | [HP HF]]].
    - reflexivity.
    - apply brand_matches_nil_table, filter_none. intros p _.
      apply Rleb_false.
      pose proof (color_difference_nonneg target_rgb (Pencil.rgb p)). lra.
    - apply brand_matches_nil_table.
      destruct (get_all_pencils_filter_brand db) as [EP EF].
      destruct Hb as [-> | ->].
      + rewrite EP. unfold get_prismacolor_pencils. now rewrite HP.
      + rewrite EF. unfold get_faber_castell_pencils. now rewrite HF. }
  rewrite !Hb by auto. reflexivity.
Qed.

Lemma find_matches_returns_nothing_witness :
  find_matches dark_db (0, 0, 0)%Z 5 (-1) = [].
Proof.
  apply (find_matches_returns_nothing dark_db (0, 0, 0)%Z 5 (-1)).
  right. left. lra.
Defined.

(** X8. The cap of [find_matches] drops only the farthest pencils of a
    brand. For a non-negative [max_matches], a Prismacolor or Faber Castell
    row within [max_difference] of the target is in the result, unless the
    result already holds [max_matches] entries of that brand, none of them
    farther from the target than the row. *)
Theorem find_matches_drops_only_the_farthest
    (db : PencilDatabase) (target_rgb : RGB) (max_matches : Z) (max_difference : R)
    (b : string) (r : Row.t) :
  (0 <= max_matches)%Z ->
  (b = "Prismacolor" /\ In r (prismacolor_pencils db))
  \/ (b = "Faber Castell" /\ In r (faber_castell_pencils db)) ->
  calculate_color_difference target_rgb (Row.rgb r) <= max_difference ->
  In (row_match target_rgb b r) (find_matches db target_rgb max_matches max_difference)
  \/ (count_brand b (find_matches db target_rgb max_matches max_difference)
      = Z.to_nat max_matches
      /\ forall m, In m (find_matches db target_rgb max_matches max_difference) ->
           Match.brand m = b ->
           Match.color_difference m <= calculate_color_difference target_rgb (Row.rgb r)).
Proof.
  intros Hmm Hr Hd.
  assert (Hb : b = "Prismacolor" \/ b = "Faber Castell") by tauto.
  pose proof (In_find_matches_brand db target_rgb max_matches max_difference b) as Hin.
  rewrite count_brand_find_matches by exact Hb.
  rewrite brand_matches_of_pencils in *. rewrite slice_to_nonneg in * by exact Hmm.
  set (S := sort_by_key Match.color_difference _) in *.
  assert (HS : In (row_match target_rgb b r) S).
  { eapply Permutation_in; [apply Permutation_sym, sort_by_key_perm |].
    unfold row_match. apply in_map, filter_In. split; [apply brand_pencils_of_table, Hr |].
    apply Rleb_true. exact Hd. }
  assert (Hsorted : StronglySorted (fun x y => Match.color_difference x <= Match.color_difference y) S)
    by apply sort_by_key_sorted.
  rewrite <- (firstn_skipn (Z.to_nat max_matches) S) in HS, Hsorted.
  apply in_app_or in HS. destruct HS as [HS | HS].
  - left. apply (Hin _ Hb) in HS. apply HS.
  - right. split.
    + rewrite length_firstn. apply Nat.min_l.
      destruct (Nat.le_gt_cases (Z.to_nat max_matches) (List.length S)) as [Hle|Hgt];
        [exact Hle |].
      rewrite skipn_all2 in HS by lia. destruct HS.
    + intros m Hm Hbm.
      assert (Hm' : In m (firstn (Z.to_nat max_matches) S)) by (apply (Hin m Hb); auto).
      exact (strongly_sorted_app_le _ _ _ Hsorted _ _ Hm' HS).
Qed.

Lemma find_matches_drops_only_the_farthest_witness :
  In (row_match (0, 0, 0)%Z "Prismacolor" (Row.mk "Near Black" "PC000" (10, 10, 10)%Z))
     (find_matches dark_db (0, 0, 0)%Z 1 50)
  \/ (count_brand "Prismacolor" (find_matches dark_db (0, 0, 0)%Z 1 50) = Z.to_nat 1
      /\ forall m, In m (find_matches dark_db (0, 0, 0)%Z 1 50) ->
           Match.brand m = "Prismacolor" ->
           Match.color_difference m
           <= calculate_color_difference (0, 0, 0)%Z (10, 10, 10)%Z).
Proof.
  apply (find_matches_drops_only_the_farthest dark_db (0, 0, 0)%Z 1 50 "Prismacolor"
           (Row.mk "Near Black" "PC000" (10, 10, 10)%Z)).
  - lia.
  - left. split; [reflexivity |]. simpl. auto.
  - apply near_black_difference.
Defined.

(** *** The best match and the head of a brand's run *)

Section BestMatchFirst.
Variable target_rgb : RGB.

Let diff (p : Pencil.t) : R := calculate_color_difference target_rgb (Pencil.rgb p).

(** The scan of [find_best_match] keeps the first pencil of least difference. *)
Lemma find_best_match_loop_first (ps seen : list Pencil.t)
    (st : option Match.t * ext_real) :
  ((seen = [] /\ st = (None, PosInf))
   \/ exists l1 p l2, seen = l1 ++ p :: l2
        /\ st = (Some (match_info target_rgb p), Finite (diff p))
        /\ first_least diff l1 p l2) ->
  (seen ++ ps = [] /\ fold_left (find_best_match_step target_rgb) ps st = (None, PosInf))
  \/ exists l1 p l2, seen ++ ps = l1 ++ p :: l2
       /\ fold_left (find_best_match_step target_rgb) ps st
          = (Some (match_info target_rgb p), Finite (diff p))
       /\ first_least diff l1 p l2.
Proof using Type.
  revert seen st. induction ps as [|q ps IH]; intros seen st H.
  - rewrite app_nil_r. exact H.
  - replace (seen ++ q :: ps) with ((seen ++ [q]) ++ ps) by now rewrite <- app_assoc.
    cbn [fold_left]. apply IH. right.
    destruct H as [[-> ->] | (l1 & p & l2 & -> & -> & H1 & H2)].
    + exists [], q, []. repeat split; intros x [].
    + unfold find_best_match_step, lt_ext. fold (diff q).
      destruct (Rltb (diff q) (diff p)) eqn:E.
      * apply Rltb_true in E. exists (l1 ++ p :: l2), q, [].
        split; [reflexivity |]. split; [reflexivity |]. split; [| intros x []].
        intros x Hx. apply in_app_or in Hx. destruct Hx as [Hx | [<- | Hx]].
        -- specialize (H1 x Hx). lra.
        -- exact E.
        -- specialize (H2 x Hx). lra.
      * apply Rltb_false in E. exists l1, p, (l2 ++ [q]).
        split; [now rewrite <- app_assoc |]. split; [reflexivity |]. split; [exact H1 |].
        intros x Hx. apply in_app_or in Hx. destruct Hx as [Hx | [<- | []]];
          [apply H2, Hx | exact E].
Qed.

Lemma find_best_match_first (db : PencilDatabase) (brand : option string) (m : Match.t) :
  find_best_match db target_rgb brand = Some m ->
  exists l1 p l2, best_match_pencils db brand = l1 ++ p :: l2
    /\ m = match_info target_rgb p /\ first_least diff l1 p l2.
Proof using Type.
  unfold find_best_match. intros H.
  destruct (find_best_match_loop_first (best_match_pencils db brand) [] (None, PosInf))
    as [[_ E] | (l1 & p & l2 & E1 & E2 & HF)]; [left; auto | |].
  - rewrite E in H. discriminate H.
  - rewrite E2 in H. injection H as <-. exists l1, p, l2. auto.
Qed.
End BestMatchFirst.

Lemma best_match_pencils_brand (db : PencilDatabase) (b : string) :
  b = "Prismacolor" \/ b = "Faber Castell" ->
  best_match_pencils db (Some b)
  = filter (fun p => (Pencil.brand p =? b)%string) (get_all_pencils db).
Proof.
  destruct (get_all_pencils_filter_brand db) as [HP HF].
  intros [-> | ->]; [rewrite HP | rewrite HF]; reflexivity.
Qed.

(** X9. [find_best_match] with the filter Prismacolor or Faber Castell and
    [find_matches] agree on the closest pencil of the brand. If the best
    match is within [max_difference] and [max_matches] is at least 1, it is
    the first entry of its brand in the result of [find_matches] (the very
    first entry for Prismacolor); if it is farther than [max_difference],
    the result has no entry of the brand. *)
Theorem best_match_leads_find_matches
    (db : PencilDatabase) (target_rgb : RGB) (max_matches : Z) (max_difference : R)
    (b : string) (m : Match.t) :
  (1 <= max_matches)%Z ->
  b = "Prismacolor" \/ b = "Faber Castell" ->
  find_best_match db target_rgb (Some b) = Some m ->
  (Match.color_difference m <= max_difference ->
     exists others rest,
       find_matches db target_rgb max_matches max_difference = others ++ m :: rest
       /\ Forall (fun x => Match.brand x <> b) others
       /\ (b = "Prismacolor" -> others = []))
  /\ (max_difference < Match.color_difference m ->
        count_brand b (find_matches db target_rgb max_matches max_difference) = 0%nat).
Proof.
  intros Hmm Hb Hbest.
  apply find_best_match_first in Hbest. destruct Hbest as (l1 & p & l2 & Hps & -> & H1 & H2).
  rewrite best_match_pencils_brand in Hps by exact Hb.
  cbn [match_info Match.color_difference].
  set (d := fun q => calculate_color_difference target_rgb (Pencil.rgb q)) in *.
  split.
  - intros Hd.
    assert (Hrun : exists rest, brand_matches db target_rgb max_matches max_difference b
                                = match_info target_rgb p :: rest).
    { rewrite brand_matches_of_pencils, Hps, filter_app. cbn [filter].
      replace (Rleb _ max_difference) with true by (symmetry; apply Rleb_true, Hd).
      rewrite map_app. cbn [map].
      destruct (sort_by_key_head Match.color_difference
                  (map (match_info target_rgb)
                     (filter (fun q => Rleb (d q) max_difference) l1))
                  (match_info target_rgb p)
                  (map (match_info target_rgb)
                     (filter (fun q => Rleb (d q) max_difference) l2)))
        as (rest & Hrest).
      - split; intros x Hx; apply in_map_iff in Hx; destruct Hx as (q & <- & Hq);
          apply filter_In in Hq; destruct Hq as [Hq _]; cbn [match_info Match.color_difference].
        + apply (H1 q Hq).
        + apply (H2 q Hq).
      - unfold d in Hrest. rewrite Hrest, slice_to_nonneg by lia.
        replace (Z.to_nat max_matches) with (S (Z.to_nat (max_matches - 1))) by lia.
        cbn [firstn]. eexists. reflexivity. }
    destruct Hrun as (rest & Hrun). rewrite find_matches_unfold.
    destruct Hb as [-> | ->]; rewrite Hrun.
    + exists [], (rest ++ brand_matches db target_rgb max_matches max_difference "Faber Castell").
      split; [reflexivity |]. split; [constructor | reflexivity].
    + exists (brand_matches db target_rgb max_matches max_difference "Prismacolor"), rest.
      split; [reflexivity |]. split; [| discriminate].
      eapply Forall_impl; [| apply brand_matches_brand].
      intros x ->. discriminate.
  - intros Hd. rewrite count_brand_find_matches by exact Hb.
    rewrite brand_matches_nil_table; [reflexivity |].
    apply filter_none. intros q Hq. apply Rleb_false.
    rewrite Hps in Hq. apply in_app_or in Hq.
    destruct Hq as [Hq | [<- | Hq]].
    + specialize (H1 q Hq). lra.
    + exact Hd.
    + specialize (H2 q Hq). lra.
Qed.

Lemma find_best_match_dark :
  find_best_match dark_db (0, 0, 0)%Z (Some "Prismacolor")
  = Some (row_match (0, 0, 0)%Z "Prismacolor" (Row.mk "Black" "PC935" (0, 0, 0)%Z)).
Proof.
  pose proof near_black_difference as [Hpos Hle].
  pose proof (color_difference_self (0, 0, 0)%Z) as Hself.
  unfold find_best_match, best_match_pencils, brand_given, get_prismacolor_pencils, dark_db,
    with_brand, row_match, find_best_match_step, match_info, lt_ext.
  cbn -[calculate_color_difference Rltb Rleb].
  rewrite !Hself.
  set (d := calculate_color_difference (0, 0, 0)%Z (10, 10, 10)%Z) in *.
  repeat (progress (decide_cmp; cbn -[calculate_color_difference Rltb Rleb])).
  reflexivity.
Qed.

Lemma best_match_leads_find_matches_witness :
  exists others rest,
    find_matches dark_db (0, 0, 0)%Z 5 50
    = others ++ row_match (0, 0, 0)%Z "Prismacolor" (Row.mk "Black" "PC935" (0, 0, 0)%Z) :: rest
    /\ Forall (fun x => Match.brand x <> "Prismacolor") others
    /\ ("Prismacolor" = "Prismacolor" -> others = []).
Proof.
  apply (best_match_leads_find_matches dark_db (0, 0, 0)%Z 5 50 "Prismacolor"
           (row_match (0, 0, 0)%Z "Prismacolor" (Row.mk "Black" "PC935" (0, 0, 0)%Z))).
  - lia.
  - left. reflexivity.
  - exact find_best_match_dark.
  - unfold row_match. cbn [match_info Match.color_difference Pencil.rgb].
    rewrite color_difference_self. lra.
Defined.

(** ** Match quality *)

Lemma quality_tier_cases (d : R) :
  (d < 3 /\ calculate_match_quality d = "Excellent match"
   /\ _get_quality_text d = "Excellent")
  \/ (3 <= d < 6 /\ calculate_match_quality d = "Very good match"
      /\ _get_quality_text d = "Very Good")
  \/ (6 <= d < 12 /\ calculate_match_quality d = "Good match"
      /\ _get_quality_text d = "Good")
  \/ (12 <= d < 25 /\ calculate_match_quality d = "Acceptable match"
      /\ _get_quality_text d = "Acceptable")
  \/ (25 <= d /\ calculate_match_quality d = "Poor match"
      /\ _get_quality_text d = "Poor").
Proof.
  unfold calculate_match_quality, _get_quality_text.
  destruct (Rltb d 3) eqn:E3; [apply Rltb_true in E3; tauto | apply Rltb_false in E3].
  destruct (Rltb d 6) eqn:E6; [apply Rltb_true in E6; tauto | apply Rltb_false in E6].
  destruct (Rltb d 12) eqn:E12; [apply Rltb_true in E12; tauto | apply Rltb_false in E12].
  destruct (Rltb d 25) eqn:E25; [apply Rltb_true in E25; tauto | apply Rltb_false in E25].
  tauto.
Qed.

Lemma quality_tier_monotone (d1 d2 : R) :
  d1 <= d2 ->
  (quality_tier (calculate_match_quality d1) <= quality_tier (calculate_match_quality d2))%nat.
Proof.
  intros H.
  destruct (quality_tier_cases d1) as [(B1 & -> & _) | [(B1 & -> & _) | [(B1 & -> & _)
    | [(B1 & -> & _) | (B1 & -> & _)]]]];
  destruct (quality_tier_cases d2) as [(B2 & -> & _) | [(B2 & -> & _) | [(B2 & -> & _)
    | [(B2 & -> & _) | (B2 & -> & _)]]]];
  try lra; vm_compute; lia.
Qed.

(** X10. The quality labels are ordered by the difference: a larger
    difference never gets a better label from [calculate_match_quality] or
    from [_get_quality_text], both always pick one of their five labels,
    and they pick the same tier for the same difference. *)
Theorem match_quality_monotone (d1 d2 : R) :
  d1 <= d2 ->
  (quality_tier (calculate_match_quality d1) <= quality_tier (calculate_match_quality d2))%nat
  /\ (quality_tier (_get_quality_text d1) <= quality_tier (_get_quality_text d2))%nat
  /\ quality_tier (_get_quality_text d1) = quality_tier (calculate_match_quality d1)
  /\ (quality_tier (calculate_match_quality d2) <= 4)%nat.
Proof.
  intros H.
  destruct (quality_tier_cases d1) as [(B1 & -> & ->) | [(B1 & -> & ->) | [(B1 & -> & ->)
    | [(B1 & -> & ->) | (B1 & -> & ->)]]]];
  destruct (quality_tier_cases d2) as [(B2 & -> & ->) | [(B2 & -> & ->) | [(B2 & -> & ->)
    | [(B2 & -> & ->) | (B2 & -> & ->)]]]];
  try lra; vm_compute; repeat split; lia.
Qed.

Lemma match_quality_monotone_witness :
  (quality_tier (calculate_match_quality 2) <= quality_tier (calculate_match_quality 30))%nat
  /\ (quality_tier (_get_quality_text 2) <= quality_tier (_get_quality_text 30))%nat
  /\ quality_tier (_get_quality_text 2) = quality_tier (calculate_match_quality 2)
  /\ (quality_tier (calculate_match_quality 30) <= 4)%nat.
Proof.
  apply (match_quality_monotone 2 30). lra.
Defined.

(** X11. No match that [find_matches] returns gets a worse label than the
    threshold itself would: with [max_difference] below 25 no match is a
    Poor match, below 3 every match is an Excellent match. *)
Theorem find_matches_quality_bounded_by_threshold
    (db : PencilDatabase) (target_rgb : RGB) (max_matches : Z) (max_difference : R)
    (m : Match.t) :
  In m (find_matches db target_rgb max_matches max_difference) ->
  (quality_tier (calculate_match_quality (Match.color_difference m))
   <= quality_tier (calculate_match_quality max_difference))%nat
  /\ (max_difference < 25 ->
        calculate_match_quality (Match.color_difference m) <> "Poor match")
  /\ (max_difference < 3 ->
        calculate_match_quality (Match.color_difference m) = "Excellent match").
Proof.
  intros H. rewrite find_matches_unfold in H.
  assert (Hd : Match.color_difference m <= max_difference).
  { apply in_app_or in H.
    destruct H as [H | H]; apply brand_matches_from_table in H;
      destruct H as (p & _ & _ & H); exact H. }
  split; [apply quality_tier_monotone, Hd |].
  destruct (quality_tier_cases (Match.color_difference m))
    as [(B & -> & _) | [(B & -> & _) | [(B & -> & _) | [(B & -> & _) | (B & -> & _)]]]];
    split; intros Hmax; try lra; try discriminate; reflexivity.
Qed.

Lemma find_matches_quality_bounded_by_threshold_witness :
  (quality_tier (calculate_match_quality
     (Match.color_difference
        (row_match (0, 0, 0)%Z "Prismacolor" (Row.mk "Black" "PC935" (0, 0, 0)%Z))))
   <= quality_tier (calculate_match_quality 50))%nat
  /\ (50 < 25 ->
        calculate_match_quality
          (Match.color_difference
             (row_match (0, 0, 0)%Z "Prismacolor" (Row.mk "Black" "PC935" (0, 0, 0)%Z)))
        <> "Poor match")
  /\ (50 < 3 ->
        calculate_match_quality
          (Match.color_difference
             (row_match (0, 0, 0)%Z "Prismacolor" (Row.mk "Black" "PC935" (0, 0, 0)%Z)))
        = "Excellent match").
Proof.
  apply (find_matches_quality_bounded_by_threshold dark_db (0, 0, 0)%Z 5 50).
  rewrite find_matches_dark. left. reflexivity.
Defined.

(** ** Matches of a palette *)

Lemma dict_set_fresh {V : Type} (d : list (Z * V)) (k : Z) (v : V) :
  dict_get Z.eqb d k = None -> dict_set Z.eqb d k v = d ++ [(k, v)].
Proof.
  induction d as [|[k' v'] t IH]; simpl; [reflexivity |].
  destruct (k' =? k)%Z; [discriminate |]. intros H. now rewrite IH.
Qed.

Lemma dict_get_app {V : Type} (d1 d2 : list (Z * V)) (k : Z) :
  dict_get Z.eqb (d1 ++ d2) k
  = match dict_get Z.eqb d1 k with Some v => Some v | None => dict_get Z.eqb d2 k end.
Proof.
  induction d1 as [|[k' v'] t IH]; simpl; [reflexivity |].
  destruct (k' =? k)%Z; [reflexivity | exact IH].
Qed.

(** Setting new keys one after the other appends the entries in that order. *)
Lemma dict_set_fold_fresh {A V : Type} (f : A -> V) (ics : list (Z * A)) (acc : list (Z * V)) :
  NoDup (map fst ics) ->
  (forall ic, In ic ics -> dict_get Z.eqb acc (fst ic) = None) ->
  fold_left (fun d ic => dict_set Z.eqb d (fst ic) (f (snd ic))) ics acc
  = acc ++ map (fun ic => (fst ic, f (snd ic))) ics.
Proof.
  revert acc. induction ics as [|ic ics IH]; intros acc Hnd Hacc; cbn [fold_left map].
  - now rewrite app_nil_r.
  - cbn [map] in Hnd. apply NoDup_cons_iff in Hnd. destruct Hnd as [Hni Hnd].
    rewrite dict_set_fresh by (apply Hacc; now left).
    rewrite IH; [now rewrite <- app_assoc | exact Hnd |].
    intros ic' Hic'. rewrite dict_get_app, Hacc by now right. cbn [dict_get].
    destruct (Z.eqb_spec (fst ic) (fst ic')) as [E|E]; [| reflexivity].
    exfalso. apply Hni. rewrite E. apply in_map, Hic'.
Qed.

Lemma range_NoDup (n : Z) : NoDup (range n).
Proof.
  unfold range. generalize (seq_NoDup (Z.to_nat n) 0).
  induction 1 as [|a l Ha _ IH]; simpl; constructor; [| exact IH].
  intros H. apply in_map_iff in H. destruct H as (b & Hb & Hin).
  apply Nat2Z.inj in Hb. subst b. exact (Ha Hin).
Qed.

Lemma dict_get_indexed {A V : Type} (f : A -> V) (l : list A) (s : nat) (i : Z) :
  dict_get Z.eqb
    (map (fun ic => (fst ic, f (snd ic)))
       (combine (map Z.of_nat (seq s (List.length l))) l)) i
  = if (Z.of_nat s <=? i)%Z
    then option_map f (nth_error l (Z.to_nat i - s))
    else None.
Proof.
  revert s. induction l as [|c t IH]; intros s; cbn [List.length seq map combine dict_get fst snd].
  - destruct (Z.of_nat s <=? i)%Z; [| reflexivity]. now destruct (Z.to_nat i - s)%nat.
  - destruct (Z.eqb_spec (Z.of_nat s) i) as [E|E].
    + replace (Z.of_nat s <=? i)%Z with true by (symmetry; apply Z.leb_le; lia).
      replace (Z.to_nat i - s)%nat with 0%nat by lia. reflexivity.
    + rewrite IH.
      destruct (Z.leb_spec (Z.of_nat (S s)) i) as [H|H];
        destruct (Z.leb_spec (Z.of_nat s) i) as [H'|H']; try lia; try reflexivity.
      replace (Z.to_nat i - s)%nat with (S (Z.to_nat i - S s)) by lia. reflexivity.
Qed.

(** X12. [get_color_palette_matches] has exactly the keys 0 .. n-1 for a
    palette of n colours, in that order, and the value under the key i is
    what [find_matches] returns for the i-th colour with the cap given and
    the default threshold 50; any other key is missing. *)
Theorem palette_matches_by_index
    (db : PencilDatabase) (color_palette : list RGB) (max_matches_per_color : Z) :
  map fst (get_color_palette_matches db color_palette max_matches_per_color)
  = range (Z.of_nat (List.length color_palette))
  /\ forall i : Z,
       dict_get Z.eqb (get_color_palette_matches db color_palette max_matches_per_color) i
       = if (0 <=? i)%Z
         then option_map (fun color_rgb => find_matches db color_rgb max_matches_per_color 50)
                (nth_error color_palette (Z.to_nat i))
         else None.
Proof.
  assert (E : get_color_palette_matches db color_palette max_matches_per_color
              = map (fun ic => (fst ic, find_matches db (snd ic) max_matches_per_color 50))
                  (enumerate color_palette)).
  { unfold get_color_palette_matches.
    rewrite (dict_set_fold_fresh
               (fun c => find_matches db c max_matches_per_color 50)); [reflexivity | |].
    - rewrite enumerate_fst. apply range_NoDup.
    - reflexivity. }
  rewrite E. split.
  - rewrite map_map. cbn [fst]. apply enumerate_fst.
  - intros i. unfold enumerate, range. rewrite Nat2Z.id.
    rewrite (dict_get_indexed (fun c => find_matches db c max_matches_per_color 50)).
    cbn [Z.of_nat]. now rewrite Nat.sub_0_r.
Qed.

(** ** De-duplicated match lists *)

Section DictFacts.
Context {V : Type}.
Implicit Types (d : list (string * V)) (k : string) (v : V).

Lemma dict_get_In d k v : dict_get String.eqb d k = Some v -> In (k, v) d.
Proof using Type.
  induction d as [|[k' v'] t IH]; simpl; [discriminate |].
  destruct (String.eqb_spec k' k) as [-> | _].
  - intros [= ->]. now left.
  - intros H. right. apply IH, H.
Qed.

Lemma dict_get_None d k : dict_get String.eqb d k = None -> ~ In k (map fst d).
Proof using Type.
  induction d as [|[k' v'] t IH]; simpl; [tauto |].
  destruct (String.eqb_spec k' k) as [-> | Hne]; [discriminate |].
  intros H [E | Hin]; [contradiction | exact (IH H Hin)].
Qed.

Lemma dict_set_new d k v :
  dict_get String.eqb d k = None -> dict_set String.eqb d k v = d ++ [(k, v)].
Proof using Type.
  induction d as [|[k' v'] t IH]; simpl; [reflexivity |].
  destruct (k' =? k)%string; [discriminate |]. intros H. now rewrite IH.
Qed.

Lemma dict_set_keys d k v v0 :
  dict_get String.eqb d k = Some v0 -> map fst (dict_set String.eqb d k v) = map fst d.
Proof using Type.
  induction d as [|[k' v'] t IH]; simpl; [discriminate |].
  destruct (k' =? k)%string; [reflexivity |]. intros H. simpl. now rewrite IH.
Qed.

Lemma dict_set_In d k v (x : string * V) :
  In x (dict_set String.eqb d k v) -> x = (k, v) \/ In x d.
Proof using Type.
  induction d as [|[k' v'] t IH]; simpl.
  - intros [<- | []]. now left.
  - destruct (String.eqb_spec k' k) as [-> | _]; simpl.
    + intros [<- | H]; auto.
    + intros [<- | H]; auto. destruct (IH H); auto.
Qed.

Lemma dict_set_In_other d k v k' v' :
  In (k', v') d -> k' <> k -> In (k', v') (dict_set String.eqb d k v).
Proof using Type.
  induction d as [|[k0 v0] t IH]; simpl; [tauto |].
  intros [[= -> ->] | H] Hne.
  - destruct (String.eqb_spec k' k); [contradiction | now left].
  - destruct (k0 =? k)%string; right; [exact H | apply IH; assumption].
Qed.

Lemma dict_set_In_new d k v : In (k, v) (dict_set String.eqb d k v).
Proof using Type.
  induction d as [|[k0 v0] t IH]; simpl; [now left |].
  destruct (String.eqb_spec k0 k) as [-> | _]; [now left | now right].
Qed.

Lemma NoDup_fst_unique d k v1 v2 :
  NoDup (map fst d) -> In (k, v1) d -> In (k, v2) d -> v1 = v2.
Proof using Type.
  induction d as [|[k0 v0] t IH]; simpl; [tauto |].
  intros Hnd. apply NoDup_cons_iff in Hnd. destruct Hnd as [Hni Hnd].
  intros [[= -> ->] | H1] [[= E] | H2].
  - exact E.
  - exfalso. apply Hni. change k with (fst (k, v2)). apply in_map, H2.
  - subst. exfalso. apply Hni. change k with (fst (k, v1)). apply in_map, H1.
  - apply IH; assumption.
Qed.
End DictFacts.

Section UniqueFacts.
Variable key : Match.t -> string.

(** What the dictionary holds once the matches [seen] went through the loop. *)
Let unique_inv (seen : list Match.t) (d : list (string * Match.t)) : Prop :=
  NoDup (map fst d)
  /\ (forall k e, In (k, e) d -> key e = k /\ In e seen)
  /\ (forall m, In m seen ->
        exists e, In (key m, e) d /\ Match.color_difference e <= Match.color_difference m).

Lemma unique_step_inv (seen : list Match.t) (d : list (string * Match.t)) (m : Match.t) :
  unique_inv seen d -> unique_inv (seen ++ [m]) (unique_step key d m).
Proof using Type.
  intros (Hnd & Hent & Hmin). unfold unique_step.
  destruct (dict_get String.eqb d (key m)) as [stored|] eqn:Eg.
  - pose proof (dict_get_In _ _ _ Eg) as Hstored.
    destruct (Rltb (Match.color_difference m) (Match.color_difference stored)) eqn:E.
    + apply Rltb_true in E. split; [| split].
      * now rewrite (dict_set_keys _ _ _ _ Eg).
      * intros k e H. apply dict_set_In in H. destruct H as [[= -> ->] | H].
        -- split; [reflexivity | apply in_or_app; right; now left].
        -- destruct (Hent k e H) as [Hk He]. split; [exact Hk | apply in_or_app; now left].
      * intros m' Hm'. apply in_app_or in Hm'. destruct Hm' as [Hm' | [<- | []]].
        -- destruct (Hmin m' Hm') as (e & He & Hle).
           destruct (String.eqb_spec (key m') (key m)) as [Ek | Ek].
           ++ exists m. rewrite Ek in *. split; [apply dict_set_In_new |].
              rewrite (NoDup_fst_unique _ _ _ _ Hnd He Hstored) in Hle. lra.
           ++ exists e. split; [apply dict_set_In_other; assumption | exact Hle].
        -- exists m. split; [apply dict_set_In_new | lra].
    + apply Rltb_false in E. split; [exact Hnd | split].
      * intros k e H. destruct (Hent k e H) as [Hk He].
        split; [exact Hk | apply in_or_app; now left].
      * intros m' Hm'. apply in_app_or in Hm'. destruct Hm' as [Hm' | [<- | []]].
        -- apply Hmin, Hm'.
        -- exists stored. split; [exact Hstored | exact E].
  - rewrite (dict_set_new _ _ _ Eg). split; [| split].
    + rewrite map_app. cbn [map fst]. apply NoDup_app.
      * exact Hnd.
      * repeat constructor. intros [].
      * intros k Hk [<- | []]. exact (dict_get_None _ _ Eg Hk).
    + intros k e H. apply in_app_or in H. destruct H as [H | [[= <- <-] | []]].
      * destruct (Hent k e H) as [Hk He]. split; [exact Hk | apply in_or_app; now left].
      * split; [reflexivity | apply in_or_app; right; now left].
    + intros m' Hm'. apply in_app_or in Hm'. destruct Hm' as [Hm' | [<- | []]].
      * destruct (Hmin m' Hm') as (e & He & Hle). exists e.
        split; [apply in_or_app; now left | exact Hle].
      * exists m. split; [apply in_or_app; right; now left | lra].
Qed.

Lemma unique_loop_inv (matches seen : list Match.t) (d : list (string * Match.t)) :
  unique_inv seen d ->
  unique_inv (seen ++ matches) (fold_left (unique_step key) matches d).
Proof using Type.
  revert seen d. induction matches as [|m t IH]; intros seen d H; cbn [fold_left].
  - now rewrite app_nil_r.
  - replace (seen ++ m :: t) with ((seen ++ [m]) ++ t) by now rewrite <- app_assoc.
    apply IH, unique_step_inv, H.
Qed.

(** The sorted list of the de-duplicated matches: ascending differences, one
    entry per key, only matches of the input, and for each match of the
    input an entry of the same key that is at least as close. *)
Lemma sorted_unique_spec (matches : list Match.t) :
  ascending (map Match.color_difference (sorted_unique key matches))
  /\ NoDup (map key (sorted_unique key matches))
  /\ (forall e, In e (sorted_unique key matches) -> In e matches)
  /\ (forall m, In m matches ->
        exists e, In e (sorted_unique key matches) /\ key e = key m
                  /\ Match.color_difference e <= Match.color_difference m).
Proof using Type.
  assert (H0 : unique_inv [] []).
  { split; [constructor |]. split; [intros k e [] | intros m []]. }
  pose proof (unique_loop_inv matches [] [] H0) as (Hnd & Hent & Hmin). simpl in Hent, Hmin.
  unfold sorted_unique.
  set (d := fold_left (unique_step key) matches []) in *.
  assert (Hperm : Permutation (sort_by_key Match.color_difference (map snd d)) (map snd d))
    by apply sort_by_key_perm.
  split; [| split; [| split]].
  - apply strongly_sorted_map with (rel := Rle), sort_by_key_sorted.
  - eapply Permutation_NoDup; [apply Permutation_map, Permutation_sym, Hperm |].
    rewrite map_map.
    replace (map (fun x => key (snd x)) d) with (map fst d); [exact Hnd |].
    apply map_ext_in. intros [k e] H. symmetry. apply (Hent k e H).
  - intros e He. eapply Permutation_in in He; [| exact Hperm].
    apply in_map_iff in He. destruct He as ([k e'] & <- & H). apply (Hent k e' H).
  - intros m Hm. destruct (Hmin m Hm) as (e & He & Hle). exists e.
    split; [| split; [apply (Hent _ _ He) | exact Hle]].
    eapply Permutation_in; [apply Permutation_sym, Hperm |].
    change e with (snd (key m, e)). apply in_map, He.
Qed.
End UniqueFacts.

(** X13. The shopping list of [create_pencil_shopping_list]: the pencils
    are in ascending order of colour difference, no two of them have the
    same key brand_code, each of them is one of the matches passed in, and
    every match passed in is represented by a pencil of the same key that
    is at least as close. The text format lists at most ten pencils for
    each of Prismacolor and Faber Castell, all taken from that list, and no
    pencil of another brand. *)
Theorem shopping_list_sorted_unique_closest (pencil_matches : list Match.t) :
  ascending (map Match.color_difference (sorted_pencils pencil_matches))
  /\ NoDup (map shopping_key (sorted_pencils pencil_matches))
  /\ (forall p, In p (sorted_pencils pencil_matches) -> In p pencil_matches)
  /\ (forall m, In m pencil_matches ->
        exists p, In p (sorted_pencils pencil_matches)
                  /\ shopping_key p = shopping_key m
                  /\ Match.color_difference p <= Match.color_difference m)
  /\ (forall p, In p (fst (shopping_list_text_pencils pencil_matches)) ->
        Match.brand p = "Prismacolor" /\ In p (sorted_pencils pencil_matches))
  /\ (forall p, In p (snd (shopping_list_text_pencils pencil_matches)) ->
        Match.brand p = "Faber Castell" /\ In p (sorted_pencils pencil_matches))
  /\ (List.length (fst (shopping_list_text_pencils pencil_matches)) <= 10)%nat
  /\ (List.length (snd (shopping_list_text_pencils pencil_matches)) <= 10)%nat.
Proof.
  destruct (sorted_unique_spec shopping_key pencil_matches) as (Hs & Hnd & Hin & Hmin).
  repeat (split; [assumption |]).
  unfold shopping_list_text_pencils. cbn [fst snd].
  split; [| split; [| split]].
  - intros p Hp. apply slice_to_In, filter_In in Hp. destruct Hp as [Hp Hb].
    split; [apply String.eqb_eq, Hb | exact Hp].
  - intros p Hp. apply slice_to_In, filter_In in Hp. destruct Hp as [Hp Hb].
    split; [apply String.eqb_eq, Hb | exact Hp].
  - pose proof (slice_to_length 10
      (filter (fun p => (Match.brand p =? "Prismacolor")%string)
         (sorted_pencils pencil_matches))). lia.
  - pose proof (slice_to_length 10
      (filter (fun p => (Match.brand p =? "Faber Castell")%string)
         (sorted_pencils pencil_matches))). lia.
Qed.

(** X14. [display_pencil_matches] shows at most ten matches, in ascending
    order of colour difference, with pairwise different keys
    brand_name_code, all of them matches passed in. A match passed in is
    represented by a shown match of the same key that is at least as close,
    unless ten matches are shown and each of them is at least as close as
    that match. *)
Theorem displayed_matches_are_the_closest (matches : list Match.t) :
  ascending (map Match.color_difference (displayed_matches matches))
  /\ NoDup (map display_key (displayed_matches matches))
  /\ (List.length (displayed_matches matches) <= 10)%nat
  /\ (forall e, In e (displayed_matches matches) -> In e matches)
  /\ (forall m, In m matches ->
        (exists e, In e (displayed_matches matches) /\ display_key e = display_key m
                   /\ Match.color_difference e <= Match.color_difference m)
        \/ (List.length (displayed_matches matches) = 10%nat
            /\ forall e, In e (displayed_matches matches) ->
                  Match.color_difference e <= Match.color_difference m)).
Proof.
  destruct (sorted_unique_spec display_key matches) as (_ & Hnd & Hin & Hmin).
  unfold displayed_matches. rewrite slice_to_nonneg by lia.
  set (S := sorted_unique display_key matches) in *.
  assert (Hsorted : StronglySorted
            (fun x y => Match.color_difference x <= Match.color_difference y) S)
    by apply sort_by_key_sorted.
  rewrite <- (firstn_skipn (Z.to_nat 10) S) in Hnd, Hsorted.
  split; [| split; [| split; [| split]]].
  - apply strongly_sorted_map with (rel := Rle), strongly_sorted_firstn, sort_by_key_sorted.
  - rewrite map_app in Hnd. apply NoDup_app_remove_r in Hnd. exact Hnd.
  - rewrite length_firstn. change (Z.to_nat 10) with 10%nat. lia.
  - intros e He. apply Hin, (in_firstn_in _ _ _ He).
  - intros m Hm. destruct (Hmin m Hm) as (e & He & Hk & Hle).
    rewrite <- (firstn_skipn (Z.to_nat 10) S) in He.
    apply in_app_or in He. destruct He as [He | He].
    + left. exists e. auto.
    + right. split.
      * rewrite length_firstn. change (Z.to_nat 10) with 10%nat. apply Nat.min_l.
        destruct (Nat.le_gt_cases 10 (List.length S)) as [Hl | Hl]; [exact Hl |].
        change (Z.to_nat 10) with 10%nat in He.
        rewrite skipn_all2 in He by lia. destruct He.
      * intros x Hx.
        pose proof (strongly_sorted_app_le _ _ _ Hsorted _ _ Hx He). lra.
Qed.

(** ** The palette image *)

Lemma enumerate_from_In {A : Type} (l : list A) (s : nat) (i : Z) (a : A) :
  In (i, a) (combine (map Z.of_nat (seq s (List.length l))) l) ->
  (Z.of_nat s <= i < Z.of_nat s + Z.of_nat (List.length l))%Z.
Proof.
  revert s. induction l as [|c t IH]; intros s; cbn [List.length seq map combine]; [intros [] |].
  intros [[= <- <-] | H]; [lia |]. apply IH in H. lia.
Qed.

Lemma enumerate_In_bounds {A : Type} (l : list A) (i : Z) (a : A) :
  In (i, a) (enumerate l) -> (0 <= i < Z.of_nat (List.length l))%Z.
Proof.
  unfold enumerate, range. rewrite Nat2Z.id. intros H.
  apply enumerate_from_In in H. lia.
Qed.

Lemma enumerate_snd {A : Type} (l : list A) : map snd (enumerate l) = l.
Proof.
  unfold enumerate.
  assert (H : forall (idx : list Z) (xs : list A),
             List.length idx = List.length xs -> map snd (combine idx xs) = xs).
  { induction idx as [|i idx IH]; intros [|x xs] Hlen; simpl in *;
      try discriminate; [reflexivity |]. f_equal. apply IH. lia. }
  apply H. now rewrite range_length, Nat2Z.id.
Qed.

Lemma map_enumerate_snd {A B : Type} (g : Z * A -> B) (h : A -> B) (l : list A) :
  (forall i a, g (i, a) = h a) -> map g (enumerate l) = map h l.
Proof.
  intros H. rewrite <- (enumerate_snd l) at 2. rewrite map_map.
  apply map_ext. intros [i a]. apply H.
Qed.

(** A relation that holds between the images of any two items with
    increasing indices holds between the ordered pairs of the mapped
    enumeration. *)
Lemma enumerate_ordered_pairs {A B : Type} (f : Z * A -> B) (rel : B -> B -> Prop)
    (l : list A) :
  (forall i j a b, (0 <= i < j)%Z -> (j < Z.of_nat (List.length l))%Z ->
                   rel (f (i, a)) (f (j, b))) ->
  ForallOrdPairs rel (map f (enumerate l)).
Proof.
  unfold enumerate, range. rewrite Nat2Z.id. intros H.
  assert (G : forall (t : list A) (s : nat),
             (s + List.length t <= List.length l)%nat ->
             ForallOrdPairs rel (map f (combine (map Z.of_nat (seq s (List.length t))) t))).
  { induction t as [|c t IH]; intros s Hs; cbn [List.length seq map combine]; constructor.
    - apply Forall_forall. intros y Hy. apply in_map_iff in Hy.
      destruct Hy as ([j b] & <- & Hj). apply enumerate_from_In in Hj.
      cbn [List.length] in Hs. apply H; lia.
    - apply IH. cbn [List.length] in Hs. lia. }
  apply (G l 0%nat). lia.
Qed.

Lemma for_each_ok {A B : Type} (body : A -> result B) (g : A -> B) (l : list A) :
  (forall a, In a l -> body a = Ok (g a)) -> for_each body l = Ok (map g l).
Proof.
  induction l as [|a t IH]; intros H; cbn [for_each map]; [reflexivity |].
  rewrite (H a (or_introl eq_refl)), IH by (intros b Hb; apply H; now right).
  reflexivity.
Qed.

(** Distinct indices fall in distinct cells of a grid with [cols] columns. *)
Lemma grid_cells_differ (cols i j : Z) :
  (0 < cols)%Z -> (i < j)%Z -> (i / cols < j / cols \/ i mod cols <> j mod cols)%Z.
Proof.
  intros Hc Hij.
  pose proof (Z.div_le_mono i j cols Hc) as Hle.
  destruct (Z.eq_dec (i / cols) (j / cols)) as [E | E]; [| left; lia].
  right. intros Em.
  pose proof (Z.div_mod i cols) as Hi. pose proof (Z.div_mod j cols) as Hj.
  rewrite E, Em in Hi. lia.
Qed.

(** The last row of the grid is the row of the last colour. *)
Lemma grid_rows (n cols i : Z) :
  (0 < cols)%Z -> (0 <= i < n)%Z -> (i / cols + 1 <= (n + cols - 1) / cols)%Z.
Proof.
  intros Hc Hi.
  replace (n + cols - 1)%Z with (n - 1 + 1 * cols)%Z by lia.
  rewrite Z.div_add by lia.
  pose proof (Z.div_le_mono i (n - 1) cols Hc). lia.
Qed.

(** The rectangles and the texts of a loop that draws one swatch and its two
    labels for each colour. *)
Lemma swatch_loop_calls (pil : Pillow) (pos : Z * ExtractedColor.t -> Z * Z)
    (ics : list (Z * ExtractedColor.t)) :
  let rect (ic : Z * ExtractedColor.t) :=
    (pos ic, ((fst (pos ic) + swatch_width)%Z, (snd (pos ic) + swatch_height)%Z),
     ExtractedColor.rgb (snd ic)) in
  let calls := List.concat
                 (map (fun ic => swatch_calls pil (fst (pos ic)) (snd (pos ic)) (snd ic)) ics) in
  rectangles_of calls = map rect ics
  /\ texts_of calls
     = List.concat (map (fun ic => labels_under pil (rect ic) (snd ic)) ics).
Proof.
  intros rect calls. unfold calls, rect. clear rect calls.
  induction ics as [|ic t [IH1 IH2]]; [split; reflexivity |].
  cbn [map List.concat]. unfold rectangles_of, texts_of in *.
  rewrite !flat_map_app, IH1, IH2. unfold swatch_calls, labels_under, swatch_height.
  destruct (pos ic) as [x y]. cbn [flat_map app fst snd].
  split; [reflexivity |].
  replace (y + 100 + 5 + 15)%Z with (y + 100 + 20)%Z by lia. reflexivity.
Qed.

Lemma concat_map_combine {A B C D : Type} (f : B -> C -> list D) (r : A -> B) (s : A -> C)
    (l : list A) :
  List.concat (map (fun a => f (r a) (s a)) l)
  = List.concat (map (fun bc => f (fst bc) (snd bc)) (combine (map r l) (map s l))).
Proof.
  induction l as [|a t IH]; [reflexivity |]. cbn [map combine List.concat fst snd].
  now rewrite IH.
Qed.

(** The layouts of a palette with at least one colour. *)
Lemma palette_image_nonempty (pil : Pillow) (colors : list ExtractedColor.t)
    (layout : string) :
  colors <> [] ->
  exists dr, create_palette_image pil colors layout = render_png pil dr
    /\ map snd (rectangles_of (draw_calls dr)) = map ExtractedColor.rgb colors
    /\ texts_of (draw_calls dr)
       = List.concat (map (fun rc => labels_under pil (fst rc) (snd rc))
                        (combine (rectangles_of (draw_calls dr)) colors))
    /\ Forall (swatch_in_image (image_size_new dr)) (rectangles_of (draw_calls dr))
    /\ ForallOrdPairs swatches_apart (rectangles_of (draw_calls dr)).
Proof.
  intros Hne.
  assert (Hn : (1 <= Z.of_nat (List.length colors))%Z)
    by (destruct colors; [contradiction | cbn [List.length]; lia]).
  assert (Hshape : forall (pos : Z * ExtractedColor.t -> Z * Z) (size : Z * Z),
            (forall i c, In (i, c) (enumerate colors) ->
               swatch_in_image size
                 (pos (i, c), ((fst (pos (i, c)) + swatch_width)%Z,
                               (snd (pos (i, c)) + swatch_height)%Z), ExtractedColor.rgb c)) ->
            (forall i j a b, (0 <= i < j)%Z -> (j < Z.of_nat (List.length colors))%Z ->
               swatches_apart
                 (pos (i, a), ((fst (pos (i, a)) + swatch_width)%Z,
                               (snd (pos (i, a)) + swatch_height)%Z), ExtractedColor.rgb a)
                 (pos (j, b), ((fst (pos (j, b)) + swatch_width)%Z,
                               (snd (pos (j, b)) + swatch_height)%Z), ExtractedColor.rgb b)) ->
            let dr := {| image_size_new := size;
                         draw_calls :=
                           List.concat
                             (map (fun ic => swatch_calls pil (fst (pos ic)) (snd (pos ic))
                                               (snd ic))
                                (enumerate colors)) |} in
            map snd (rectangles_of (draw_calls dr)) = map ExtractedColor.rgb colors
            /\ texts_of (draw_calls dr)
               = List.concat (map (fun rc => labels_under pil (fst rc) (snd rc))
                                (combine (rectangles_of (draw_calls dr)) colors))
            /\ Forall (swatch_in_image (image_size_new dr)) (rectangles_of (draw_calls dr))
            /\ ForallOrdPairs swatches_apart (rectangles_of (draw_calls dr))).
  { intros pos size Hin Hapart dr. unfold dr. cbn [draw_calls image_size_new].
    destruct (swatch_loop_calls pil pos (enumerate colors)) as [Hr Ht].
    cbn zeta in Hr, Ht. rewrite Hr, Ht. split; [| split; [| split]].
    - rewrite map_map. apply map_enumerate_snd. reflexivity.
    - rewrite (concat_map_combine (labels_under pil) _ snd), enumerate_snd. reflexivity.
    - apply Forall_forall. intros r Hr'. apply in_map_iff in Hr'.
      destruct Hr' as ([i c] & <- & Hic). apply (Hin i c Hic).
    - apply enumerate_ordered_pairs. intros i j a b Hij Hj. apply Hapart; assumption. }
  unfold create_palette_image.
  set (n := Z.of_nat (List.length colors)) in *.
  destruct (layout =? "horizontal")%string.
  - eexists. split; [reflexivity |].
    apply (Hshape (fun ic => ((fst ic * swatch_width)%Z, 0%Z))).
    + intros i c Hic. apply enumerate_In_bounds in Hic. fold n in Hic.
      unfold swatch_in_image, swatch_width, swatch_height, text_height. cbn [fst snd]. lia.
    + intros i j a b Hij Hj.
      unfold swatches_apart, swatch_width, swatch_height, text_height. cbn [fst snd]. lia.
  - set (cols := Z.min 4 n).
    assert (Hc : (0 < cols)%Z) by (unfold cols; lia).
    unfold floordiv at 1.
    replace (cols =? 0)%Z with false by (symmetry; apply Z.eqb_neq; lia).
    cbn [bind].
    rewrite (for_each_ok _
               (fun ic : Z * ExtractedColor.t =>
                  swatch_calls pil (fst ic mod cols * swatch_width)%Z
                    (fst ic / cols * (swatch_height + text_height))%Z (snd ic))).
    2:{ intros ic _. unfold grid_swatch, floordiv, pymod.
        replace (cols =? 0)%Z with false by (symmetry; apply Z.eqb_neq; lia).
        reflexivity. }
    cbn [bind]. eexists. split; [reflexivity |].
    apply (Hshape (fun ic => ((fst ic mod cols * swatch_width)%Z,
                              (fst ic / cols * (swatch_height + text_height))%Z))).
    + intros i c Hic. apply enumerate_In_bounds in Hic. fold n in Hic.
      pose proof (Z.mod_pos_bound i cols Hc) as Hm.
      pose proof (grid_rows n cols i Hc Hic) as Hr.
      assert (0 <= i / cols)%Z by (apply Z.div_pos; lia).
      unfold swatch_in_image, swatch_width, swatch_height, text_height. cbn [fst snd].
      generalize dependent (i / cols)%Z. generalize dependent (i mod cols)%Z.
      generalize dependent ((n + cols - 1) / cols)%Z. intros. lia.
    + intros i j a b Hij Hj.
      destruct (grid_cells_differ cols i j Hc) as [Hd | Hd]; [lia | |];
        pose proof (Z.mod_pos_bound i cols Hc); pose proof (Z.mod_pos_bound j cols Hc);
        unfold swatches_apart, swatch_width, swatch_height, text_height; cbn [fst snd];
        generalize dependent (i / cols)%Z; generalize dependent (j / cols)%Z;
        generalize dependent (i mod cols)%Z; generalize dependent (j mod cols)%Z;
        intros; lia.
Qed.

(** X15. [create_palette_image] raises ZeroDivisionError, before it asks
    anything of Pillow, exactly for the grid layout (any layout other than
    horizontal) of a palette with no colour, where the number of rows is a
    division by zero. In every other case its result is Pillow's, the PNG
    bytes or the exception Pillow raises, for an image with one swatch per
    colour, in the order of the palette and filled with its rgb, and the hex
    code and the percentage as text under each swatch; the corners of every
    swatch and the band of its labels are within the bounds of the image,
    and the cells of two swatches never intersect. For a palette with no
    colour the horizontal layout asks for an image 0 wide and 140 high with
    nothing drawn on it, so it raises ValueError when Pillow refuses to
    write an image of width 0. *)
Theorem palette_image_swatches_fit (pil : Pillow) (colors : list ExtractedColor.t)
    (layout : string) :
  ((colors = [] /\ layout <> "horizontal"
    /\ create_palette_image pil colors layout = Raise ZeroDivisionError)
   \/ ((colors <> [] \/ layout = "horizontal")
       /\ exists dr, create_palette_image pil colors layout = render_png pil dr
            /\ (colors = [] ->
                dr = {| image_size_new := (0, 140)%Z; draw_calls := [] |})
            /\ map snd (rectangles_of (draw_calls dr)) = map ExtractedColor.rgb colors
            /\ texts_of (draw_calls dr)
               = List.concat (map (fun rc => labels_under pil (fst rc) (snd rc))
                                (combine (rectangles_of (draw_calls dr)) colors))
            /\ Forall (swatch_in_image (image_size_new dr)) (rectangles_of (draw_calls dr))
            /\ ForallOrdPairs swatches_apart (rectangles_of (draw_calls dr))))
  /\ ((forall dr, fst (image_size_new dr) = 0%Z -> render_png pil dr = Raise ValueError) ->
      colors = [] -> layout = "horizontal" ->
      create_palette_image pil colors layout = Raise ValueError).
Proof.
  split.
  - destruct colors as [|c t].
    + destruct (String.eqb_spec layout "horizontal") as [-> | Hl].
      * right. split; [now right |]. eexists. split; [reflexivity |].
        cbn. repeat split; constructor.
      * left. split; [reflexivity |]. split; [exact Hl |].
        unfold create_palette_image.
        replace (layout =? "horizontal")%string with false
          by (symmetry; apply String.eqb_neq, Hl).
        reflexivity.
    + right. split; [left; discriminate |].
      destruct (palette_image_nonempty pil (c :: t) layout) as (dr & E & H);
        [discriminate |].
      exists dr. split; [exact E |]. split; [discriminate | exact H].
  - intros Hsave -> ->. cbn. apply Hsave. reflexivity.
Qed.

(** ** Purchase links *)

(** The table of any country the lookup ends at has four retailers for each
    of the two brand keys, and no other key. *)
Lemma purchase_urls_country (country : string) :
  exists p f,
    getitem _get_purchase_urls
      (match dict_get String.eqb _get_purchase_urls country with
       | Some _ => country
       | None => "UK"
       end)
    = Ok [("prismacolor", p); ("faber_castell", f)]
    /\ List.length p = 4%nat /\ List.length f = 4%nat.
Proof.
  unfold getitem, _get_purchase_urls. cbn [dict_get].
  destruct (String.eqb_spec "UK" country) as [<- | _];
    [cbn; do 2 eexists; split; [reflexivity | split; reflexivity] |].
  destruct (String.eqb_spec "US" country) as [<- | _];
    [cbn; do 2 eexists; split; [reflexivity | split; reflexivity] |].
  destruct (String.eqb_spec "Canada" country) as [<- | _];
    [cbn; do 2 eexists; split; [reflexivity | split; reflexivity] |].
  destruct (String.eqb_spec "Australia" country) as [<- | _];
    [cbn; do 2 eexists; split; [reflexivity | split; reflexivity] |].
  destruct (String.eqb_spec "Germany" country) as [<- | _];
    cbn; do 2 eexists; split; try reflexivity; split; reflexivity.
Qed.

Lemma purchase_urls_unknown_country (country : string) :
  ~ In country get_available_countries ->
  dict_get String.eqb _get_purchase_urls country = None.
Proof.
  unfold get_available_countries, _get_purchase_urls. cbn [map fst In dict_get]. intros H.
  repeat match goal with
  | |- context [String.eqb ?a country] =>
      destruct (String.eqb_spec a country); [exfalso; apply H; tauto |]
  end.
  reflexivity.
Qed.

(** X16. [get_purchase_links] never raises. For a brand that reads
    prismacolor or faber castell in lower case it returns four retailers,
    whatever the country; for every other brand, the four other brands of
    [get_available_brands] included, it returns the empty dictionary. A
    country that is not one of [get_available_countries] is served as UK. *)
Theorem purchase_links_only_for_two_brands (brand country : string) :
  (exists links, get_purchase_links brand country = Ok links
     /\ (if (lower brand =? "prismacolor")%string || (lower brand =? "faber castell")%string
         then List.length links = 4%nat
         else links = []))
  /\ (~ In country get_available_countries ->
        get_purchase_links brand country = get_purchase_links brand "UK")
  /\ (In brand get_available_brands ->
        (get_purchase_links brand country <> Ok []
         <-> brand = "Prismacolor" \/ brand = "Faber Castell")).
Proof.
  assert (Hmain : exists links, get_purchase_links brand country = Ok links
     /\ (if (lower brand =? "prismacolor")%string || (lower brand =? "faber castell")%string
         then List.length links = 4%nat
         else links = [])).
  { unfold get_purchase_links.
    destruct (purchase_urls_country country) as (p & f & -> & Hp & Hf).
    cbn [bind].
    destruct (lower brand =? "prismacolor")%string; [exists p; auto |].
    destruct (lower brand =? "faber castell")%string; [exists f; auto |].
    cbn [orb].
    destruct (str_in (lower brand) ["caran d'ache"; "caran dache"]); [eexists; split; reflexivity |].
    destruct (lower brand =? "derwent")%string; [eexists; split; reflexivity |].
    destruct (lower brand =? "staedtler")%string; [eexists; split; reflexivity |].
    destruct (str_in (lower brand) ["koh-i-noor"; "koh i noor"]); eexists; split; reflexivity. }
  split; [exact Hmain |]. split.
  - intros Hc. unfold get_purchase_links.
    rewrite (purchase_urls_unknown_country country Hc). reflexivity.
  - intros Hb. destruct Hmain as (links & -> & Hlinks).
    unfold get_available_brands in Hb. cbn [In] in Hb.
    destruct Hb as [<- | [<- | [<- | [<- | [<- | [<- | []]]]]]]; vm_compute in Hlinks;
      try (subst links; split;
           [intros H; exfalso; apply H; reflexivity | intros [H | H]; discriminate H]);
      (split; [intros _; auto | intros _ E; injection E as ->; discriminate Hlinks]).
Qed.

(** ** HSL *)

Lemma Reqb_true (x y : R) : Reqb x y = true <-> x = y.
Proof. unfold Reqb. destruct (Req_EM_T x y); split; intros; try discriminate; tauto. Qed.

Lemma Reqb_false (x y : R) : Reqb x y = false <-> x <> y.
Proof. unfold Reqb. destruct (Req_EM_T x y); split; intros; try discriminate; tauto. Qed.

Lemma float_div_nonzero (x y : R) : y <> 0 -> float_div x y = Ok (x / y).
Proof. intros H. unfold float_div. now rewrite (proj2 (Reqb_false y 0) H). Qed.

Lemma Int_part_bounds (x : R) : IZR (Int_part x) <= x < IZR (Int_part x) + 1.
Proof. destruct (base_Int_part x). lra. Qed.

(** Rounding never crosses an integer. *)
Lemma round_half_even_le (x : R) (n : Z) : x <= IZR n -> (round_half_even x <= n)%Z.
Proof.
  intros H. pose proof (Int_part_bounds x) as [Hlo Hhi].
  assert (Hfloor : (Int_part x <= n)%Z) by (apply le_IZR; lra).
  assert (Hup : 0 < frac_part x -> (Int_part x + 1 <= n)%Z).
  { unfold frac_part. intros Hf.
    assert (Int_part x < n)%Z by (apply lt_IZR; lra). lia. }
  unfold round_half_even.
  destruct (Rltb (frac_part x) (1 / 2)) eqn:E1; [exact Hfloor |].
  apply Rltb_false in E1.
  destruct (Rltb (1 / 2) (frac_part x)); [apply Hup; lra |].
  destruct (Z.even (Int_part x)); [exact Hfloor | apply Hup; lra].
Qed.

Lemma round_half_even_ge (x : R) (n : Z) : IZR n <= x -> (n <= round_half_even x)%Z.
Proof.
  intros H. pose proof (Int_part_bounds x) as [Hlo Hhi].
  assert (Hfloor : (n <= Int_part x)%Z).
  { assert (n < Int_part x + 1)%Z by (apply lt_IZR; rewrite plus_IZR; lra). lia. }
  unfold round_half_even.
  destruct (Rltb (frac_part x) (1 / 2)); [exact Hfloor |].
  destruct (Rltb (1 / 2) (frac_part x)); [lia |].
  destruct (Z.even (Int_part x)); lia.
Qed.

Lemma round1_range (x : R) (lo hi : Z) :
  IZR lo <= x * 10 <= IZR hi -> IZR lo / 10 <= round1 x <= IZR hi / 10.
Proof.
  intros [Hlo Hhi]. unfold round1.
  pose proof (round_half_even_le _ _ Hhi) as H1. apply IZR_le in H1.
  pose proof (round_half_even_ge _ _ Hlo) as H2. apply IZR_le in H2.
  lra.
Qed.

Lemma round1_zero : round1 0 = 0.
Proof.
  pose proof (round1_range 0 0 0). lra.
Qed.

Lemma quotient_bounds (a d : R) : 0 < d -> - d <= a <= d -> -1 <= a / d <= 1.
Proof.
  intros Hd [H1 H2]. split; apply Rmult_le_reg_r with d; try exact Hd;
    unfold Rdiv; rewrite Rmult_assoc, Rinv_l by lra; lra.
Qed.

Lemma quotient_nonneg (a d : R) : 0 < d -> 0 <= a -> 0 <= a / d.
Proof.
  intros Hd Ha. apply Rmult_le_reg_r with d; [exact Hd |].
  unfold Rdiv. rewrite Rmult_assoc, Rinv_l by lra. lra.
Qed.

(** A channel of an 8-bit colour, scaled to the unit interval. *)
Lemma channel_unit (c : Z) : (0 <= c <= 255)%Z -> 0 <= IZR c / 255 <= 1.
Proof.
  intros [H1 H2]. apply IZR_le in H1, H2. lra.
Qed.

(** Two channels that differ are at least 1/255 apart. *)
Lemma channel_gap (c1 c2 : Z) : IZR c1 / 255 < IZR c2 / 255 -> IZR c1 / 255 + 1 / 255 <= IZR c2 / 255.
Proof.
  intros H. assert (H' : (c1 < c2)%Z) by (apply lt_IZR; lra).
  assert (H'' : (c1 + 1 <= c2)%Z) by lia. apply IZR_le in H''. rewrite plus_IZR in H''. lra.
Qed.

(** X17. For a colour with channels from 0 to 255, [_rgb_to_hsl] divides by
    no zero and returns a hue from 0 to 359.8, a saturation from 0 to 100
    and a lightness from 0 to 100; a grey (three equal channels) has hue 0
    and saturation 0. Floats are read as real numbers. *)
Theorem rgb_to_hsl_in_range (r g b : Z) :
  (0 <= r <= 255)%Z -> (0 <= g <= 255)%Z -> (0 <= b <= 255)%Z ->
  exists hsl, _rgb_to_hsl (r, g, b) = Ok hsl
    /\ 0 <= HSL.h hsl <= 3598 / 10
    /\ 0 <= HSL.s hsl <= 100
    /\ 0 <= HSL.l hsl <= 100
    /\ (r = g -> g = b -> HSL.h hsl = 0 /\ HSL.s hsl = 0).
Proof.
  intros Hr Hg Hb. unfold _rgb_to_hsl.
  pose proof (channel_unit r Hr) as Ur. pose proof (channel_unit g Hg) as Ug.
  pose proof (channel_unit b Hb) as Ub.
  pose proof (channel_gap g b) as Ggb.
  assert (Egrey : r = g -> g = b -> IZR r / 255 = IZR g / 255 /\ IZR g / 255 = IZR b / 255)
    by (intros -> ->; auto).
  set (r' := IZR r / 255) in *. set (g' := IZR g / 255) in *. set (b' := IZR b / 255) in *.
  set (max_val := Rmax r' (Rmax g' b')). set (min_val := Rmin r' (Rmin g' b')).
  assert (Hmax : (max_val = r' \/ max_val = g' \/ max_val = b')
                 /\ r' <= max_val /\ g' <= max_val /\ b' <= max_val).
  { unfold max_val, Rmax. repeat destruct (Rle_dec _ _); lra. }
  assert (Hmin : (min_val = r' \/ min_val = g' \/ min_val = b')
                 /\ min_val <= r' /\ min_val <= g' /\ min_val <= b').
  { unfold min_val, Rmin. repeat destruct (Rle_dec _ _); lra. }
  clearbody max_val min_val.
  assert (Hl : 0 <= round1 ((max_val + min_val) / 2 * 100) <= 100).
  { pose proof (round1_range ((max_val + min_val) / 2 * 100) 0 1000). lra. }
  destruct (Reqb (max_val - min_val) 0) eqn:Ed.
  - cbn [bind fst snd HSL.h HSL.s HSL.l]. eexists. split; [reflexivity |].
    cbn [HSL.h HSL.s HSL.l]. rewrite !Rmult_0_l, round1_zero. repeat split; lra.
  - apply Reqb_false in Ed.
    assert (Hd : 0 < max_val - min_val) by lra.
    assert (Hs : exists s, (if Rltb (1 / 2) ((max_val + min_val) / 2)
                            then float_div (max_val - min_val) (2 - max_val - min_val)
                            else float_div (max_val - min_val) (max_val + min_val)) = Ok s
                           /\ 0 <= s <= 1).
    { destruct (Rltb (1 / 2) ((max_val + min_val) / 2)) eqn:El.
      - rewrite float_div_nonzero by lra. eexists. split; [reflexivity |].
        pose proof (quotient_bounds (max_val - min_val) (2 - max_val - min_val)).
        pose proof (quotient_nonneg (max_val - min_val) (2 - max_val - min_val)). lra.
      - rewrite float_div_nonzero by lra. eexists. split; [reflexivity |].
        pose proof (quotient_bounds (max_val - min_val) (max_val + min_val)).
        pose proof (quotient_nonneg (max_val - min_val) (max_val + min_val)). lra. }
    destruct Hs as (s & -> & Hs).
    assert (Hh : exists h,
              (if Reqb max_val r' then
                 q <- float_div (g' - b') (max_val - min_val) ;;
                 Ok (q + (if Rltb g' b' then 6 else 0))
               else if Reqb max_val g' then
                 q <- float_div (b' - r') (max_val - min_val) ;; Ok (q + 2)
               else
                 q <- float_div (r' - g') (max_val - min_val) ;; Ok (q + 4)) = Ok h
              /\ 0 <= h <= 6 - 1 / 255).
    { rewrite !float_div_nonzero by lra. cbn [bind].
      pose proof (quotient_bounds (g' - b') (max_val - min_val) Hd) as Q1.
      pose proof (quotient_bounds (b' - r') (max_val - min_val) Hd) as Q2.
      pose proof (quotient_bounds (r' - g') (max_val - min_val) Hd) as Q3.
      destruct (Reqb max_val r'); [| destruct (Reqb max_val g')];
        eexists; (split; [reflexivity |]); try lra.
      destruct (Rltb g' b') eqn:Egb.
      - apply Rltb_true in Egb. specialize (Ggb Egb).
        assert ((g' - b') / (max_val - min_val) <= - (1 / 255)); [| lra].
        apply Rmult_le_reg_r with (max_val - min_val); [exact Hd |].
        unfold Rdiv at 1. rewrite Rmult_assoc, Rinv_l by lra.
        assert (max_val - min_val <= 1) by lra. nra.
      - apply Rltb_false in Egb.
        pose proof (quotient_nonneg (g' - b') (max_val - min_val) Hd). lra. }
    destruct Hh as (h & -> & Hh).
    cbn [bind fst snd]. eexists. split; [reflexivity |]. cbn [HSL.h HSL.s HSL.l].
    split; [| split; [| split]].
    + pose proof (round1_range (h / 6 * 360) 0 3598). lra.
    + pose proof (round1_range (s * 100) 0 1000). lra.
    + exact Hl.
    + intros E1 E2. destruct (Egrey E1 E2). lra.
Qed.

Lemma rgb_to_hsl_in_range_witness :
  exists hsl, _rgb_to_hsl (255, 0, 0)%Z = Ok hsl
    /\ 0 <= HSL.h hsl <= 3598 / 10
    /\ 0 <= HSL.s hsl <= 100
    /\ 0 <= HSL.l hsl <= 100
    /\ (255%Z = 0%Z -> 0%Z = 0%Z -> HSL.h hsl = 0 /\ HSL.s hsl = 0).
Proof.
  apply (rgb_to_hsl_in_range 255 0 0); lia.
Defined.

(** ** Values on their way to JSON *)

Section PyobjInduction.
Variable P : pyobj -> Prop.
Hypothesis P_none : P PyNone.
Hypothesis P_bool : forall b, P (PyBool b).
Hypothesis P_int : forall z, P (PyInt z).
Hypothesis P_float : forall x, P (PyFloat x).
Hypothesis P_str : forall s, P (PyStr s).
Hypothesis P_np_integer : forall z, P (NpInteger z).
Hypothesis P_np_floating : forall x, P (NpFloating x).
Hypothesis P_np_bool : forall b, P (NpBool b).
Hypothesis P_np_array : forall a, P (NpArray a).
Hypothesis P_list : forall items, Forall P items -> P (PyList items).
Hypothesis P_tuple : forall items, Forall P items -> P (PyTuple items).
Hypothesis P_dict : forall items, Forall (fun kv => P (snd kv)) items -> P (PyDict items).

Fixpoint pyobj_nested_ind (obj : pyobj) : P obj :=
  let all := fix all (l : list pyobj) : Forall P l :=
    match l with
    | [] => Forall_nil P
    | o :: t => Forall_cons o (pyobj_nested_ind o) (all t)
    end in
  let all_values := fix all_values (l : list (pyobj * pyobj))
      : Forall (fun kv => P (snd kv)) l :=
    match l with
    | [] => Forall_nil _
    | kv :: t => Forall_cons kv (pyobj_nested_ind (snd kv)) (all_values t)
    end in
  match obj with
  | PyList items => P_list items (all items)
  | PyTuple items => P_tuple items (all items)
  | PyDict items => P_dict items (all_values items)
  | PyNone => P_none
  | PyBool b => P_bool b
  | PyInt z => P_int z
  | PyFloat x => P_float x
  | PyStr s => P_str s
  | NpInteger z => P_np_integer z
  | NpFloating x => P_np_floating x
  | NpBool b => P_np_bool b
  | NpArray a => P_np_array a
  end.
End PyobjInduction.

Section NdarrayInduction.
Variable P : ndarray -> Prop.
Hypothesis P_int : forall z, P (NdInt z).
Hypothesis P_float : forall x, P (NdFloat x).
Hypothesis P_axis : forall items, Forall P items -> P (NdAxis items).

Fixpoint ndarray_nested_ind (a : ndarray) : P a :=
  match a with
  | NdInt z => P_int z
  | NdFloat x => P_float x
  | NdAxis items =>
      P_axis items
        ((fix all (l : list ndarray) : Forall P l :=
            match l with
            | [] => Forall_nil P
            | o :: t => Forall_cons o (ndarray_nested_ind o) (all t)
            end) items)
  end.
End NdarrayInduction.

Lemma map_id_Forall {A : Type} (f : A -> A) (l : list A) :
  Forall (fun a => f a = a) l -> map f l = l.
Proof. induction 1 as [|a t Ha _ IH]; simpl; congruence. Qed.

Lemma existsb_map_false {A : Type} (p : A -> bool) (f : A -> A) (l : list A) :
  Forall (fun a => p (f a) = false) l -> existsb p (map f l) = false.
Proof.
  induction 1 as [|a t Ha _ IH]; simpl; [reflexivity |]. now rewrite Ha, IH.
Qed.

(** [tolist] returns Python values only, which the converter leaves alone. *)
Lemma tolist_native (a : ndarray) :
  numpy_number_inside (tolist a) = false /\ _sanitize_json_types (tolist a) = tolist a.
Proof.
  induction a as [z | x | items IH] using ndarray_nested_ind; cbn; auto.
  split.
  - induction IH as [|o t [Ho _] _ IHt]; simpl; [reflexivity |]. now rewrite Ho, IHt.
  - apply f_equal. rewrite map_map. apply map_ext_Forall.
    eapply Forall_impl; [| exact IH]. intros o [_ Ho]. exact Ho.
Qed.

(** X18. [_sanitize_json_types] and [_convert_numpy_types] are the same
    function. The result has no numpy integer, float or array among its
    values; converting it again changes nothing, and a value without such
    numbers is returned as it is. The keys of a dictionary are not
    converted, and a numpy boolean stays one. *)
Theorem sanitize_json_types_removes_numpy_numbers (obj : pyobj) :
  _convert_numpy_types obj = _sanitize_json_types obj
  /\ numpy_number_inside (_sanitize_json_types obj) = false
  /\ _sanitize_json_types (_sanitize_json_types obj) = _sanitize_json_types obj
  /\ (numpy_number_inside obj = false -> _sanitize_json_types obj = obj)
  /\ (forall items, obj = PyDict items ->
        exists items', _sanitize_json_types obj = PyDict items'
                       /\ map fst items' = map fst items)
  /\ (forall b, obj = NpBool b -> _sanitize_json_types obj = NpBool b).
Proof.
  split; [| split; [| split; [| split; [| split]]]].
  - reflexivity.
  - induction obj as [| | | | | | | | | items IH | items IH | items IH] using pyobj_nested_ind;
      cbn [_sanitize_json_types numpy_number_inside]; auto.
    + apply tolist_native.
    + apply existsb_map_false, IH.
    + apply existsb_map_false, IH.
    + induction IH as [|[k v] t Hv _ IHt]; simpl; [reflexivity |].
      cbn [snd] in Hv. now rewrite Hv, IHt.
  - induction obj as [| | | | | | | | | items IH | items IH | items IH] using pyobj_nested_ind;
      cbn [_sanitize_json_types]; auto.
    + apply tolist_native.
    + apply f_equal. rewrite map_map. apply map_ext_Forall, IH.
    + apply f_equal. rewrite map_map. apply map_ext_Forall, IH.
    + apply f_equal. rewrite map_map. apply map_ext_Forall.
      eapply Forall_impl; [| exact IH]. intros [k v] H. cbn [snd] in H. now rewrite H.
  - induction obj as [| | | | | | | | | items IH | items IH | items IH] using pyobj_nested_ind;
      cbn [_sanitize_json_types numpy_number_inside]; auto; try discriminate;
      intros Hn; apply f_equal; apply map_id_Forall.
    + induction IH as [|o t Ho _ IHt]; constructor; simpl in Hn;
        apply orb_false_iff in Hn; destruct Hn; auto.
    + induction IH as [|o t Ho _ IHt]; constructor; simpl in Hn;
        apply orb_false_iff in Hn; destruct Hn; auto.
    + induction IH as [|[k v] t Hv _ IHt]; constructor; simpl in Hn;
        apply orb_false_iff in Hn; destruct Hn; auto.
      cbn [snd] in Hv. now rewrite Hv.
  - intros items ->. cbn [_sanitize_json_types]. eexists. split; [reflexivity |].
    rewrite map_map. apply map_ext. now intros [k v].
  - intros b ->. reflexivity.
Qed.

(** ** The colour difference as a distance *)




Lemma find_matches_entry (db : PencilDatabase) (target_rgb : RGB)
    (max_matches : Z) (max_difference : R) (m : Match.t) :
  In m (find_matches db target_rgb max_matches max_difference) ->
  Match.target_rgb m = target_rgb
  /\ Match.color_difference m = calculate_color_difference target_rgb (Match.pencil_rgb m)
  /\ Match.color_difference m <= max_difference.
Proof.
  rewrite find_matches_unfold. intros H. apply in_app_or in H.
  destruct H as [H | H]; apply brand_matches_from_table in H;
    destruct H as (p & _ & -> & H); cbn in *; auto.
Qed.



(** ** An exact match *)

(** The run of a brand starts with the first pencil of least difference in
    the brand's table, when that pencil is within the threshold. *)
Lemma brand_matches_head (db : PencilDatabase) (target_rgb : RGB)
    (max_matches : Z) (max_difference : R) (b : string)
    (l1 : list Pencil.t) (p : Pencil.t) (l2 : list Pencil.t) :
  (1 <= max_matches)%Z ->
  filter (fun q => (Pencil.brand q =? b)%string) (get_all_pencils db) = l1 ++ p :: l2 ->
  first_least (fun q => calculate_color_difference target_rgb (Pencil.rgb q)) l1 p l2 ->
  calculate_color_difference target_rgb (Pencil.rgb p) <= max_difference ->
  exists rest, brand_matches db target_rgb max_matches max_difference b
               = match_info target_rgb p :: rest.
Proof.
  intros Hmm Hps [H1 H2] Hd.
  rewrite brand_matches_of_pencils, Hps, filter_app. cbn [filter].
  replace (Rleb _ max_difference) with true by (symmetry; apply Rleb_true, Hd).
  rewrite map_app. cbn [map].
  destruct (sort_by_key_head Match.color_difference
              (map (match_info target_rgb)
                 (filter (fun q => Rleb (calculate_color_difference target_rgb (Pencil.rgb q))
                                        max_difference) l1))
              (match_info target_rgb p)
              (map (match_info target_rgb)
                 (filter (fun q => Rleb (calculate_color_difference target_rgb (Pencil.rgb q))
                                        max_difference) l2)))
    as (rest & Hrest).
  - split; intros x Hx; apply in_map_iff in Hx; destruct Hx as (q & <- & Hq);
      apply filter_In in Hq; destruct Hq as [Hq _]; cbn [match_info Match.color_difference].
    + apply (H1 q Hq).
    + apply (H2 q Hq).
  - rewrite Hrest, slice_to_nonneg by lia.
    replace (Z.to_nat max_matches) with (S (Z.to_nat (max_matches - 1))) by lia.
    cbn [firstn]. eexists. reflexivity.
Qed.

(** X20. A target that is exactly the colour of a Prismacolor or Faber
    Castell pencil is matched by a pencil of that colour: for
    [max_matches] at least 1 and a non-negative [max_difference], the first
    entry of that brand in the result of [find_matches] (the very first
    entry for Prismacolor) has the target as its [pencil_rgb] and 0 as its
    [color_difference]. *)
Theorem find_matches_exact_match_first
    (db : PencilDatabase) (target_rgb : RGB) (max_matches : Z) (max_difference : R)
    (b : string) (r : Row.t) :
  (1 <= max_matches)%Z -> 0 <= max_difference ->
  (b = "Prismacolor" /\ In r (prismacolor_pencils db))
  \/ (b = "Faber Castell" /\ In r (faber_castell_pencils db)) ->
  Row.rgb r = target_rgb ->
  exists others m rest,
    find_matches db target_rgb max_matches max_difference = others ++ m :: rest
    /\ Forall (fun x => Match.brand x <> b) others
    /\ (b = "Prismacolor" -> others = [])
    /\ Match.brand m = b
    /\ Match.pencil_rgb m = target_rgb
    /\ Match.color_difference m = 0.
Proof.
  intros Hmm Hmd Hr Hrgb.
  assert (Hb : b = "Prismacolor" \/ b = "Faber Castell") by tauto.
  pose proof (brand_pencils_of_table db b r Hr) as Hin.
  set (ps := filter (fun q => (Pencil.brand q =? b)%string) (get_all_pencils db)) in *.
  destruct (find_best_match_loop_first target_rgb ps [] (None, PosInf))
    as [[E _] | (l1 & p & l2 & E & _ & HF)]; [left; auto | |].
  { cbn [app] in E. rewrite E in Hin. destruct Hin. }
  cbn [app] in E.
  assert (Hzero : calculate_color_difference target_rgb (Pencil.rgb p) = 0).
  { pose proof (color_difference_nonneg target_rgb (Pencil.rgb p)) as Hnn.
    assert (Hle : calculate_color_difference target_rgb (Pencil.rgb p)
                  <= calculate_color_difference target_rgb
                       (Pencil.rgb (Pencil.mk (Row.name r) (Row.code r) (Row.rgb r) b))).
    { destruct HF as [H1 H2]. rewrite E in Hin. apply in_app_or in Hin.
      destruct Hin as [Hin | [<- | Hin]].
      - specialize (H1 _ Hin). cbn beta in H1. lra.
      - lra.
      - exact (H2 _ Hin). }
    cbn [Pencil.rgb] in Hle. rewrite Hrgb, color_difference_self in Hle. lra. }
  assert (Hp : Pencil.rgb p = target_rgb)
    by (symmetry; apply color_difference_zero_iff, Hzero).
  assert (Hpb : Pencil.brand p = b).
  { assert (Hp' : In p ps) by (rewrite E; apply in_or_app; right; now left).
    apply filter_In in Hp'. apply String.eqb_eq, Hp'. }
  destruct (brand_matches_head db target_rgb max_matches max_difference b l1 p l2)
    as (rest & Hrun); [exact Hmm | exact E | exact HF | lra |].
  rewrite find_matches_unfold.
  destruct Hb as [Eb | Eb]; rewrite Eb in Hrun; rewrite Hrun.
  - exists [], (match_info target_rgb p),
      (rest ++ brand_matches db target_rgb max_matches max_difference "Faber Castell").
    cbn [match_info Match.brand Match.pencil_rgb Match.color_difference].
    repeat split; auto.
  - exists (brand_matches db target_rgb max_matches max_difference "Prismacolor"),
      (match_info target_rgb p), rest.
    cbn [match_info Match.brand Match.pencil_rgb Match.color_difference].
    repeat split; auto.
    + eapply Forall_impl; [| apply brand_matches_brand]. intros x -> Hx. subst b. discriminate Hx.
    + intros Hx. subst b. discriminate Hx.
Qed.

Lemma find_matches_exact_match_first_witness :
  exists others m rest,
    find_matches dark_db (0, 0, 0)%Z 5 50 = others ++ m :: rest
    /\ Forall (fun x => Match.brand x <> "Faber Castell") others
    /\ ("Faber Castell" = "Prismacolor" -> others = [])
    /\ Match.brand m = "Faber Castell"
    /\ Match.pencil_rgb m = (0, 0, 0)%Z
    /\ Match.color_difference m = 0.
Proof.
  apply (find_matches_exact_match_first dark_db (0, 0, 0)%Z 5 50 "Faber Castell"
           (Row.mk "Black" "FC199" (0, 0, 0)%Z)).
  - lia.
  - lra.
  - right. split; [reflexivity |]. simpl. auto.
  - reflexivity.
Defined.

(** ** The catalogue *)

Lemma str_in_In (s : string) (l : list string) : str_in s l = true <-> In s l.
Proof.
  unfold str_in. rewrite existsb_exists. split.
  - intros (t & Ht & E). apply String.eqb_eq in E. now subst.
  - intros H. exists s. split; [exact H | apply String.eqb_refl].
Qed.

Lemma distinct_NoDup (l : list string) : distinct l = true -> NoDup l.
Proof.
  induction l as [|a t IH]; simpl; [constructor |].
  intros H. apply andb_true_iff in H. destruct H as [Ha Ht].
  constructor; [| apply IH, Ht].
  intros Hin. apply str_in_In in Hin. rewrite Hin in Ha. discriminate Ha.
Qed.

Lemma NoDup_map_eq {A B : Type} (f : A -> B) (l : list A) (a b : A) :
  NoDup (map f l) -> In a l -> In b l -> f a = f b -> a = b.
Proof.
  induction l as [|x t IH]; simpl; [tauto |].
  intros Hnd. apply NoDup_cons_iff in Hnd. destruct Hnd as [Hx Hnd].
  intros [<- | Ha] [<- | Hb] E; auto.
  - exfalso. apply Hx. rewrite E. apply in_map, Hb.
  - exfalso. apply Hx. rewrite <- E. apply in_map, Ha.
Qed.

(** X21. In the catalogue seven codes are carried by two pencils each,
    under different names: PC922, PC942 and PC948 of Prismacolor, FC166,
    FC176 and FC280 of Faber Castell, and 3000 of Koh-I-Noor. The pencil
    list of [create_pencil_shopping_list], whose key is brand_code, never
    holds matches of both pencils of such a pair, whatever the targets of
    the matches; the key brand_name_code of [display_pencil_matches] tells
    all 305 pencils of the catalogue apart. *)
Theorem catalogue_shared_codes_merge_in_shopping_list :
  let twins := same_code_pairs (get_all_pencils catalogue) in
  map (fun pq => (Pencil.brand (fst pq), Pencil.code (fst pq),
                  Pencil.name (fst pq), Pencil.name (snd pq))) twins
  = [("Prismacolor", "PC922", "True Red", "Poppy Red");
     ("Prismacolor", "PC942", "Yellow Ochre", "Tan");
     ("Prismacolor", "PC948", "Burnt Sienna", "Sepia");
     ("Faber Castell", "FC166", "Permanent Green", "Grass Green");
     ("Faber Castell", "FC176", "Chrome Oxide Green", "Van Dyke Brown");
     ("Faber Castell", "FC280", "Raw Umber", "Burnt Umber");
     ("Koh-I-Noor", "3000", "Lemon", "White")]
  /\ (forall p q target1 target2 pencil_matches,
        In (p, q) twins ->
        ~ (In (match_info target1 p) (sorted_pencils pencil_matches)
           /\ In (match_info target2 q) (sorted_pencils pencil_matches)))
  /\ (forall target_rgb,
        NoDup (map (fun p => display_key (match_info target_rgb p))
                 (get_all_pencils catalogue)))
  /\ List.length (get_all_pencils catalogue) = 305%nat.
Proof.
  intros twins. split; [vm_compute; reflexivity |]. split; [| split].
  - intros p q t1 t2 pm Hpq [H1 H2].
    destruct (sorted_unique_spec shopping_key pm) as (_ & Hnd & _ & _).
    fold (sorted_pencils pm) in Hnd.
    assert (Hkey : shopping_key (match_info t1 p) = shopping_key (match_info t2 q)
                   /\ Pencil.name p <> Pencil.name q).
    { unfold shopping_key. cbn [match_info Match.brand Match.code].
      vm_compute in Hpq.
      repeat (destruct Hpq as [Hpq | Hpq];
              [injection Hpq as <- <-; split; [reflexivity | discriminate] |]).
      destruct Hpq. }
    destruct Hkey as [Hkey Hname].
    pose proof (NoDup_map_eq shopping_key _ _ _ Hnd H1 H2 Hkey) as E.
    apply Hname. apply (f_equal Match.name) in E. exact E.
  - intros t.
    rewrite (map_ext _ (fun p => (Pencil.brand p ++ "_" ++ Pencil.name p ++ "_"
                                  ++ Pencil.code p)%string)) by reflexivity.
    apply distinct_NoDup. vm_compute. reflexivity.
  - vm_compute. reflexivity.
Qed.

(** ** The hue of the two exports *)

Lemma round_half_even_error (x : R) : - (1 / 2) <= IZR (round_half_even x) - x <= 1 / 2.
Proof.
  pose proof (Int_part_bounds x) as [Hlo Hhi].
  unfold round_half_even, frac_part.
  destruct (Rltb (x - IZR (Int_part x)) (1 / 2)) eqn:E1.
  - apply Rltb_true in E1. lra.
  - apply Rltb_false in E1.
    assert (Hup : - (1 / 2) <= IZR (Int_part x + 1) - x <= 1 / 2)
      by (rewrite plus_IZR; lra).
    destruct (Rltb (1 / 2) (x - IZR (Int_part x))) eqn:E2; [exact Hup |].
    apply Rltb_false in E2.
    destruct (Z.even (Int_part x)); [lra | exact Hup].
Qed.

Lemma round1_error (x : R) : - (1 / 20) <= round1 x - x <= 1 / 20.
Proof.
  unfold round1. pose proof (round_half_even_error (x * 10)) as H. lra.
Qed.

Lemma round2_error (x : R) : - (1 / 200) <= round2 x - x <= 1 / 200.
Proof.
  unfold round2. pose proof (round_half_even_error (x * 100)) as H. lra.
Qed.

Lemma round2_range (x : R) (lo hi : Z) :
  IZR lo <= x * 100 <= IZR hi -> IZR lo / 100 <= round2 x <= IZR hi / 100.
Proof.
  intros [Hlo Hhi]. unfold round2.
  pose proof (round_half_even_le _ _ Hhi) as H1. apply IZR_le in H1.
  pose proof (round_half_even_ge _ _ Hlo) as H2. apply IZR_le in H2.
  lra.
Qed.

Lemma Int_part_unique (x : R) (n : Z) : IZR n <= x < IZR n + 1 -> Int_part x = n.
Proof.
  intros [H1 H2]. pose proof (Int_part_bounds x) as [Hlo Hhi].
  assert (Int_part x < n + 1)%Z by (apply lt_IZR; rewrite plus_IZR; lra).
  assert (n < Int_part x + 1)%Z by (apply lt_IZR; rewrite plus_IZR; lra).
  lia.
Qed.

(** [x % 360] for the values the hue formula feeds it. *)
Lemma float_mod_360 (x : R) :
  0 <= x < 720 -> float_mod x 360 = Ok (if Rltb x 360 then x else x - 360).
Proof.
  intros Hx. unfold float_mod.
  replace (Reqb 360 0) with false by (symmetry; apply Reqb_false; lra).
  destruct (Rltb x 360) eqn:E.
  - apply Rltb_true in E. rewrite (Int_part_unique (x / 360) 0) by (simpl; lra).
    f_equal. simpl. lra.
  - apply Rltb_false in E. rewrite (Int_part_unique (x / 360) 1) by (simpl; lra).
    f_equal. simpl. lra.
Qed.

Section HueFacts.
Variables r g b : Z.
Hypothesis Hr : (0 <= r <= 255)%Z.
Hypothesis Hg : (0 <= g <= 255)%Z.
Hypothesis Hb : (0 <= b <= 255)%Z.

Let r' := IZR r / 255.
Let g' := IZR g / 255.
Let b' := IZR b / 255.
Let max_val := Rmax r' (Rmax g' b').
Let min_val := Rmin r' (Rmin g' b').

Lemma channels_max : (max_val = r' \/ max_val = g' \/ max_val = b')
                     /\ r' <= max_val /\ g' <= max_val /\ b' <= max_val /\ max_val <= 1.
Proof using Hr Hg Hb.
  pose proof (channel_unit r Hr). pose proof (channel_unit g Hg).
  pose proof (channel_unit b Hb).
  unfold max_val, Rmax, r', g', b'. repeat destruct (Rle_dec _ _); lra.
Qed.

Lemma channels_min : (min_val = r' \/ min_val = g' \/ min_val = b')
                     /\ min_val <= r' /\ min_val <= g' /\ min_val <= b' /\ 0 <= min_val.
Proof using Hr Hg Hb.
  pose proof (channel_unit r Hr). pose proof (channel_unit g Hg).
  pose proof (channel_unit b Hb).
  unfold min_val, Rmin, r', g', b'. repeat destruct (Rle_dec _ _); lra.
Qed.

(** The hue is at least 0 and stays 60/255 below 360. *)
Lemma hue_degrees_range : 0 <= hue_degrees (r, g, b) <= 360 - 60 / 255.
Proof using Hr Hg Hb.
  pose proof channels_max as (_ & M1 & M2 & M3 & _).
  pose proof channels_min as (_ & N1 & N2 & N3 & _).
  pose proof (channel_gap g b) as Ggb.
  unfold hue_degrees. fold r' g' b'. fold max_val min_val.
  destruct (Reqb (max_val - min_val) 0) eqn:Ed; [lra |].
  apply Reqb_false in Ed. assert (Hd : 0 < max_val - min_val) by lra.
  pose proof (quotient_bounds (g' - b') (max_val - min_val) Hd) as Q1.
  pose proof (quotient_bounds (b' - r') (max_val - min_val) Hd) as Q2.
  pose proof (quotient_bounds (r' - g') (max_val - min_val) Hd) as Q3.
  destruct (Reqb max_val r'); [| destruct (Reqb max_val g'); lra].
  destruct (Rltb g' b') eqn:Egb.
  - apply Rltb_true in Egb. fold g' b' in Ggb. specialize (Ggb Egb).
    assert ((g' - b') / (max_val - min_val) <= - (1 / 255)); [| lra].
    apply Rmult_le_reg_r with (max_val - min_val); [exact Hd |].
    unfold Rdiv at 1. rewrite Rmult_assoc, Rinv_l by lra.
    pose proof channels_max as (_ & _ & _ & _ & M4).
    pose proof channels_min as (_ & _ & _ & _ & N4).
    assert (max_val - min_val <= 1) by lra. nra.
  - apply Rltb_false in Egb.
    pose proof (quotient_nonneg (g' - b') (max_val - min_val) Hd). lra.
Qed.

(** [_rgb_to_hsl] returns the hue rounded to one decimal. *)
Lemma rgb_to_hsl_hue :
  exists hsl, _rgb_to_hsl (r, g, b) = Ok hsl /\ HSL.h hsl = round1 (hue_degrees (r, g, b)).
Proof using Hr Hg Hb.
  pose proof channels_max as (_ & M1 & M2 & M3 & M4).
  pose proof channels_min as (_ & N1 & N2 & N3 & N4).
  unfold _rgb_to_hsl, hue_degrees. fold r' g' b'. fold max_val min_val.
  destruct (Reqb (max_val - min_val) 0) eqn:Ed.
  - cbn [bind fst snd]. eexists. split; [reflexivity |]. cbn [HSL.h]. now rewrite Rmult_0_l.
  - apply Reqb_false in Ed. assert (Hd : 0 < max_val - min_val) by lra.
    assert (Hs : exists s, (if Rltb (1 / 2) ((max_val + min_val) / 2)
                            then float_div (max_val - min_val) (2 - max_val - min_val)
                            else float_div (max_val - min_val) (max_val + min_val)) = Ok s).
    { destruct (Rltb (1 / 2) ((max_val + min_val) / 2));
        rewrite float_div_nonzero by lra; eexists; reflexivity. }
    destruct Hs as (s & ->). rewrite !float_div_nonzero by lra. cbn [bind].
    destruct (Reqb max_val r'); [| destruct (Reqb max_val g')];
      cbn [bind fst snd]; eexists; (split; [reflexivity |]); cbn [HSL.h]; f_equal;
      try destruct (Rltb g' b'); lra.
Qed.

(** [export_for_photopea] returns the hue rounded to two decimals. *)
Lemma export_for_photopea_hue :
  exists s v, export_for_photopea_hsv (r, g, b)
              = Ok (round2 (hue_degrees (r, g, b)), round2 (s * 100), round2 (v * 100))
              /\ 0 <= s <= 1 /\ 0 <= v <= 1.
Proof using Hr Hg Hb.
  pose proof channels_max as (_ & M1 & M2 & M3 & M4).
  pose proof channels_min as (_ & N1 & N2 & N3 & N4).
  unfold export_for_photopea_hsv, hue_degrees. fold r' g' b'. fold max_val min_val.
  assert (Hs : exists s, (if Reqb max_val 0 then Ok 0
                          else float_div (max_val - min_val) max_val) = Ok s
                         /\ 0 <= s <= 1).
  { destruct (Reqb max_val 0) eqn:E0; [exists 0; split; [reflexivity | lra] |].
    apply Reqb_false in E0. rewrite float_div_nonzero by exact E0.
    eexists. split; [reflexivity |].
    assert (Hm : 0 < max_val) by lra.
    pose proof (quotient_bounds (max_val - min_val) max_val Hm).
    pose proof (quotient_nonneg (max_val - min_val) max_val Hm). lra. }
  destruct Hs as (s & Es & Hs).
  destruct (Reqb (max_val - min_val) 0) eqn:Ed.
  - cbn [bind]. rewrite Es. cbn [bind]. exists s, max_val. split; [reflexivity | lra].
  - apply Reqb_false in Ed. assert (Hd : 0 < max_val - min_val) by lra.
    pose proof (quotient_bounds (g' - b') (max_val - min_val) Hd) as Q1.
    pose proof (quotient_bounds (b' - r') (max_val - min_val) Hd) as Q2.
    pose proof (quotient_bounds (r' - g') (max_val - min_val) Hd) as Q3.
    replace (Reqb max_val 0) with false by (symmetry; apply Reqb_false; lra).
    rewrite !float_div_nonzero by lra. cbn [bind].
    rewrite !float_mod_360 by lra.
    assert (Hm : 0 < max_val) by lra.
    pose proof (quotient_bounds (max_val - min_val) max_val Hm) as Q4.
    pose proof (quotient_nonneg (max_val - min_val) max_val Hm) as Q5.
    assert (Hq : Rltb (60 * ((g' - b') / (max_val - min_val)) + 360) 360 = Rltb g' b').
    { destruct (Rltb g' b') eqn:Egb.
      - apply Rltb_true in Egb. apply Rltb_true.
        assert ((g' - b') / (max_val - min_val) < 0); [| lra].
        apply Rmult_lt_reg_r with (max_val - min_val); [exact Hd |].
        unfold Rdiv. rewrite Rmult_assoc, Rinv_l by lra. lra.
      - apply Rltb_false in Egb. apply Rltb_false.
        pose proof (quotient_nonneg (g' - b') (max_val - min_val) Hd). lra. }
    rewrite Hq.
    replace (Rltb (60 * ((b' - r') / (max_val - min_val)) + 120) 360) with true
      by (symmetry; apply Rltb_true; lra).
    replace (Rltb (60 * ((r' - g') / (max_val - min_val)) + 240) 360) with true
      by (symmetry; apply Rltb_true; lra).
    destruct (Reqb max_val r'); [| destruct (Reqb max_val g')];
      cbn [bind]; exists ((max_val - min_val) / max_val), max_val;
      (split; [| lra]); repeat f_equal; destruct (Rltb g' b'); lra.
Qed.
End HueFacts.

(** X22. For a colour with channels from 0 to 255 the HSV computation of
    [export_for_photopea] divides by no zero and returns a hue from 0 to
    359.77 and a saturation and a value from 0 to 100; its hue and the hue
    of [_rgb_to_hsl] are the same angle rounded to two decimals and to one
    decimal, so they differ by at most 0.055. Floats are read as real
    numbers. *)
Theorem photopea_hue_agrees_with_hsl (r g b : Z) :
  (0 <= r <= 255)%Z -> (0 <= g <= 255)%Z -> (0 <= b <= 255)%Z ->
  exists h s v hsl,
    export_for_photopea_hsv (r, g, b) = Ok (h, s, v)
    /\ _rgb_to_hsl (r, g, b) = Ok hsl
    /\ 0 <= h <= 35977 / 100 /\ 0 <= s <= 100 /\ 0 <= v <= 100
    /\ Rabs (h - HSL.h hsl) <= 55 / 1000.
Proof.
  intros Hr Hg Hb.
  destruct (export_for_photopea_hue r g b Hr Hg Hb) as (s & v & E & Hs & Hv).
  destruct (rgb_to_hsl_hue r g b Hr Hg Hb) as (hsl & Ehsl & Eh).
  pose proof (hue_degrees_range r g b Hr Hg Hb) as Hh.
  exists (round2 (hue_degrees (r, g, b))), (round2 (s * 100)), (round2 (v * 100)), hsl.
  split; [exact E |]. split; [exact Ehsl |].
  split; [| split; [| split]].
  - pose proof (round2_range (hue_degrees (r, g, b)) 0 35977). lra.
  - pose proof (round2_range (s * 100) 0 10000). lra.
  - pose proof (round2_range (v * 100) 0 10000). lra.
  - rewrite Eh.
    pose proof (round1_error (hue_degrees (r, g, b))) as E1.
    pose proof (round2_error (hue_degrees (r, g, b))) as E2.
    apply Rabs_le. lra.
Qed.

Lemma photopea_hue_agrees_with_hsl_witness :
  exists h s v hsl,
    export_for_photopea_hsv (0, 128, 255)%Z = Ok (h, s, v)
    /\ _rgb_to_hsl (0, 128, 255)%Z = Ok hsl
    /\ 0 <= h <= 35977 / 100 /\ 0 <= s <= 100 /\ 0 <= v <= 100
    /\ Rabs (h - HSL.h hsl) <= 55 / 1000.
Proof.
  apply (photopea_hue_agrees_with_hsl 0 128 255); lia.
Defined.

(** ** Spread and standard deviation *)

Lemma sum_squares_shift (l : list R) (m c : R) :
  fold_right Rplus 0 (map (fun v => (v - c) ^ 2) l)
  = fold_right Rplus 0 (map (fun v => (v - m) ^ 2) l)
    + 2 * (m - c) * (fold_right Rplus 0 l - INR (List.length l) * m)
    + INR (List.length l) * (m - c) ^ 2.
Proof.
  induction l as [|x t IH]; [simpl; ring |].
  cbn [map fold_right List.length]. rewrite IH, S_INR. ring.
Qed.

Lemma sum_squares_bound (l : list R) (c d : R) :
  (forall v, In v l -> - d <= v - c <= d) ->
  fold_right Rplus 0 (map (fun v => (v - c) ^ 2) l) <= INR (List.length l) * d ^ 2.
Proof.
  induction l as [|x t IH]; intros H; cbn [map fold_right List.length].
  - simpl. lra.
  - rewrite S_INR. specialize (IH (fun v Hv => H v (or_intror Hv))).
    pose proof (H x (or_introl eq_refl)) as Hx.
    assert ((x - c) ^ 2 <= d ^ 2) by nra. lra.
Qed.

(** The standard deviation is at most half the range. *)
Lemma np_std_le_half_range (l : list Z) (hi lo : Z) :
  l <> [] -> is_max hi l -> is_min lo l -> np_std l <= IZR (hi - lo) / 2.
Proof.
  intros Hne [Hhi_in Hhi] [_ Hlo].
  assert (Hn : 0 < INR (List.length l)).
  { apply lt_0_INR. destruct l; [congruence | simpl; lia]. }
  assert (Hrange : 0 <= IZR (hi - lo) / 2).
  { specialize (Hlo hi Hhi_in). apply IZR_le in Hlo. rewrite minus_IZR. lra. }
  unfold np_std. set (m := np_mean l).
  rewrite Rsum_fold_right.
  replace (map (fun v => Rabs (IZR v - m) ^ 2) l)
    with (map (fun x => (x - m) ^ 2) (map IZR l))
    by (rewrite map_map; apply map_ext; intros v; now rewrite pow2_abs).
  set (xs := map IZR l).
  assert (Hlen : List.length xs = List.length l) by apply length_map.
  assert (Hmean : fold_right Rplus 0 xs - INR (List.length xs) * m = 0).
  { unfold m, np_mean. rewrite Rsum_fold_right. fold xs. rewrite Hlen. field. lra. }
  pose proof (sum_squares_shift xs m ((IZR hi + IZR lo) / 2)) as Hshift.
  rewrite Hmean in Hshift.
  assert (Hbound : fold_right Rplus 0 (map (fun v => (v - (IZR hi + IZR lo) / 2) ^ 2) xs)
                   <= INR (List.length xs) * (IZR (hi - lo) / 2) ^ 2).
  { apply sum_squares_bound. intros x Hx. unfold xs in Hx. apply in_map_iff in Hx.
    destruct Hx as (v & <- & Hv).
    pose proof (Hhi v Hv) as H1. pose proof (Hlo v Hv) as H2.
    apply IZR_le in H1, H2. rewrite minus_IZR. lra. }
  rewrite Hlen in *.
  pose proof (pow2_ge_0 (m - (IZR hi + IZR lo) / 2)) as Hsq.
  assert (Hvar : fold_right Rplus 0 (map (fun x => (x - m) ^ 2) xs) / INR (List.length l)
                 <= (IZR (hi - lo) / 2) ^ 2).
  { apply Rmult_le_reg_r with (INR (List.length l)); [exact Hn |].
    unfold Rdiv at 1. rewrite Rmult_assoc, Rinv_l by lra. nra. }
  rewrite <- (sqrt_pow2 (IZR (hi - lo) / 2)) by exact Hrange.
  apply sqrt_le_1_alt. exact Hvar.
Qed.

(** X23. A colour whose pixels span less than 30 percent of the height and
    less than 30 percent of the width is classified 'concentrated' by
    [_classify_distribution], never 'localized': the standard deviation of
    coordinates is at most half their range. 'localized' is returned only
    when exactly one of the two spreads is below 0.3. Floats are read as
    real numbers. *)
Theorem classify_distribution_small_window
    (y_coords x_coords : list Z) (height width : Z) (y_spread x_spread : R) :
  y_coords <> [] -> x_coords <> [] ->
  (0 < height)%Z -> (0 < width)%Z ->
  spread_is y_coords height y_spread -> spread_is x_coords width x_spread ->
  (y_spread < 0.3 -> x_spread < 0.3 ->
     _classify_distribution y_coords x_coords height width = Ok "concentrated")
  /\ (_classify_distribution y_coords x_coords height width = Ok "localized" ->
        (y_spread < 0.3 /\ 0.3 <= x_spread) \/ (0.3 <= y_spread /\ x_spread < 0.3)).
Proof.
  intros Hy Hx Hh Hw Hys Hxs.
  rewrite (classify_distribution_decision _ _ _ _ _ _ Hy Hx Hys Hxs).
  destruct Hys as (yhi & ylo & Hyhi & Hylo & ->), Hxs as (xhi & xlo & Hxhi & Hxlo & ->).
  pose proof (np_std_le_half_range y_coords yhi ylo Hy Hyhi Hylo) as Sy.
  pose proof (np_std_le_half_range x_coords xhi xlo Hx Hxhi Hxlo) as Sx.
  apply IZR_lt in Hh, Hw.
  assert (Ty : np_std y_coords / IZR height <= IZR (yhi - ylo) / IZR height / 2).
  { replace (IZR (yhi - ylo) / IZR height / 2) with (IZR (yhi - ylo) / 2 / IZR height)
      by (field; lra).
    apply Rmult_le_compat_r; [left; apply Rinv_0_lt_compat; exact Hh | exact Sy]. }
  assert (Tx : np_std x_coords / IZR width <= IZR (xhi - xlo) / IZR width / 2).
  { replace (IZR (xhi - xlo) / IZR width / 2) with (IZR (xhi - xlo) / 2 / IZR width)
      by (field; lra).
    apply Rmult_le_compat_r; [left; apply Rinv_0_lt_compat; exact Hw | exact Sx]. }
  set (ys := IZR (yhi - ylo) / IZR height) in *.
  set (xs := IZR (xhi - xlo) / IZR width) in *.
  set (sy := np_std y_coords / IZR height) in *.
  set (sx := np_std x_coords / IZR width) in *.
  destruct (Rltb 0.7 ys) eqn:E1; destruct (Rltb 0.7 xs) eqn:E2;
    destruct (Rltb sy 0.15) eqn:E3; destruct (Rltb sx 0.15) eqn:E4;
    destruct (Rltb ys 0.3) eqn:E5; destruct (Rltb xs 0.3) eqn:E6;
    rewrite ?Rltb_true, ?Rltb_false in *; cbn [andb orb];
    (split; [intros; try reflexivity; exfalso; lra | intros E; try discriminate E; lra]).
Qed.

Lemma classify_distribution_small_window_witness :
  _classify_distribution [0; 1]%Z [0; 1]%Z 10 10 = Ok "concentrated".
Proof.
  assert (Hs : spread_is [0; 1]%Z 10 (IZR (1 - 0) / IZR 10)).
  { exists 1%Z, 0%Z. split; [| split; [| reflexivity]].
    - split; [simpl; auto |]. intros v [<- | [<- | []]]; lia.
    - split; [simpl; auto |]. intros v [<- | [<- | []]]; lia. }
  apply (classify_distribution_small_window [0; 1]%Z [0; 1]%Z 10 10
           (IZR (1 - 0) / IZR 10) (IZR (1 - 0) / IZR 10)).
  - discriminate.
  - discriminate.
  - lia.
  - lia.
  - exact Hs.
  - exact Hs.
  - simpl. lra.
  - simpl. lra.
Defined.

(** ** Ties *)

Lemma sort_by_key_all_equal {A : Type} (key : A -> R) (k : R) (l : list A) :
  (forall x, In x l -> key x = k) -> sort_by_key key l = l.
Proof.
  unfold sort_by_key, stable_sort.
  induction l as [|x t IH]; intros H; cbn [fold_right]; [reflexivity |].
  rewrite IH by (intros y Hy; apply H; now right).
  apply insert_sorted_front. intros z Hz. apply Rltb_false.
  rewrite (H z (or_intror Hz)), (H x (or_introl eq_refl)). lra.
Qed.

Lemma filter_firstn_prefix {A : Type} (f : A -> bool) (n : nat) (l : list A) :
  exists rest, filter f l = filter f (firstn n l) ++ rest.
Proof.
  exists (filter f (skipn n l)).
  rewrite <- filter_app, firstn_skipn. reflexivity.
Qed.

Lemma slice_to_prefix {A : Type} (n : Z) (l : list A) :
  exists m, slice_to n l = firstn m l.
Proof.
  unfold slice_to. destruct (n <? 0)%Z; eexists; reflexivity.
Qed.

Lemma filter_filter_andb {A : Type} (f g : A -> bool) (l : list A) :
  filter f (filter g l) = filter (fun a => g a && f a) l.
Proof.
  induction l as [|a t IH]; simpl; [reflexivity |].
  destruct (g a); simpl; [destruct (f a) |]; now rewrite IH.
Qed.

(** X24. Ties are broken by the order of the catalogue. Among the entries
    of one brand in the result of [find_matches], those with one and the
    same [color_difference] stand in the order of their rows in the
    brand's table, and they are the first of the rows with that difference
    (all of them unless the cap cut the list: [rest] is empty when the
    brand has fewer than [max_matches] entries in the result): the sort is
    stable. *)
Theorem find_matches_ties_in_catalogue_order
    (db : PencilDatabase) (target_rgb : RGB) (max_matches : Z) (max_difference : R)
    (b : string) (k : R) :
  b = "Prismacolor" \/ b = "Faber Castell" ->
  exists rest,
    map (match_info target_rgb)
      (filter (fun p => Rleb (calculate_color_difference target_rgb (Pencil.rgb p))
                             max_difference
                        && Reqb (calculate_color_difference target_rgb (Pencil.rgb p)) k)
         (filter (fun p => (Pencil.brand p =? b)%string) (get_all_pencils db)))
    = filter (fun m => (Match.brand m =? b)%string && Reqb (Match.color_difference m) k)
        (find_matches db target_rgb max_matches max_difference)
      ++ rest
    /\ ((0 <= max_matches)%Z ->
        (count_brand b (find_matches db target_rgb max_matches max_difference)
         < Z.to_nat max_matches)%nat ->
        rest = []).
Proof.
  intros Hb.
  pose (tied := fun m => Reqb (Match.color_difference m) k).
  assert (Hrun : filter (fun m => (Match.brand m =? b)%string
                                  && Reqb (Match.color_difference m) k)
                   (find_matches db target_rgb max_matches max_difference)
                 = filter tied (brand_matches db target_rgb max_matches max_difference b)).
  { rewrite <- (filter_filter_andb tied). f_equal.
    rewrite find_matches_unfold, filter_app.
    pose proof (brand_matches_brand db target_rgb max_matches max_difference "Prismacolor") as HP.
    pose proof (brand_matches_brand db target_rgb max_matches max_difference "Faber Castell") as HF.
    rewrite Forall_forall in HP, HF.
    destruct Hb as [-> | ->].
    - rewrite filter_all by (intros m Hm; apply String.eqb_eq, HP, Hm).
      rewrite filter_none; [apply app_nil_r |].
      intros m Hm. apply String.eqb_neq. rewrite (HF m Hm). discriminate.
    - rewrite filter_none, filter_all; [reflexivity | |].
      + intros m Hm. apply String.eqb_eq, HF, Hm.
      + intros m Hm. apply String.eqb_neq. rewrite (HP m Hm). discriminate. }
  rewrite Hrun, (count_brand_find_matches db target_rgb max_matches max_difference b Hb).
  rewrite brand_matches_of_pencils.
  set (ps := filter (fun p => (Pencil.brand p =? b)%string) (get_all_pencils db)).
  set (within := fun p => Rleb (calculate_color_difference target_rgb (Pencil.rgb p))
                               max_difference).
  set (sorted := sort_by_key Match.color_difference
                   (map (match_info target_rgb) (filter within ps))).
  assert (Hslice : exists n, slice_to max_matches sorted = firstn n sorted
                             /\ ((0 <= max_matches)%Z -> n = Z.to_nat max_matches)).
  { unfold slice_to. destruct (max_matches <? 0)%Z eqn:E; eexists; split; try reflexivity.
    apply Z.ltb_lt in E. lia. }
  destruct Hslice as (n & -> & Hn).
  exists (filter tied (skipn n sorted)). split.
  - rewrite <- filter_app, firstn_skipn. unfold sorted.
    rewrite sort_by_key_filter, (sort_by_key_all_equal _ k).
    + rewrite filter_map_comm, filter_filter_andb. reflexivity.
    + intros m Hm. apply filter_In in Hm. destruct Hm as [_ Hm].
      apply Reqb_true, Hm.
  - intros Hmm Hcount. rewrite (Hn Hmm) in *. rewrite length_firstn in Hcount.
    rewrite skipn_all2 by lia. reflexivity.
Qed.

Lemma find_matches_ties_in_catalogue_order_witness :
  exists rest,
    map (match_info (0, 0, 0)%Z)
      (filter (fun p => Rleb (calculate_color_difference (0, 0, 0)%Z (Pencil.rgb p)) 50
                        && Reqb (calculate_color_difference (0, 0, 0)%Z (Pencil.rgb p)) 0)
         (filter (fun p => (Pencil.brand p =? "Prismacolor")%string)
            (get_all_pencils dark_db)))
    = filter (fun m => (Match.brand m =? "Prismacolor")%string
                       && Reqb (Match.color_difference m) 0)
        (find_matches dark_db (0, 0, 0)%Z 5 50)
      ++ rest
    /\ ((0 <= 5)%Z ->
        (count_brand "Prismacolor" (find_matches dark_db (0, 0, 0)%Z 5 50)
         < Z.to_nat 5)%nat ->
        rest = []).
Proof.
  apply (find_matches_ties_in_catalogue_order dark_db (0, 0, 0)%Z 5 50 "Prismacolor" 0).
  left. reflexivity.
Defined.

(** ** The matches of the extracted palette *)

Lemma all_matches_flat_map (db : PencilDatabase) (dominant_colors : list ExtractedColor.t) :
  all_matches db dominant_colors
  = flat_map (fun c => find_matches db (ExtractedColor.rgb c) 3 50) dominant_colors.
Proof.
  unfold all_matches.
  assert (G : forall l acc,
             fold_left (fun a c => a ++ find_matches db (ExtractedColor.rgb c) 3 50) l acc
             = acc ++ flat_map (fun c => find_matches db (ExtractedColor.rgb c) 3 50) l).
  { induction l as [|c t IH]; intros acc; cbn [fold_left flat_map].
    - now rewrite app_nil_r.
    - now rewrite IH, app_assoc. }
  apply (G dominant_colors []).
Qed.

Lemma find_matches_length (db : PencilDatabase) (target_rgb : RGB)
    (max_matches : Z) (max_difference : R) :
  (0 <= max_matches)%Z ->
  (Z.of_nat (List.length (find_matches db target_rgb max_matches max_difference))
   <= 2 * max_matches)%Z.
Proof.
  intros H. rewrite find_matches_unfold, length_app.
  pose proof (brand_matches_capped db target_rgb max_matches max_difference "Prismacolor" H).
  pose proof (brand_matches_capped db target_rgb max_matches max_difference "Faber Castell" H).
  lia.
Qed.

Lemma all_matches_length (db : PencilDatabase) (dominant_colors : list ExtractedColor.t) :
  (List.length (all_matches db dominant_colors) <= 6 * List.length dominant_colors)%nat.
Proof.
  rewrite all_matches_flat_map.
  induction dominant_colors as [|c t IH]; cbn [flat_map List.length]; [lia |].
  rewrite length_app.
  pose proof (find_matches_length db (ExtractedColor.rgb c) 3 50). lia.
Qed.

Lemma brands_with_matches_In (all : list Match.t) (brand : string) (matches : list Match.t) :
  In (brand, matches) (brands_with_matches all)
  <-> In brand get_available_brands
      /\ matches = filter (fun m => (Match.brand m =? brand)%string) all
      /\ matches <> [].
Proof.
  unfold brands_with_matches. rewrite filter_In, in_map_iff. cbn [snd]. split.
  - intros [(b0 & [= <- <-] & Hb) Hne]. split; [exact Hb |]. split; [reflexivity |].
    destruct (filter _ all); [discriminate Hne | discriminate].
  - intros (Hb & -> & Hne). split; [exists brand; auto |].
    destruct (filter _ all); [contradiction | reflexivity].
Qed.

(** X25. The matches the application collects for the extracted palette:
    at most six for each dominant colour, each a Prismacolor or Faber
    Castell pencil within 50 of the dominant colour it was found for. Of
    the six brands of [get_available_brands] only these two can get a tab;
    a tab shows matches of its own brand only, all of them collected
    matches, and every collected match belongs to the tab of its brand. *)
Theorem all_matches_of_the_palette
    (db : PencilDatabase) (dominant_colors : list ExtractedColor.t) :
  (List.length (all_matches db dominant_colors) <= 6 * List.length dominant_colors)%nat
  /\ (forall m, In m (all_matches db dominant_colors) ->
        (Match.brand m = "Prismacolor" \/ Match.brand m = "Faber Castell")
        /\ Match.color_difference m <= 50
        /\ exists color_info, In color_info dominant_colors
             /\ Match.target_rgb m = ExtractedColor.rgb color_info
             /\ In m (find_matches db (ExtractedColor.rgb color_info) 3 50))
  /\ (forall brand matches,
        In (brand, matches) (brands_with_matches (all_matches db dominant_colors)) ->
        (brand = "Prismacolor" \/ brand = "Faber Castell")
        /\ forall e, In e (displayed_matches matches) ->
             Match.brand e = brand /\ In e (all_matches db dominant_colors))
  /\ (forall m, In m (all_matches db dominant_colors) ->
        exists matches,
          In (Match.brand m, matches) (brands_with_matches (all_matches db dominant_colors))
          /\ In m matches).
Proof.
  assert (Hall : forall m, In m (all_matches db dominant_colors) ->
        (Match.brand m = "Prismacolor" \/ Match.brand m = "Faber Castell")
        /\ Match.color_difference m <= 50
        /\ exists color_info, In color_info dominant_colors
             /\ Match.target_rgb m = ExtractedColor.rgb color_info
             /\ In m (find_matches db (ExtractedColor.rgb color_info) 3 50)).
  { rewrite all_matches_flat_map.
    intros m Hm. apply in_flat_map in Hm. destruct Hm as (c & Hc & Hm).
    pose proof (find_matches_entry _ _ _ _ _ Hm) as (Ht & _ & Hd).
    split; [| split; [exact Hd | exists c; auto]].
    rewrite find_matches_unfold in Hm. apply in_app_or in Hm.
    destruct Hm as [Hm | Hm];
      [left; pose proof (brand_matches_brand db (ExtractedColor.rgb c) 3 50 "Prismacolor") as HB
      | right; pose proof (brand_matches_brand db (ExtractedColor.rgb c) 3 50 "Faber Castell") as HB];
      rewrite Forall_forall in HB; apply HB, Hm. }
  split; [| split; [exact Hall | split]].
  - apply all_matches_length.
  - intros brand matches Hin. apply brands_with_matches_In in Hin.
    destruct Hin as (_ & -> & Hne).
    assert (Hsub : forall e, In e (filter (fun m => (Match.brand m =? brand)%string)
                                      (all_matches db dominant_colors)) ->
                             Match.brand e = brand /\ In e (all_matches db dominant_colors)).
    { intros e He. apply filter_In in He. destruct He as [He Hb].
      split; [apply String.eqb_eq, Hb | exact He]. }
    split.
    + destruct (filter _ (all_matches db dominant_colors)) as [|m ms] eqn:E; [contradiction |].
      destruct (Hsub m (or_introl eq_refl)) as [Hb Hm]. rewrite <- Hb.
      apply (Hall m Hm).
    + intros e He. apply Hsub. unfold displayed_matches in He. apply slice_to_In in He.
      apply (sorted_unique_spec display_key), He.
  - intros m Hm.
    exists (filter (fun x => (Match.brand x =? Match.brand m)%string)
              (all_matches db dominant_colors)).
    assert (Hf : In m (filter (fun x => (Match.brand x =? Match.brand m)%string)
                         (all_matches db dominant_colors)))
      by (apply filter_In; split; [exact Hm | apply String.eqb_refl]).
    split; [| exact Hf].
    apply brands_with_matches_In. split; [| split; [reflexivity |]].
    + destruct (Hall m Hm) as ([-> | ->] & _); simpl; auto.
    + intros E. rewrite E in Hf. destruct Hf.
Qed.
